(** * chill-match-three: the TileMatchGame scene, embedded and verified

    The scene class of the game (grid of tiles, match detection, swap,
    destroy / fall / refill cascade, pointer handlers) is embedded as
    functions over an explicit [Scene] state.

    - JavaScript numbers that hold pixel coordinates are rationals ([Q]);
      colours, counters and times are integers ([Z]); loop indices are [nat].
    - [Tile] objects and Phaser sprites are heap objects: the scene keeps a
      store of each, and [tileArray], [selectedTile], [poolArray] and the
      closures of pending tweens hold references (indices) into the stores.
    - Tweens and timer events are kept as a list of pending completions;
      a completion callback is a constructor of [Callback] that records what
      the JavaScript closure captured.
    - [Phaser.Math.Between] is an oracle: the [k]-th call returns [rnd k]. *)

From Stdlib Require Import ZArith QArith Qround Qabs Lia Lqa String.
From stdpp Require Import base option list.

Open Scope Z_scope.

(** ** lib/logger.ts *)

Inductive LogLevel := DEBUG | INFO | WARN | ERROR | NONE.

Definition levelValue (l : LogLevel) : Z :=
  match l with DEBUG => 1 | INFO => 2 | WARN => 3 | ERROR => 4 | NONE => 5 end.

Record Logger := { logLevel : LogLevel }.

Definition setLogLevel (level : LogLevel) (_ : Logger) : Logger :=
  {| logLevel := level |}.

(** The browser console: the lines written so far. *)
Definition Console := list string.

Definition info (lg : Logger) (message : string) (out : Console) : Console :=
  if levelValue (logLevel lg) <=? levelValue INFO
  then out ++ [("[INFO] " ++ message)%string] else out.

Definition warn (lg : Logger) (message : string) (out : Console) : Console :=
  if levelValue (logLevel lg) <=? levelValue WARN
  then out ++ [("[WARN] " ++ message)%string] else out.

(** [export const logger = new Logger()] followed by the scene module's
    [logger.setLogLevel(LogLevel.WARN)]. *)
Definition logger : Logger := setLogLevel WARN {| logLevel := INFO |}.

(** ** Game options and constants *)

Record GameOptions := {
  gridSize : nat;
  colors : Z;
  tileSize : Q;
  swapSpeed : Z;
  fallSpeed : Z;
  destroySpeed : Z;
}.

Definition gameOptions : GameOptions :=
  {| gridSize := 7; colors := 6; tileSize := 100;
     swapSpeed := 200; fallSpeed := 100; destroySpeed := 200 |}.

Definition HORIZONTAL : Z := 1.
Definition VERTICAL : Z := 2.

(** ** Objects *)

(** A Phaser sprite. Only its position is read back by the game logic
    ([getTileRow], [getTileCol]); scale, depth, frame, alpha and visibility
    are presentation and are not part of the state. *)
Module Sprite.
Record t := mk { x : Q; y : Q }.
End Sprite.

(** What the handlers read of a [Phaser.Input.Pointer]. *)
Module Pointer.
Record t := mk { x : Q; y : Q; downX : Q; downY : Q }.
End Pointer.

(** [type Tile]; [tileSprite] is a reference into the sprite store. *)
Record Tile := { color : Z; tileSprite : nat; isEmpty : bool }.

#[global] Instance Tile_inhabited : Inhabited Tile :=
  populate {| color := 0; tileSprite := 0%nat; isEmpty := false |}.
#[global] Instance Sprite_inhabited : Inhabited Sprite.t :=
  populate (Sprite.mk 0 0).

(** What a completion closure does, with the variables it captured.
    [destroyed] and [replenished] are references to the local counters of the
    pass that registered the tween. *)
Inductive Callback :=
| onSwapComplete (tile1 tile2 : nat) (swapBack : bool)
| onDestroyComplete (i j : nat) (destroyed : nat)
| onReplenishComplete (replenished : nat)
| callHandleMatches
| noCallback.

(** A pending tween or timer event: when it completes ([due], in ms), the
    sprite it moves and the end values of the animated position. *)
Record Tween := {
  due : Z;
  targets : option nat;
  toX : option Q;
  toY : option Q;
  onComplete : Callback;
}.

(** [class TileMatchGame]: its fields, then the run-time stores. *)
Record Scene := {
  canPick : bool;
  dragging : bool;
  tileArray : list (list nat);
  poolArray : list nat;
  selectedTile : option nat;
  swappingTiles : Z;
  removeMap : list (list Z);
  tiles : list Tile;          (* the Tile objects *)
  sprites : list Sprite.t;    (* the sprites *)
  counters : list Z;          (* locals captured by pending closures *)
  tweens : list Tween;        (* pending completions, in registration order *)
  now : Z;                    (* the clock, in ms *)
  drawn : nat;                (* calls of Phaser.Math.Between so far *)
  console : Console;
}.

Definition set_canPick v s := {| canPick := v; dragging := dragging s; tileArray := tileArray s; poolArray := poolArray s; selectedTile := selectedTile s; swappingTiles := swappingTiles s; removeMap := removeMap s; tiles := tiles s; sprites := sprites s; counters := counters s; tweens := tweens s; now := now s; drawn := drawn s; console := console s |}.
Definition set_dragging v s := {| canPick := canPick s; dragging := v; tileArray := tileArray s; poolArray := poolArray s; selectedTile := selectedTile s; swappingTiles := swappingTiles s; removeMap := removeMap s; tiles := tiles s; sprites := sprites s; counters := counters s; tweens := tweens s; now := now s; drawn := drawn s; console := console s |}.
Definition set_tileArray v s := {| canPick := canPick s; dragging := dragging s; tileArray := v; poolArray := poolArray s; selectedTile := selectedTile s; swappingTiles := swappingTiles s; removeMap := removeMap s; tiles := tiles s; sprites := sprites s; counters := counters s; tweens := tweens s; now := now s; drawn := drawn s; console := console s |}.
Definition set_poolArray v s := {| canPick := canPick s; dragging := dragging s; tileArray := tileArray s; poolArray := v; selectedTile := selectedTile s; swappingTiles := swappingTiles s; removeMap := removeMap s; tiles := tiles s; sprites := sprites s; counters := counters s; tweens := tweens s; now := now s; drawn := drawn s; console := console s |}.
Definition set_selectedTile v s := {| canPick := canPick s; dragging := dragging s; tileArray := tileArray s; poolArray := poolArray s; selectedTile := v; swappingTiles := swappingTiles s; removeMap := removeMap s; tiles := tiles s; sprites := sprites s; counters := counters s; tweens := tweens s; now := now s; drawn := drawn s; console := console s |}.
Definition set_swappingTiles v s := {| canPick := canPick s; dragging := dragging s; tileArray := tileArray s; poolArray := poolArray s; selectedTile := selectedTile s; swappingTiles := v; removeMap := removeMap s; tiles := tiles s; sprites := sprites s; counters := counters s; tweens := tweens s; now := now s; drawn := drawn s; console := console s |}.
Definition set_removeMap v s := {| canPick := canPick s; dragging := dragging s; tileArray := tileArray s; poolArray := poolArray s; selectedTile := selectedTile s; swappingTiles := swappingTiles s; removeMap := v; tiles := tiles s; sprites := sprites s; counters := counters s; tweens := tweens s; now := now s; drawn := drawn s; console := console s |}.
Definition set_tiles v s := {| canPick := canPick s; dragging := dragging s; tileArray := tileArray s; poolArray := poolArray s; selectedTile := selectedTile s; swappingTiles := swappingTiles s; removeMap := removeMap s; tiles := v; sprites := sprites s; counters := counters s; tweens := tweens s; now := now s; drawn := drawn s; console := console s |}.
Definition set_sprites v s := {| canPick := canPick s; dragging := dragging s; tileArray := tileArray s; poolArray := poolArray s; selectedTile := selectedTile s; swappingTiles := swappingTiles s; removeMap := removeMap s; tiles := tiles s; sprites := v; counters := counters s; tweens := tweens s; now := now s; drawn := drawn s; console := console s |}.
Definition set_counters v s := {| canPick := canPick s; dragging := dragging s; tileArray := tileArray s; poolArray := poolArray s; selectedTile := selectedTile s; swappingTiles := swappingTiles s; removeMap := removeMap s; tiles := tiles s; sprites := sprites s; counters := v; tweens := tweens s; now := now s; drawn := drawn s; console := console s |}.
Definition set_tweens v s := {| canPick := canPick s; dragging := dragging s; tileArray := tileArray s; poolArray := poolArray s; selectedTile := selectedTile s; swappingTiles := swappingTiles s; removeMap := removeMap s; tiles := tiles s; sprites := sprites s; counters := counters s; tweens := v; now := now s; drawn := drawn s; console := console s |}.
Definition set_now v s := {| canPick := canPick s; dragging := dragging s; tileArray := tileArray s; poolArray := poolArray s; selectedTile := selectedTile s; swappingTiles := swappingTiles s; removeMap := removeMap s; tiles := tiles s; sprites := sprites s; counters := counters s; tweens := tweens s; now := v; drawn := drawn s; console := console s |}.
Definition set_drawn v s := {| canPick := canPick s; dragging := dragging s; tileArray := tileArray s; poolArray := poolArray s; selectedTile := selectedTile s; swappingTiles := swappingTiles s; removeMap := removeMap s; tiles := tiles s; sprites := sprites s; counters := counters s; tweens := tweens s; now := now s; drawn := v; console := console s |}.
Definition set_console v s := {| canPick := canPick s; dragging := dragging s; tileArray := tileArray s; poolArray := poolArray s; selectedTile := selectedTile s; swappingTiles := swappingTiles s; removeMap := removeMap s; tiles := tiles s; sprites := sprites s; counters := counters s; tweens := tweens s; now := now s; drawn := drawn s; console := v |}.

(** [m[r][c]] read from the removal mask, for loop indices. *)
Definition entry (m : list (list Z)) (q : nat * nat) : Z := (m !!! q.1) !!! q.2.

(** A handler either runs to its end or stops at a [TypeError] (an index
    derived from a sprite position that is off the grid); the scene is the
    one left behind in both cases. *)
Inductive Outcome := Done (s : Scene) | Thrown (s : Scene).

Definition sceneOf (o : Outcome) : Scene :=
  match o with Done s | Thrown s => s end.

(** The three variables of the streak scan in [markMatches]. *)
Record Streak := { colorStreak : nat; currentColor : Z; startStreak : nat }.

Section Game.

(** The options the scene runs with ([gameOptions] in the source), and the
    outcomes of the successive calls of [Phaser.Math.Between(0, colors - 1)]. *)
Variable opts : GameOptions.
Variable rnd : nat -> Z.

Definition tile (s : Scene) (t : nat) : Tile := tiles s !!! t.
Definition sprite (s : Scene) (p : nat) : Sprite.t := sprites s !!! p.

(** [this.tileArray[i][j]] for loop indices, which stay inside the array. *)
Definition cell (s : Scene) (i j : nat) : nat := (tileArray s !!! i) !!! j.

(** [this.tileArray[row][col]] for computed indices: [None] when the access
    leaves the array and the statement around it throws. *)
Definition arrayAt (s : Scene) (row col : Z) : option nat :=
  if (row <? 0) || (col <? 0) then None
  else (tileArray s !! Z.to_nat row) ≫= (.!! Z.to_nat col).

(** [x * tileSize + tileSize / 2] *)
Definition center (k : Z) : Q := (inject_Z k * tileSize opts + tileSize opts / 2)%Q.

Definition tileAt (s : Scene) (row col : Z) : option nat :=
  if (row <? 0) || (row >=? Z.of_nat (gridSize opts))
     || (col <? 0) || (col >=? Z.of_nat (gridSize opts))
  then None
  else (tileArray s !! Z.to_nat row) ≫= (.!! Z.to_nat col).

(** The common tail of [isHorizontalMatch] and [isVerticalMatch]:
    [tiles.some(tile => tile === null)], then [colors.every(...)]. *)
Definition sameColors (s : Scene) (ts : list (option nat)) : bool :=
  if existsb (fun t => bool_decide (t = None)) ts then false
  else
    let colors := map (fun t => color (tile s (default 0%nat t))) ts in
    forallb (fun c => c =? hd 0 colors) colors.

Definition isHorizontalMatch (s : Scene) (row col : Z) : bool :=
  sameColors s [tileAt s row col; tileAt s row (col - 1); tileAt s row (col - 2)].

Definition isVerticalMatch (s : Scene) (row col : Z) : bool :=
  sameColors s [tileAt s row col; tileAt s (row - 1) col; tileAt s (row - 2) col].

Definition isMatch (s : Scene) (row col : Z) : bool :=
  isHorizontalMatch s row col || isVerticalMatch s row col.

Definition matchInBoard (s : Scene) : bool :=
  existsb (fun i =>
    existsb (fun j => isMatch s (Z.of_nat i) (Z.of_nat j)) (seq 0 (gridSize opts)))
    (seq 0 (gridSize opts)).

Definition getTileRow (s : Scene) (t : nat) : Z :=
  Qfloor (Sprite.y (sprite s (tileSprite (tile s t))) / tileSize opts).

Definition getTileCol (s : Scene) (t : nat) : Z :=
  Qfloor (Sprite.x (sprite s (tileSprite (tile s t))) / tileSize opts).

Definition areTheSame (s : Scene) (tile1 tile2 : nat) : bool :=
  (getTileRow s tile1 =? getTileRow s tile2)
  && (getTileCol s tile1 =? getTileCol s tile2).

Definition areNext (s : Scene) (tile1 tile2 : nat) : bool :=
  Z.abs (getTileRow s tile1 - getTileRow s tile2)
  + Z.abs (getTileCol s tile1 - getTileCol s tile2) =? 1.

(** *** markMatches *)

(** [m[r][c]++]; [None] when the entry does not exist (the source would throw
    or store NaN). *)
Definition incr (m : list (list Z)) (r c : nat) : option (list (list Z)) :=
  row ← m !! r; v ← row !! c; Some (<[r := <[c := v + 1]> row]> m).

(** [if (colorStreak >= 3) for (k = 0; k < colorStreak; k++) ...++] *)
Definition markStreak (direction : Z) (i : nat) (st : Streak)
    (m : list (list Z)) : option (list (list Z)) :=
  if (3 <=? colorStreak st)%nat then
    foldl (fun acc k =>
             m' ← acc;
             if direction =? HORIZONTAL
             then incr m' i (startStreak st + k)
             else incr m' (startStreak st + k) i)
          (Some m) (seq 0 (colorStreak st))
  else Some m.

(** The body of the inner loop, for position [j] of line [i]. *)
Definition scanTile (direction : Z) (s : Scene) (i : nat)
    (acc : option (Streak * list (list Z))) (j : nat)
    : option (Streak * list (list Z)) :=
  '(st, m) ← acc;
  let found :=
    if direction =? HORIZONTAL
    then tileAt s (Z.of_nat i) (Z.of_nat j)
    else tileAt s (Z.of_nat j) (Z.of_nat i) in
  match found with
  | None =>
      m' ← markStreak direction i st m;
      Some ({| colorStreak := 1; currentColor := -1; startStreak := j + 1 |}, m')
  | Some t =>
      let colorToWatch := color (tile s t) in
      if colorToWatch =? currentColor st then
        Some ({| colorStreak := colorStreak st + 1;
                 currentColor := currentColor st;
                 startStreak := startStreak st |}, m)
      else
        m' ← markStreak direction i st m;
        Some ({| colorStreak := 1; currentColor := colorToWatch; startStreak := j |}, m')
  end.

(** The body of the outer loop: line [i], with the flush after the loop. *)
Definition scanLine (direction : Z) (s : Scene)
    (acc : option (list (list Z))) (i : nat) : option (list (list Z)) :=
  m ← acc;
  '(st, m') ← foldl (scanTile direction s i)
                (Some ({| colorStreak := 1; currentColor := -1; startStreak := 0 |}, m))
                (seq 0 (gridSize opts));
  markStreak direction i st m'.

(** [None]: a mask entry was missing. *)
Definition markMatches (direction : Z) (s : Scene) : option Scene :=
  m ← foldl (scanLine direction s) (Some (removeMap s)) (seq 0 (gridSize opts));
  Some (set_removeMap m s).

(** *** Destroy, fall, refill *)

(** All cells in the order of the nested [for i] / [for j] loops. *)
Definition cells : list (nat * nat) :=
  i ← seq 0 (gridSize opts); j ← seq 0 (gridSize opts); [(i, j)].

Definition addTween (tw : Tween) (s : Scene) : Scene :=
  set_tweens (tweens s ++ [tw]) s.

Definition setCell (i j : nat) (t : nat) (s : Scene) : Scene :=
  set_tileArray (<[i := <[j := t]> (tileArray s !!! i)]> (tileArray s)) s.

Definition setTile (t : nat) (v : Tile) (s : Scene) : Scene :=
  set_tiles (<[t := v]> (tiles s)) s.

Definition setSprite (p : nat) (v : Sprite.t) (s : Scene) : Scene :=
  set_sprites (<[p := v]> (sprites s)) s.

Definition holesBelow (s : Scene) (row col : nat) : nat :=
  length (filter (fun i => isEmpty (tile s (cell s i col)) = true)
                 (seq (row + 1) (gridSize opts - (row + 1)))).

Definition holesInCol (s : Scene) (col : nat) : nat :=
  length (filter (fun i => isEmpty (tile s (cell s i col)) = true)
                 (seq 0 (gridSize opts))).

(** The body of the loops of [onAfterTilesDestroyed] at row [i], column [j]. *)
Definition fallTile (j : nat) (s : Scene) (i : nat) : Scene :=
  if negb (isEmpty (tile s (cell s i j))) then
    let fallTiles := holesBelow s i j in
    if (0 <? fallTiles)%nat then
      let tempTile := cell s i j in
      let s := setCell (i + fallTiles) j tempTile s in
      let sp := tileSprite (tile s tempTile) in
      let s := addTween
        {| due := now s + fallSpeed opts * Z.of_nat fallTiles;
           targets := Some sp; toX := None;
           toY := Some (Sprite.y (sprite s sp)
                        + inject_Z (Z.of_nat fallTiles) * tileSize opts)%Q;
           onComplete := noCallback |} s in
      let newSprite := length (sprites s) in
      let s := set_sprites (sprites s ++ [Sprite.mk 0 0]) s in
      let newTile := length (tiles s) in
      let s := set_tiles
        (tiles s ++ [{| color := 0; tileSprite := newSprite; isEmpty := true |}]) s in
      setCell i j newTile s
    else s
  else s.

Definition onAfterTilesDestroyed (s : Scene) : Scene :=
  foldl (fun s j => foldl (fallTile j) s (rev (seq 0 (gridSize opts - 1))))
        s (seq 0 (gridSize opts)).

(** One iteration of the inner loop of [replenishField]: row [i] of column
    [j], which had [emptySpots] holes; [replenished] is the pass counter. *)
Definition replenishTile (replenished : nat) (j emptySpots : nat)
    (s : Scene) (i : nat) : Scene :=
  let s := set_counters (<[replenished := counters s !!! replenished + 1]> (counters s)) s in
  let randomColor := rnd (drawn s) in
  let s := set_drawn (S (drawn s)) s in
  match reverse (poolArray s) with
  | newTileSprite :: rest =>
      let s := set_poolArray (reverse rest) s in
      let t := cell s i j in
      let s := setTile t {| color := randomColor; tileSprite := newTileSprite;
                            isEmpty := false |} s in
      let s := setSprite newTileSprite
        (Sprite.mk (tileSize opts * inject_Z (Z.of_nat j) + tileSize opts / 2)%Q
                   (tileSize opts / 2
                    - inject_Z (Z.of_nat emptySpots - Z.of_nat i) * tileSize opts)%Q) s in
      addTween
        {| due := now s + fallSpeed opts * Z.of_nat emptySpots;
           targets := Some newTileSprite; toX := None;
           toY := Some (tileSize opts * inject_Z (Z.of_nat i) + tileSize opts / 2)%Q;
           onComplete := onReplenishComplete replenished |} s
  | [] =>
      let s := set_console
        (warn logger "Pool array is empty, cannot replenish tile." (console s)) s in
      set_counters (<[replenished := counters s !!! replenished - 1]> (counters s)) s
  end.

Definition replenishField (s : Scene) : Scene :=
  let replenished := length (counters s) in
  let s := set_counters (counters s ++ [0]) s in
  let totalEmptySpots :=
    foldl (fun total j => (total + holesInCol s j)%nat) 0%nat (seq 0 (gridSize opts)) in
  if (totalEmptySpots =? 0)%nat then
    set_selectedTile None (set_canPick true s)
  else
    foldl (fun s j =>
             let emptySpots := holesInCol s j in
             if (0 <? emptySpots)%nat
             then foldl (replenishTile replenished j emptySpots) s (seq 0 emptySpots)
             else s)
          s (seq 0 (gridSize opts)).

(** One iteration of the second pair of loops of [destroyMarkedTiles]. *)
Definition destroyTile (destroyed : nat) (s : Scene) (ij : nat * nat) : Scene :=
  let '(i, j) := ij in
  if 0 <? entry (removeMap s) (i, j) then
    let s := set_counters (<[destroyed := counters s !!! destroyed + 1]> (counters s)) s in
    let s := addTween
      {| due := now s + destroySpeed opts;
         targets := Some (tileSprite (tile s (cell s i j)));
         toX := None; toY := None;
         onComplete := onDestroyComplete i j destroyed |} s in
    let t := cell s i j in
    setTile t {| color := color (tile s t); tileSprite := tileSprite (tile s t);
                 isEmpty := true |} s
  else s.

(** The count made by the first pair of loops of [destroyMarkedTiles]. *)
Definition totalToDestroy (s : Scene) : nat :=
  length (filter (fun ij => 0 < entry (removeMap s) ij) cells).

Definition destroyMarkedTiles (s : Scene) : Scene :=
  let destroyed := length (counters s) in
  let s := set_counters (counters s ++ [0]) s in
  if (totalToDestroy s =? 0)%nat then
    let s := set_console
      (warn logger "No tiles to destroy, but destroyMarkedTiles was called" (console s)) s in
    replenishField s
  else foldl (destroyTile destroyed) s cells.

Definition handleMatches (s : Scene) : Outcome :=
  let s := set_removeMap (replicate (gridSize opts) (replicate (gridSize opts) 0)) s in
  match markMatches HORIZONTAL s with
  | None => Thrown s
  | Some s1 =>
      match markMatches VERTICAL s1 with
      | None => Thrown s1
      | Some s2 => Done (destroyMarkedTiles s2)
      end
  end.

(** *** Swapping *)

(** [None]: the lookup of the tween target threw, nothing was registered. *)
Definition tweenTile (s : Scene) (tile1 tile2 : nat) (swapBack : bool)
    : option Scene :=
  let row := getTileRow s tile1 in
  let col := getTileCol s tile1 in
  a ← arrayAt s row col;
  Some (addTween
    {| due := now s + swapSpeed opts;
       targets := Some (tileSprite (tile s a));
       toX := Some (center col); toY := Some (center row);
       onComplete := onSwapComplete tile1 tile2 swapBack |} s).

Definition swapTiles (s : Scene) (tile1 tile2 : nat) (swapBack : bool) : Outcome :=
  let s := set_swappingTiles 2 s in
  let s := set_canPick false s in
  let fromColor := color (tile s tile1) in
  let fromSprite := tileSprite (tile s tile1) in
  let toColor := color (tile s tile2) in
  let toSprite := tileSprite (tile s tile2) in
  let tile1Row := getTileRow s tile1 in
  let tile1Col := getTileCol s tile1 in
  let tile2Row := getTileRow s tile2 in
  let tile2Col := getTileCol s tile2 in
  match arrayAt s tile1Row tile1Col with
  | None => Thrown s
  | Some a1 =>
      let s := setTile a1 {| color := toColor; tileSprite := toSprite;
                             isEmpty := isEmpty (tile s a1) |} s in
      match arrayAt s tile2Row tile2Col with
      | None => Thrown s
      | Some a2 =>
          let s := setTile a2 {| color := fromColor; tileSprite := fromSprite;
                                 isEmpty := isEmpty (tile s a2) |} s in
          match tweenTile s tile1 tile2 swapBack with
          | None => Thrown s
          | Some s =>
              match tweenTile s tile2 tile1 swapBack with
              | None => Thrown s
              | Some s => Done s
              end
          end
      end
  end.

(** *** Completion callbacks *)

Definition swapComplete (s : Scene) (tile1 tile2 : nat) (swapBack : bool) : Outcome :=
  let s := set_swappingTiles (swappingTiles s - 1) s in
  if swappingTiles s =? 0 then
    if negb (matchInBoard s) && swapBack then swapTiles s tile1 tile2 false
    else if matchInBoard s then handleMatches s
    else Done (set_selectedTile None (set_canPick true s))
  else Done s.

Definition destroyComplete (s : Scene) (i j : nat) (destroyed : nat) : Scene :=
  let s := set_counters (<[destroyed := counters s !!! destroyed - 1]> (counters s)) s in
  let sp := tileSprite (tile s (cell s i j)) in
  let s := setSprite sp
    (Sprite.mk (tileSize opts * inject_Z (Z.of_nat j) + tileSize opts / 2)%Q
               (tileSize opts * inject_Z (Z.of_nat i) + tileSize opts / 2)%Q) s in
  let s := set_poolArray (poolArray s ++ [sp]) s in
  if counters s !!! destroyed =? 0 then replenishField (onAfterTilesDestroyed s)
  else s.

Definition replenishComplete (s : Scene) (replenished : nat) : Scene :=
  let s := set_counters (<[replenished := counters s !!! replenished - 1]> (counters s)) s in
  if counters s !!! replenished =? 0 then
    if matchInBoard s then
      addTween {| due := now s + 250; targets := None; toX := None; toY := None;
                  onComplete := callHandleMatches |} s
    else set_selectedTile None (set_canPick true s)
  else s.

Definition runCallback (cb : Callback) (s : Scene) : Outcome :=
  match cb with
  | onSwapComplete tile1 tile2 swapBack => swapComplete s tile1 tile2 swapBack
  | onDestroyComplete i j destroyed => Done (destroyComplete s i j destroyed)
  | onReplenishComplete replenished => Done (replenishComplete s replenished)
  | callHandleMatches => handleMatches s
  | noCallback => Done s
  end.

(** *** Pointer handlers *)

Definition tileSelect (s : Scene) (pointer : Pointer.t) : Outcome :=
  if canPick s then
    let s := set_dragging true s in
    let row := Qfloor (Pointer.y pointer / tileSize opts) in
    let col := Qfloor (Pointer.x pointer / tileSize opts) in
    match tileAt s row col with
    | Some pickedTile =>
        match selectedTile s with
        | None => Done (set_selectedTile (Some pickedTile) s)
        | Some selected =>
            if areTheSame s pickedTile selected then Done (set_selectedTile None s)
            else if areNext s pickedTile selected
                 then swapTiles s selected pickedTile true
                 else Done (set_selectedTile (Some pickedTile) s)
        end
    | None => Done s
    end
  else Done s.

Definition Qgt_bool (a b : Q) : bool := if Qlt_le_dec b a then true else false.
Definition Qlt_bool (a b : Q) : bool := if Qlt_le_dec a b then true else false.

(** The four tests of [startSwipe], in the order of the source; each may
    overwrite [deltaCol] or [deltaRow]. *)
Definition swipeDelta (deltaX deltaY : Q) : Z * Z :=
  let deltaRow := 0 in
  let deltaCol := 0 in
  let deltaCol :=
    if Qgt_bool deltaX (tileSize opts / 2) && Qlt_bool (Qabs deltaY) (tileSize opts / 4)
    then -1 else deltaCol in
  let deltaCol :=
    if Qlt_bool deltaX (- tileSize opts / 2) && Qlt_bool (Qabs deltaY) (tileSize opts / 4)
    then 1 else deltaCol in
  let deltaRow :=
    if Qgt_bool deltaY (tileSize opts / 2) && Qlt_bool (Qabs deltaX) (tileSize opts / 4)
    then -1 else deltaRow in
  let deltaRow :=
    if Qlt_bool deltaY (- tileSize opts / 2) && Qlt_bool (Qabs deltaX) (tileSize opts / 4)
    then 1 else deltaRow in
  (deltaRow, deltaCol).

Definition startSwipe (s : Scene) (pointer : Pointer.t) : Outcome :=
  match selectedTile s with
  | Some selected =>
      if dragging s then
        let deltaX := (Pointer.downX pointer - Pointer.x pointer)%Q in
        let deltaY := (Pointer.downY pointer - Pointer.y pointer)%Q in
        let '(deltaRow, deltaCol) := swipeDelta deltaX deltaY in
        if negb (deltaRow + deltaCol =? 0) then
          match tileAt s (getTileRow s selected + deltaRow)
                         (getTileCol s selected + deltaCol) with
          | Some pickedTile =>
              match swapTiles s selected pickedTile true with
              | Done s => Done (set_dragging false s)
              | Thrown s => Thrown s
              end
          | None => Done s
          end
        else Done s
      else Done s
  | None => Done s
  end.

Definition stopSwipe (s : Scene) : Scene := set_dragging false s.

(** *** create *)

(** [this.tileArray[i][j] = v] while row [i] is being filled: [j] is the
    length of the row (the array grows by one) or inside it. *)
Definition assignCell (i j : nat) (t : nat) (s : Scene) : Scene :=
  let row := tileArray s !!! i in
  let row' := if (j <? length row)%nat then <[j := t]> row else row ++ [t] in
  set_tileArray (<[i := row']> (tileArray s)) s.

(** The [do ... while (this.isMatch(i, j))] loop for one cell; [fuel] bounds
    the number of draws, [None] when it is used up. *)
Fixpoint placeTile (fuel : nat) (i j : nat) (sp : nat) (s : Scene) : option Scene :=
  match fuel with
  | O => None
  | S fuel =>
      let randomColor := rnd (drawn s) in
      let s := set_drawn (S (drawn s)) s in
      let t := length (tiles s) in
      let s := set_tiles
        (tiles s ++ [{| color := randomColor; tileSprite := sp; isEmpty := false |}]) s in
      let s := assignCell i j t s in
      if isMatch s (Z.of_nat i) (Z.of_nat j) then placeTile fuel i j sp s else Some s
  end.

Definition createTile (fuel : nat) (i : nat) (acc : option Scene) (j : nat)
    : option Scene :=
  s ← acc;
  let sp := length (sprites s) in
  let s := set_sprites
    (sprites s ++ [Sprite.mk (tileSize opts * inject_Z (Z.of_nat j) + tileSize opts / 2)%Q
                             (tileSize opts * inject_Z (Z.of_nat i) + tileSize opts / 2)%Q]) s in
  placeTile fuel i j sp s.

Definition createRow (fuel : nat) (acc : option Scene) (i : nat) : option Scene :=
  s ← acc;
  let s := set_tileArray (tileArray s ++ [[]]) s in
  foldl (createTile fuel i) (Some s) (seq 0 (gridSize opts)).

(** The scene object before [create] has run. [swappingTiles] and [removeMap]
    are not assigned by [create]; they are written before they are read. *)
Definition newScene : Scene :=
  {| canPick := false; dragging := false; tileArray := []; poolArray := [];
     selectedTile := None; swappingTiles := 0; removeMap := [];
     tiles := []; sprites := []; counters := []; tweens := []; now := 0;
     drawn := 0; console := [] |}.

Definition create (fuel : nat) : option Scene :=
  let s := set_canPick true newScene in
  let s := set_dragging false s in
  let s := set_tileArray [] s in
  let s := set_poolArray [] s in
  s ← foldl (createRow fuel) (Some s) (seq 0 (gridSize opts));
  Some (set_selectedTile None s).

(** *** The event loop *)

(** What the scene receives: the three pointer events it subscribes to, the
    passing of time up to [t] with no completion in between, and the
    completion of the pending tween or timer that is due first. *)
Inductive Event :=
| pointerdown (pointer : Pointer.t)
| pointermove (pointer : Pointer.t)
| pointerup
| wait (t : Z)
| complete.

(** Index of the first tween with the least [due]. *)
Fixpoint firstDue (tws : list Tween) : option (nat * Z) :=
  match tws with
  | [] => None
  | tw :: rest =>
      match firstDue rest with
      | Some (k, d) => if d <? due tw then Some (S k, d) else Some (O, due tw)
      | None => Some (O, due tw)
      end
  end.

(** The tween has run: its target has the end values. *)
Definition finishTween (tw : Tween) (s : Scene) : Scene :=
  match targets tw with
  | Some p =>
      setSprite p (Sprite.mk (default (Sprite.x (sprite s p)) (toX tw))
                             (default (Sprite.y (sprite s p)) (toY tw))) s
  | None => s
  end.

Definition step (s : Scene) (e : Event) : option Scene :=
  match e with
  | pointerdown pointer => Some (sceneOf (tileSelect s pointer))
  | pointermove pointer => Some (sceneOf (startSwipe s pointer))
  | pointerup => Some (stopSwipe s)
  | wait t =>
      if (now s <=? t) && forallb (fun tw => t <? due tw) (tweens s)
      then Some (set_now t s) else None
  | complete =>
      '(k, d) ← firstDue (tweens s);
      tw ← tweens s !! k;
      let s := set_now (Z.max (now s) d) s in
      let s := set_tweens (delete k (tweens s)) s in
      Some (sceneOf (runCallback (onComplete tw) (finishTween tw s)))
  end.

Definition run (s : Scene) (es : list Event) : option Scene :=
  foldl (fun acc e => s ← acc; step s e) (Some s) es.

(** The colours of the grid, row by row. *)
Definition colorsOf (s : Scene) : list (list Z) :=
  map (map (fun t => color (tile s t))) (tileArray s).

End Game.

(** * Properties *)

(** ** Shapes and views *)

Definition square {A} (n : nat) (m : list (list A)) : Prop :=
  length m = n /\ Forall (fun row => length row = n) m.

Section Views.

Variable opts : GameOptions.

(** Colour and occupancy of the tile object held by cell [(i, j)]. *)
Definition colorAt (s : Scene) (i j : nat) : Z := color (tile s (cell s i j)).
Definition emptyAt (s : Scene) (i j : nat) : bool := isEmpty (tile s (cell s i j)).

(** The data model of the grid: a square array whose colours are
    non-negative (they are drawn from [0 .. colors - 1], or are the
    placeholder 0). *)
Definition gridOk (s : Scene) : Prop :=
  square (gridSize opts) (tileArray s)
  /\ forall i j, (i < gridSize opts)%nat -> (j < gridSize opts)%nat -> 0 <= colorAt s i j.

Definition gridOkb (s : Scene) : bool :=
  (length (tileArray s) =? gridSize opts)%nat
  && forallb (fun row => (length row =? gridSize opts)%nat) (tileArray s)
  && forallb (fun i => forallb (fun j => 0 <=? colorAt s i j) (seq 0 (gridSize opts)))
             (seq 0 (gridSize opts)).

Lemma gridOkb_sound s : gridOkb s = true -> gridOk s.
Proof.
  unfold gridOkb, gridOk, square. rewrite !andb_true_iff.
  intros [[Hl Hr] Hc]. apply Nat.eqb_eq in Hl. split; [split; [done|]|].
  - rewrite forallb_forall in Hr. apply Forall_forall. intros row Hrow.
    apply Nat.eqb_eq, Hr. by apply list_elem_of_In.
  - intros i j Hi Hj. rewrite forallb_forall in Hc.
    specialize (Hc i). rewrite forallb_forall in Hc.
    apply Z.leb_le, Hc; apply in_seq; lia.
Qed.

Lemma square_lookup {A} `{Inhabited A} n (m : list (list A)) i j :
  square n m -> (i < n)%nat -> (j < n)%nat ->
  m !! i = Some (m !!! i) /\ (m !!! i) !! j = Some ((m !!! i) !!! j).
Proof.
  intros [Hl Hr] Hi Hj.
  assert (Hi' : m !! i = Some (m !!! i)).
  { apply list_lookup_lookup_total_lt. lia. }
  split; [done|].
  apply list_lookup_lookup_total_lt.
  rewrite Forall_forall in Hr. rewrite (Hr (m !!! i)); [done|].
  eapply list_elem_of_lookup_2; eauto.
Qed.

Lemma tileAt_inside s i j :
  square (gridSize opts) (tileArray s) ->
  (i < gridSize opts)%nat -> (j < gridSize opts)%nat ->
  tileAt opts s (Z.of_nat i) (Z.of_nat j) = Some (cell s i j).
Proof.
  intros Hsq Hi Hj. unfold tileAt, cell.
  destruct (square_lookup _ _ i j Hsq Hi Hj) as [H1 H2].
  replace (_ || _ || _ || _) with false.
  2:{ symmetry. rewrite !orb_false_iff. repeat split; lia. }
  rewrite !Nat2Z.id, H1. simpl. by rewrite H2.
Qed.

Lemma tileAt_outside s row col :
  row < 0 \/ Z.of_nat (gridSize opts) <= row \/ col < 0 \/ Z.of_nat (gridSize opts) <= col ->
  tileAt opts s row col = None.
Proof.
  intros H. unfold tileAt.
  replace (_ || _ || _ || _) with true; [done|].
  symmetry. rewrite !orb_true_iff. 
  destruct H as [H|[H|[H|H]]]; [left; left; left|left; left; right|left; right|right]; lia.
Qed.

End Views.

(** ** Runs on a line

    A line (row or column) is seen as a map from positions to colours. *)

(** The three cells starting at [a] have one colour. *)
Definition tri (c : nat -> Z) (a : nat) : bool :=
  (c a =? c (a + 1)%nat) && (c (a + 1)%nat =? c (a + 2)%nat).

(** Position [p] lies on a monochrome triple inside the first [b] cells. *)
Definition inRunB (c : nat -> Z) (b p : nat) : bool :=
  ((p + 2 <? b)%nat && tri c p)
  || ((1 <=? p)%nat && (p + 1 <? b)%nat && tri c (p - 1))
  || ((2 <=? p)%nat && (p <? b)%nat && tri c (p - 2)).

Lemma tri_spec c a :
  tri c a = true <-> c a = c (a + 1)%nat /\ c (a + 1)%nat = c (a + 2)%nat.
Proof. unfold tri. rewrite andb_true_iff, !Z.eqb_eq. done. Qed.

Lemma inRunB_spec c b p :
  inRunB c b p = true <->
  exists a, (a <= p <= a + 2)%nat /\ (a + 2 < b)%nat /\ tri c a = true.
Proof.
  unfold inRunB. rewrite !orb_true_iff, !andb_true_iff.
  rewrite !Nat.ltb_lt, !Nat.leb_le. split.
  - intros [[[H1 H2]|[[H1 H2] H3]]|[[H1 H2] H3]].
    + exists p. repeat split; [lia..|done].
    + exists (p - 1)%nat. repeat split; [lia..|done].
    + exists (p - 2)%nat. repeat split; [lia..|done].
  - intros (a & Ha & Hb & Ht).
    destruct (decide (a = p)) as [->|?]; [left; left; split; [lia|done]|].
    destruct (decide (a = p - 1)%nat) as [->|?]; [left; right; repeat split; [lia..|done]|].
    assert (a = p - 2)%nat as -> by lia. right. repeat split; [lia..|done].
Qed.

(** A triple cannot straddle a colour change. *)
Lemma inRunB_left c start j p :
  (start <= j)%nat -> start = 0%nat \/ c (start - 1)%nat <> c start ->
  (p < start)%nat -> inRunB c j p = inRunB c start p.
Proof.
  intros Hj Hb Hp. apply eq_true_iff_eq. rewrite !inRunB_spec. split.
  - intros (a & Ha & Hab & Ht). exists a. repeat split; [lia..| |done].
    destruct (decide (a + 2 < start)%nat) as [|Hge]; [done|].
    exfalso. apply tri_spec in Ht as [Ht1 Ht2].
    destruct Hb as [->|Hb]; [lia|]. apply Hb.
    destruct (decide (a = start - 1)%nat) as [->|?].
    + by replace (start - 1 + 1)%nat with start in Ht1 by lia.
    + assert (a = start - 2)%nat as -> by lia.
      replace (start - 2 + 1)%nat with (start - 1)%nat in Ht2 by lia.
      by replace (start - 2 + 2)%nat with start in Ht2 by lia.
  - intros (a & Ha & Hab & Ht). exists a. repeat split; [lia..|done].
Qed.

(** Inside a maximal monochrome stretch [start .. j - 1], being on a triple
    is having a stretch of three or more. *)
Lemma inRunB_streak c start j p :
  (forall q, (start <= q < j)%nat -> c q = c start) ->
  start = 0%nat \/ c (start - 1)%nat <> c start ->
  (start <= p < j)%nat -> inRunB c j p = (3 <=? j - start)%nat.
Proof.
  intros Hc Hb Hp. apply eq_true_iff_eq. rewrite inRunB_spec, Nat.leb_le. split.
  - intros (a & Ha & Hab & Ht).
    destruct (decide (start <= a)%nat) as [|Hlt]; [lia|].
    exfalso. apply tri_spec in Ht as [Ht1 Ht2].
    destruct Hb as [->|Hb]; [lia|]. apply Hb.
    destruct (decide (a = start - 1)%nat) as [->|?].
    + by replace (start - 1 + 1)%nat with start in Ht1 by lia.
    + assert (a = start - 2)%nat as -> by lia.
      replace (start - 2 + 1)%nat with (start - 1)%nat in Ht2 by lia.
      by replace (start - 2 + 2)%nat with start in Ht2 by lia.
  - intros Hlen.
    exists (if decide (p + 2 < j)%nat then p else (j - 3)%nat).
    case_decide; (repeat split; [lia..|]); apply tri_spec.
    + rewrite (Hc p), (Hc (p + 1)%nat), (Hc (p + 2)%nat) by lia. done.
    + rewrite (Hc (j - 3)%nat), (Hc (j - 3 + 1)%nat), (Hc (j - 3 + 2)%nat) by lia. done.
Qed.

(** ** The removal mask under [incr] *)

Lemma incr_spec n (m : list (list Z)) r c :
  square n m -> (r < n)%nat -> (c < n)%nat ->
  exists m', incr m r c = Some m' /\ square n m'
    /\ forall q, entry m' q = entry m q + Z.b2z (bool_decide (q = (r, c))).
Proof.
  intros Hsq Hr Hc.
  destruct (square_lookup n m r c Hsq Hr Hc) as [H1 H2].
  destruct Hsq as [Hl Hrows].
  assert (Hrow : length (m !!! r) = n).
  { rewrite Forall_forall in Hrows. apply Hrows.
    eapply list_elem_of_lookup_2; eauto. }
  unfold incr. rewrite H1. simpl. rewrite H2. simpl.
  eexists. split; [done|]. split.
  - split; [by rewrite length_insert|].
    apply Forall_insert; [done|]. by rewrite length_insert.
  - intros [r' c']. unfold entry. simpl.
    destruct (decide (r' = r)) as [->|Hne].
    + rewrite list_lookup_total_insert_eq by lia.
      destruct (decide (c' = c)) as [->|Hne].
      * rewrite list_lookup_total_insert_eq by lia.
        rewrite bool_decide_eq_true_2 by done. simpl. lia.
      * rewrite list_lookup_total_insert_ne by done.
        rewrite bool_decide_eq_false_2 by congruence. simpl. lia.
    + rewrite list_lookup_total_insert_ne by done.
      rewrite bool_decide_eq_false_2 by congruence. simpl. lia.
Qed.

(** ** The streak scan of [markMatches] *)

Section Scan.

Variable opts : GameOptions.
Variable direction : Z.
Variable s : Scene.
Hypothesis Hgrid : gridOk opts s.

(** Colour at position [p] of line [i], and the position of a cell on it. *)
Definition lineColor (i p : nat) : Z :=
  if direction =? HORIZONTAL then colorAt s i p else colorAt s p i.

Definition linePos (i : nat) (q : nat * nat) : option nat :=
  if direction =? HORIZONTAL
  then (if (q.1 =? i)%nat then Some q.2 else None)
  else (if (q.2 =? i)%nat then Some q.1 else None).

(** The cell is among the first [b] of line [i] and on a triple inside them. *)
Definition marked (i b : nat) (q : nat * nat) : bool :=
  match linePos i q with
  | Some p => (p <? b)%nat && inRunB (lineColor i) b p
  | None => false
  end.

Definition onStretch (i start len : nat) (q : nat * nat) : bool :=
  match linePos i q with
  | Some p => (start <=? p)%nat && (p <? start + len)%nat
  | None => false
  end.

Lemma lineColor_nonneg i p :
  (i < gridSize opts)%nat -> (p < gridSize opts)%nat -> 0 <= lineColor i p.
Proof.
  intros Hi Hp. destruct Hgrid as [_ Hc]. unfold lineColor.
  destruct (direction =? HORIZONTAL); by apply Hc.
Qed.

Lemma found_inside i j :
  (i < gridSize opts)%nat -> (j < gridSize opts)%nat ->
  (if direction =? HORIZONTAL
   then tileAt opts s (Z.of_nat i) (Z.of_nat j)
   else tileAt opts s (Z.of_nat j) (Z.of_nat i))
  = Some (if direction =? HORIZONTAL then cell s i j else cell s j i).
Proof.
  intros Hi Hj. destruct Hgrid as [Hsq _].
  destruct (direction =? HORIZONTAL); by apply tileAt_inside.
Qed.

Lemma bump_stretch i start k m :
  square (gridSize opts) m -> (i < gridSize opts)%nat ->
  (start + k <= gridSize opts)%nat ->
  exists m',
    foldl (fun acc k =>
             m' ← acc;
             if direction =? HORIZONTAL
             then incr m' i (start + k)
             else incr m' (start + k) i)
          (Some m) (seq 0 k) = Some m'
    /\ square (gridSize opts) m'
    /\ forall q, entry m' q = entry m q + Z.b2z (onStretch i start k q).
Proof.
  intros Hsq Hi. induction k as [|k IH]; intros Hk.
  - exists m. split; [done|]. split; [done|]. intros q. unfold onStretch.
    destruct (linePos i q) as [p|]; simpl; [|lia].
    replace ((start <=? p)%nat && (p <? start + 0)%nat) with false; [simpl; lia|].
    symmetry. apply andb_false_iff. rewrite Nat.leb_gt, Nat.ltb_ge. lia.
  - destruct IH as (m1 & Hf & Hsq1 & He); [lia|].
    rewrite seq_S, foldl_snoc, Hf. simpl.
    assert (Hin : exists m', (if direction =? HORIZONTAL
                              then incr m1 i (start + k)
                              else incr m1 (start + k) i) = Some m'
       /\ square (gridSize opts) m'
       /\ forall q, entry m' q = entry m1 q
            + Z.b2z (bool_decide (linePos i q = Some (start + k)%nat))).
    { unfold linePos. destruct (direction =? HORIZONTAL).
      - destruct (incr_spec _ m1 i (start + k) Hsq1) as (m' & H1 & H2 & H3); [lia..|].
        exists m'. split; [done|]. split; [done|]. intros [r c]. rewrite H3. simpl.
        f_equal. f_equal. apply bool_decide_ext.
        destruct (Nat.eqb_spec r i); split; intros; simplify_eq; done.
      - destruct (incr_spec _ m1 (start + k) i Hsq1) as (m' & H1 & H2 & H3); [lia..|].
        exists m'. split; [done|]. split; [done|]. intros [r c]. rewrite H3. simpl.
        f_equal. f_equal. apply bool_decide_ext.
        destruct (Nat.eqb_spec c i); split; intros; simplify_eq; done. }
    destruct Hin as (m' & H1 & H2 & H3). exists m'. split; [done|]. split; [done|].
    intros q. rewrite H3, He. unfold onStretch.
    destruct (linePos i q) as [p|].
    + destruct (decide (p = start + k)%nat) as [->|Hne].
      * rewrite bool_decide_eq_true_2 by done.
        replace ((start <=? start + k)%nat && (start + k <? start + k)%nat) with false
          by (symmetry; apply andb_false_iff; rewrite Nat.leb_gt, Nat.ltb_ge; lia).
        replace ((start <=? start + k)%nat && (start + k <? start + S k)%nat) with true
          by (symmetry; apply andb_true_iff; rewrite Nat.leb_le, Nat.ltb_lt; lia).
        simpl. lia.
      * rewrite bool_decide_eq_false_2 by congruence.
        replace ((start <=? p)%nat && (p <? start + S k)%nat)
          with ((start <=? p)%nat && (p <? start + k)%nat); [simpl; lia|].
        apply eq_true_iff_eq. rewrite !andb_true_iff, !Nat.leb_le, !Nat.ltb_lt. lia.
    + rewrite bool_decide_eq_false_2 by done. simpl. lia.
Qed.

Lemma markStreak_spec i st m :
  square (gridSize opts) m -> (i < gridSize opts)%nat ->
  (startStreak st + colorStreak st <= gridSize opts)%nat ->
  exists m',
    markStreak direction i st m = Some m'
    /\ square (gridSize opts) m'
    /\ forall q, entry m' q = entry m q
         + Z.b2z ((3 <=? colorStreak st)%nat
                  && onStretch i (startStreak st) (colorStreak st) q).
Proof.
  intros Hsq Hi Hlen. unfold markStreak.
  destruct (3 <=? colorStreak st)%nat.
  - destruct (bump_stretch i (startStreak st) (colorStreak st) m Hsq Hi Hlen)
      as (m' & H1 & H2 & H3).
    exists m'. done.
  - exists m. split; [done|]. split; [done|]. intros q. simpl. lia.
Qed.

(** What holds after the first [j >= 1] positions of line [i]: the open
    stretch is [startStreak .. j - 1], it is maximal to the left, and the mask
    has counted exactly the triples that lie before it. *)
Definition scanInv (i : nat) (m0 : list (list Z)) (j : nat)
    (st : Streak) (m : list (list Z)) : Prop :=
  (startStreak st < j)%nat
  /\ colorStreak st = (j - startStreak st)%nat
  /\ currentColor st = lineColor i (startStreak st)
  /\ (forall q, (startStreak st <= q < j)%nat ->
        lineColor i q = lineColor i (startStreak st))
  /\ (startStreak st = 0%nat
      \/ lineColor i (startStreak st - 1) <> lineColor i (startStreak st))
  /\ square (gridSize opts) m
  /\ forall q, entry m q = entry m0 q + Z.b2z (marked i (startStreak st) q).

Lemma marked_flush i start j q :
  (start < j)%nat ->
  (forall p, (start <= p < j)%nat -> lineColor i p = lineColor i start) ->
  start = 0%nat \/ lineColor i (start - 1) <> lineColor i start ->
  Z.b2z (marked i start q)
  + Z.b2z ((3 <=? j - start)%nat && onStretch i start (j - start) q)
  = Z.b2z (marked i j q).
Proof.
  intros Hj Hc Hb. unfold marked, onStretch.
  destruct (linePos i q) as [p|]; [|by rewrite andb_false_r].
  destruct (decide (p < start)%nat) as [Hp|Hp].
  - rewrite (inRunB_left _ start j p) by (done || lia).
    replace (p <? start)%nat with true by (symmetry; apply Nat.ltb_lt; lia).
    replace (p <? j)%nat with true by (symmetry; apply Nat.ltb_lt; lia).
    replace (start <=? p)%nat with false by (symmetry; apply Nat.leb_gt; lia).
    simpl. rewrite andb_false_r. simpl. lia.
  - replace (p <? start)%nat with false by (symmetry; apply Nat.ltb_ge; lia).
    replace (start <=? p)%nat with true by (symmetry; apply Nat.leb_le; lia).
    replace (start + (j - start))%nat with j by lia. simpl.
    destruct (decide (p < j)%nat) as [Hpj|Hpj].
    + rewrite (inRunB_streak _ start j p) by (done || lia).
      replace (p <? j)%nat with true by (symmetry; apply Nat.ltb_lt; lia).
      by rewrite andb_true_r.
    + replace (p <? j)%nat with false by (symmetry; apply Nat.ltb_ge; lia).
      by rewrite andb_false_r.
Qed.

Lemma scan_prefix i m0 j :
  (i < gridSize opts)%nat -> square (gridSize opts) m0 ->
  (1 <= j <= gridSize opts)%nat ->
  exists st m,
    foldl (scanTile opts direction s i)
          (Some ({| colorStreak := 1; currentColor := -1; startStreak := 0 |}, m0))
          (seq 0 j) = Some (st, m)
    /\ scanInv i m0 j st m.
Proof.
  intros Hi Hsq [Hj1 Hjn]. induction j as [|j IH]; [lia|].
  destruct (decide (j = 0%nat)) as [->|Hj0].
  - (* the first cell always opens a stretch: colours are not -1 *)
    simpl. rewrite found_inside by lia.
    assert (Hc := lineColor_nonneg i 0 Hi ltac:(lia)).
    replace (color (tile s (if direction =? HORIZONTAL then cell s i 0 else cell s 0 i)))
      with (lineColor i 0) by (unfold lineColor, colorAt; by destruct (direction =? HORIZONTAL)).
    replace (lineColor i 0 =? -1) with false by (symmetry; apply Z.eqb_neq; lia).
    simpl. eexists _, m0. split; [done|].
    unfold scanInv. simpl. split_and!; [lia|done|done| |by left|done|].
    + intros q Hq. by replace q with 0%nat by lia.
    + intros q. unfold marked. destruct (linePos i q); simpl; lia.
  - destruct IH as (st & m & Hf & Hlt & Hlen & Hcur & Hmono & Hmax & Hsqm & Hent); [lia..|].
    rewrite seq_S, foldl_snoc, Hf. simpl.
    rewrite found_inside by lia.
    replace (color (tile s (if direction =? HORIZONTAL then cell s i j else cell s j i)))
      with (lineColor i j) by (unfold lineColor, colorAt; by destruct (direction =? HORIZONTAL)).
    destruct (Z.eqb_spec (lineColor i j) (currentColor st)) as [Heq|Hne].
    + eexists _, m. split; [done|].
      unfold scanInv. simpl. split_and!; [lia|lia|done| |done|done|done].
      intros q Hq. destruct (decide (q = j)) as [->|?]; [congruence|].
      apply Hmono. lia.
    + destruct (markStreak_spec i st m Hsqm Hi) as (m' & Hm & Hsq' & He'); [lia|].
      rewrite Hm. simpl. eexists _, m'. split; [done|].
      unfold scanInv. simpl. split_and!; [lia|lia|done| | |done|].
      * intros q Hq. by replace q with j by lia.
      * right. rewrite (Hmono (j - 1)%nat) by lia. congruence.
      * intros q. rewrite He', Hent, Hlen, <- Z.add_assoc.
        by rewrite marked_flush.
Qed.

Lemma scanLine_spec i m0 :
  (i < gridSize opts)%nat -> square (gridSize opts) m0 ->
  exists m',
    scanLine opts direction s (Some m0) i = Some m'
    /\ square (gridSize opts) m'
    /\ forall q, entry m' q = entry m0 q + Z.b2z (marked i (gridSize opts) q).
Proof.
  intros Hi Hsq. unfold scanLine. simpl.
  destruct (scan_prefix i m0 (gridSize opts) Hi Hsq)
    as (st & m & Hf & Hlt & Hlen & Hcur & Hmono & Hmax & Hsqm & Hent); [lia|].
  rewrite Hf. simpl.
  destruct (markStreak_spec i st m Hsqm Hi) as (m' & Hm & Hsq' & He'); [lia|].
  exists m'. split; [done|]. split; [done|].
  intros q. rewrite He', Hent, Hlen, <- Z.add_assoc. by rewrite marked_flush.
Qed.

(** Line and position of a cell in the scan direction. *)
Definition lineOf (q : nat * nat) : nat :=
  if direction =? HORIZONTAL then q.1 else q.2.
Definition posOf (q : nat * nat) : nat :=
  if direction =? HORIZONTAL then q.2 else q.1.

Lemma scanLines_spec k m0 :
  (k <= gridSize opts)%nat -> square (gridSize opts) m0 ->
  exists m',
    foldl (scanLine opts direction s) (Some m0) (seq 0 k) = Some m'
    /\ square (gridSize opts) m'
    /\ forall q, entry m' q = entry m0 q
         + Z.b2z ((lineOf q <? k)%nat && (posOf q <? gridSize opts)%nat
                  && inRunB (lineColor (lineOf q)) (gridSize opts) (posOf q)).
Proof.
  intros Hk Hsq. induction k as [|k IH].
  - exists m0. split; [done|]. split; [done|]. intros q. simpl. lia.
  - destruct IH as (m1 & Hf & Hsq1 & He); [lia|].
    rewrite seq_S, foldl_snoc, Hf. simpl.
    destruct (scanLine_spec k m1) as (m' & Hm & Hsq' & He'); [lia|done|].
    exists m'. split; [done|]. split; [done|].
    intros q. rewrite He', He, <- Z.add_assoc. f_equal.
    unfold marked, linePos, lineOf, posOf.
    destruct (direction =? HORIZONTAL).
    + destruct (Nat.eqb_spec q.1 k) as [->|Hne].
      * replace (k <? k)%nat with false by (symmetry; apply Nat.ltb_ge; lia).
        replace (k <? S k)%nat with true by (symmetry; apply Nat.ltb_lt; lia).
        simpl. done.
      * replace (q.1 <? S k)%nat with (q.1 <? k)%nat; [simpl; lia|].
        apply eq_true_iff_eq. rewrite !Nat.ltb_lt. lia.
    + destruct (Nat.eqb_spec q.2 k) as [->|Hne].
      * replace (k <? k)%nat with false by (symmetry; apply Nat.ltb_ge; lia).
        replace (k <? S k)%nat with true by (symmetry; apply Nat.ltb_lt; lia).
        simpl. done.
      * replace (q.2 <? S k)%nat with (q.2 <? k)%nat; [simpl; lia|].
        apply eq_true_iff_eq. rewrite !Nat.ltb_lt. lia.
Qed.

End Scan.

(** ** The mask in terms of the match tests *)

Section Mask.

Variable opts : GameOptions.

(** The cell is one of the three cells of a row triple that
    [isHorizontalMatch] accepts (looking back from the cell itself, from its
    right neighbour or from the one after); same for columns. *)
Definition onHorizontalRun (s : Scene) (r c : nat) : bool :=
  isHorizontalMatch opts s (Z.of_nat r) (Z.of_nat c)
  || isHorizontalMatch opts s (Z.of_nat r) (Z.of_nat c + 1)
  || isHorizontalMatch opts s (Z.of_nat r) (Z.of_nat c + 2).

Definition onVerticalRun (s : Scene) (r c : nat) : bool :=
  isVerticalMatch opts s (Z.of_nat r) (Z.of_nat c)
  || isVerticalMatch opts s (Z.of_nat r + 1) (Z.of_nat c)
  || isVerticalMatch opts s (Z.of_nat r + 2) (Z.of_nat c).

(** The mask that [handleMatches] hands to [destroyMarkedTiles]. *)
Definition scanBoard (s : Scene) : option (list (list Z)) :=
  let s := set_removeMap
    (replicate (gridSize opts) (replicate (gridSize opts) 0)) s in
  s1 ← markMatches opts HORIZONTAL s;
  s2 ← markMatches opts VERTICAL s1;
  Some (removeMap s2).

Lemma sameColors_three s t0 t1 t2 :
  sameColors s [Some t0; Some t1; Some t2]
  = (color (tile s t1) =? color (tile s t0)) && (color (tile s t2) =? color (tile s t0)).
Proof.
  unfold sameColors. simpl. rewrite Z.eqb_refl. simpl. by rewrite andb_true_r.
Qed.

Lemma sameColors_none s ts : None ∈ ts -> sameColors s ts = false.
Proof.
  intros Hin. unfold sameColors.
  replace (existsb _ ts) with true; [done|].
  symmetry. apply existsb_exists. exists None. split; [by apply list_elem_of_In|].
  by apply bool_decide_eq_true.
Qed.

Lemma isHorizontalMatch_tri s r e :
  square (gridSize opts) (tileArray s) -> (r < gridSize opts)%nat ->
  isHorizontalMatch opts s (Z.of_nat r) (Z.of_nat e)
  = (2 <=? e)%nat && (e <? gridSize opts)%nat && tri (colorAt s r) (e - 2).
Proof.
  intros Hsq Hr. unfold isHorizontalMatch.
  destruct (Nat.leb_spec 2 e) as [H2|H2]; simpl.
  2:{ rewrite (tileAt_outside opts s _ (Z.of_nat e - 2)) by lia.
      apply sameColors_none, list_elem_of_In. simpl. auto. }
  destruct (Nat.ltb_spec e (gridSize opts)) as [Hn|Hn]; simpl.
  2:{ rewrite (tileAt_outside opts s _ (Z.of_nat e)) by lia.
      apply sameColors_none, list_elem_of_In. simpl. auto. }
  replace (Z.of_nat e - 1) with (Z.of_nat (e - 1)) by lia.
  replace (Z.of_nat e - 2) with (Z.of_nat (e - 2)) by lia.
  rewrite !tileAt_inside by (done || lia). rewrite sameColors_three.
  unfold tri, colorAt.
  replace (e - 2 + 1)%nat with (e - 1)%nat by lia.
  replace (e - 2 + 2)%nat with e by lia.
  apply eq_true_iff_eq. rewrite !andb_true_iff, !Z.eqb_eq.
  split; intros [H1 H3]; split; congruence.
Qed.

Lemma isVerticalMatch_tri s e c :
  square (gridSize opts) (tileArray s) -> (c < gridSize opts)%nat ->
  isVerticalMatch opts s (Z.of_nat e) (Z.of_nat c)
  = (2 <=? e)%nat && (e <? gridSize opts)%nat && tri (fun p => colorAt s p c) (e - 2).
Proof.
  intros Hsq Hr. unfold isVerticalMatch.
  destruct (Nat.leb_spec 2 e) as [H2|H2]; simpl.
  2:{ rewrite (tileAt_outside opts s (Z.of_nat e - 2)) by lia.
      apply sameColors_none, list_elem_of_In. simpl. auto. }
  destruct (Nat.ltb_spec e (gridSize opts)) as [Hn|Hn]; simpl.
  2:{ rewrite (tileAt_outside opts s (Z.of_nat e)) by lia.
      apply sameColors_none, list_elem_of_In. simpl. auto. }
  replace (Z.of_nat e - 1) with (Z.of_nat (e - 1)) by lia.
  replace (Z.of_nat e - 2) with (Z.of_nat (e - 2)) by lia.
  rewrite !tileAt_inside by (done || lia). rewrite sameColors_three.
  unfold tri, colorAt.
  replace (e - 2 + 1)%nat with (e - 1)%nat by lia.
  replace (e - 2 + 2)%nat with e by lia.
  apply eq_true_iff_eq. rewrite !andb_true_iff, !Z.eqb_eq.
  split; intros [H1 H3]; split; congruence.
Qed.

Lemma onHorizontalRun_inRunB s r c :
  square (gridSize opts) (tileArray s) -> (r < gridSize opts)%nat ->
  onHorizontalRun s r c = inRunB (colorAt s r) (gridSize opts) c.
Proof.
  intros Hsq Hr. unfold onHorizontalRun, inRunB.
  replace (Z.of_nat c + 1) with (Z.of_nat (c + 1)) by lia.
  replace (Z.of_nat c + 2) with (Z.of_nat (c + 2)) by lia.
  rewrite !isHorizontalMatch_tri by done.
  replace (c + 1 - 2)%nat with (c - 1)%nat by lia.
  replace (c + 2 - 2)%nat with c by lia.
  replace (2 <=? c + 1)%nat with (1 <=? c)%nat
    by (apply eq_true_iff_eq; rewrite !Nat.leb_le; lia).
  replace (2 <=? c + 2)%nat with true by (symmetry; apply Nat.leb_le; lia).
  simpl. by destruct (_ && tri _ c), (_ && tri _ (c - 1)), (_ && tri _ (c - 2)).
Qed.

Lemma onVerticalRun_inRunB s r c :
  square (gridSize opts) (tileArray s) -> (c < gridSize opts)%nat ->
  onVerticalRun s r c = inRunB (fun p => colorAt s p c) (gridSize opts) r.
Proof.
  intros Hsq Hr. unfold onVerticalRun, inRunB.
  replace (Z.of_nat r + 1) with (Z.of_nat (r + 1)) by lia.
  replace (Z.of_nat r + 2) with (Z.of_nat (r + 2)) by lia.
  rewrite !isVerticalMatch_tri by done.
  replace (r + 1 - 2)%nat with (r - 1)%nat by lia.
  replace (r + 2 - 2)%nat with r by lia.
  replace (2 <=? r + 1)%nat with (1 <=? r)%nat
    by (apply eq_true_iff_eq; rewrite !Nat.leb_le; lia).
  replace (2 <=? r + 2)%nat with true by (symmetry; apply Nat.leb_le; lia).
  simpl. by destruct (_ && tri _ r), (_ && tri _ (r - 1)), (_ && tri _ (r - 2)).
Qed.

Lemma square_zeros n : square n (replicate n (replicate n 0)).
Proof.
  split; [by rewrite length_replicate|].
  apply Forall_replicate. by rewrite length_replicate.
Qed.

Lemma entry_zeros n q :
  (q.1 < n)%nat -> (q.2 < n)%nat -> entry (replicate n (replicate n 0)) q = 0.
Proof.
  intros H1 H2. unfold entry. by rewrite !lookup_total_replicate_2.
Qed.

(** The scan never leaves the mask, and counts one per direction in which
    the cell lies on a triple. *)
Lemma scanBoard_spec s :
  gridOk opts s ->
  exists m,
    scanBoard s = Some m
    /\ square (gridSize opts) m
    /\ forall r c, (r < gridSize opts)%nat -> (c < gridSize opts)%nat ->
         entry m (r, c)
         = Z.b2z (onHorizontalRun s r c) + Z.b2z (onVerticalRun s r c).
Proof.
  intros Hok. unfold scanBoard, markMatches.
  set (s0 := set_removeMap _ s).
  assert (Hok0 : gridOk opts s0) by done.
  destruct (scanLines_spec opts HORIZONTAL s0 Hok0 (gridSize opts) (removeMap s0))
    as (m1 & Hf1 & Hsq1 & He1); [lia|apply square_zeros|].
  rewrite Hf1. simpl.
  set (s1 := set_removeMap m1 s0).
  assert (Hok1 : gridOk opts s1) by done.
  destruct (scanLines_spec opts VERTICAL s1 Hok1 (gridSize opts) m1)
    as (m2 & Hf2 & Hsq2 & He2); [lia|done|].
  change (removeMap s1) with m1. rewrite Hf2. simpl.
  exists m2. split; [done|]. split; [done|].
  intros r c Hr Hc. rewrite He2, He1.
  unfold lineOf, posOf, lineColor. simpl.
  change (removeMap s0) with (replicate (gridSize opts) (replicate (gridSize opts) 0)).
  rewrite entry_zeros by done.
  replace (r <? gridSize opts)%nat with true by (symmetry; apply Nat.ltb_lt; lia).
  replace (c <? gridSize opts)%nat with true by (symmetry; apply Nat.ltb_lt; lia).
  simpl. destruct Hok as [Hsq _].
  rewrite onHorizontalRun_inRunB, onVerticalRun_inRunB by done.
  change (colorAt s1) with (colorAt s). change (colorAt s0) with (colorAt s).
  f_equal.
Qed.

End Mask.

(** ** Fixtures *)

(** A scene at rest whose grid shows the given colours and occupancy: tile
    object and sprite [i * gridSize + j] belong to cell [(i, j)], and every
    sprite sits at the centre of its cell. *)
Definition boardScene (opts : GameOptions) (g : list (list (Z * bool))) : Scene :=
  let n := gridSize opts in
  {| canPick := true; dragging := false;
     tileArray := imap (fun i row => imap (fun j _ => (i * n + j)%nat) row) g;
     poolArray := []; selectedTile := None; swappingTiles := 0; removeMap := [];
     tiles := concat (imap (fun i row => imap (fun j (cb : Z * bool) =>
                {| color := cb.1; tileSprite := (i * n + j)%nat; isEmpty := cb.2 |}) row) g);
     sprites := concat (imap (fun i row => imap (fun j (_ : Z * bool) =>
                Sprite.mk (tileSize opts * inject_Z (Z.of_nat j) + tileSize opts / 2)%Q
                          (tileSize opts * inject_Z (Z.of_nat i) + tileSize opts / 2)%Q) row) g);
     counters := []; tweens := []; now := 0; drawn := 0; console := [] |}.

Definition occupied (cs : list (list Z)) : list (list (Z * bool)) :=
  map (map (fun c => (c, false))) cs.

(** A 7 x 7 board with no match, as [create] can produce it. *)
Definition calmBoard : Scene :=
  boardScene gameOptions (occupied
    [[0; 0; 1; 1; 2; 2; 3]; [4; 5; 0; 1; 2; 3; 4]; [5; 0; 1; 2; 3; 4; 5];
     [0; 1; 2; 3; 4; 5; 0]; [1; 2; 3; 4; 5; 0; 1]; [2; 3; 4; 5; 0; 1; 2];
     [3; 4; 5; 0; 1; 2; 3]]).

(** The same board after cells (0,2) and (1,2) were exchanged: a row of
    three 0s at the top left. *)
Definition matchBoard : Scene :=
  boardScene gameOptions (occupied
    [[0; 0; 0; 1; 2; 2; 3]; [4; 5; 1; 1; 2; 3; 4]; [5; 0; 1; 2; 3; 4; 5];
     [0; 1; 2; 3; 4; 5; 0]; [1; 2; 3; 4; 5; 0; 1]; [2; 3; 4; 5; 0; 1; 2];
     [3; 4; 5; 0; 1; 2; 3]]).

(** ** Detector agreement *)

Section Agreement.

Variable opts : GameOptions.

Lemma elem_of_cells i j :
  (i, j) ∈ cells opts <-> (i < gridSize opts)%nat /\ (j < gridSize opts)%nat.
Proof.
  unfold cells. rewrite list_elem_of_bind. split.
  - intros (i' & Hj & Hi). apply list_elem_of_bind in Hj as (j' & Hj & Hj').
    apply list_elem_of_singleton in Hj. simplify_eq.
    apply elem_of_seq in Hi, Hj'. lia.
  - intros [Hi Hj]. exists i. split; [|apply elem_of_seq; lia].
    apply list_elem_of_bind. exists j. split; [by apply list_elem_of_singleton|].
    apply elem_of_seq. lia.
Qed.

Lemma totalToDestroy_pos s :
  totalToDestroy opts s <> 0%nat <->
  exists r c, (r < gridSize opts)%nat /\ (c < gridSize opts)%nat
              /\ 0 < entry (removeMap s) (r, c).
Proof.
  unfold totalToDestroy. split.
  - intros Hne. destruct (filter _ (cells opts)) as [|[r c] l] eqn:Hf; [done|].
    assert (Hin : (r, c) ∈ filter (fun ij => 0 < entry (removeMap s) ij) (cells opts))
      by (rewrite Hf; left).
    apply list_elem_of_filter in Hin as [Hp Hin]. apply elem_of_cells in Hin.
    exists r, c. tauto.
  - intros (r & c & Hr & Hc & Hp) Hlen.
    assert (Hin : (r, c) ∈ filter (fun ij => 0 < entry (removeMap s) ij) (cells opts)).
    { apply list_elem_of_filter. split; [done|]. by apply elem_of_cells. }
    apply nil_length_inv in Hlen. rewrite Hlen in Hin. by apply elem_of_nil in Hin.
Qed.

Lemma matchInBoard_spec s :
  matchInBoard opts s = true <->
  exists i j, (i < gridSize opts)%nat /\ (j < gridSize opts)%nat
              /\ isMatch opts s (Z.of_nat i) (Z.of_nat j) = true.
Proof.
  unfold matchInBoard. rewrite existsb_exists. split.
  - intros (i & Hi & He). apply existsb_exists in He as (j & Hj & He).
    apply in_seq in Hi, Hj. exists i, j. split; [lia|]. split; [lia|done].
  - intros (i & j & Hi & Hj & He). exists i. split; [apply in_seq; lia|].
    apply existsb_exists. exists j. split; [apply in_seq; lia|done].
Qed.

Lemma matchInBoard_runs s :
  square (gridSize opts) (tileArray s) ->
  matchInBoard opts s = true <->
  exists r c, (r < gridSize opts)%nat /\ (c < gridSize opts)%nat
              /\ (onHorizontalRun opts s r c || onVerticalRun opts s r c) = true.
Proof.
  intros Hsq. rewrite matchInBoard_spec. split.
  - intros (i & j & Hi & Hj & He). exists i, j. split; [done|]. split; [done|].
    unfold isMatch in He. unfold onHorizontalRun, onVerticalRun.
    apply orb_true_iff in He as [He|He]; rewrite He; simpl; [done|].
    by rewrite orb_true_r.
  - intros (r & c & Hr & Hc & He). unfold isMatch.
    apply orb_true_iff in He as [He|He].
    + unfold onHorizontalRun in He.
      replace (Z.of_nat c + 1) with (Z.of_nat (c + 1)) in He by lia.
      replace (Z.of_nat c + 2) with (Z.of_nat (c + 2)) in He by lia.
      apply orb_true_iff in He as [He|He]; [apply orb_true_iff in He as [He|He]|].
      * exists r, c. by rewrite He.
      * exists r, (c + 1)%nat. rewrite He. split; [done|]. split; [|done].
        rewrite isHorizontalMatch_tri in He by done.
        apply andb_true_iff in He as [He _]. apply andb_true_iff in He as [_ He].
        by apply Nat.ltb_lt in He.
      * exists r, (c + 2)%nat. rewrite He. split; [done|]. split; [|done].
        rewrite isHorizontalMatch_tri in He by done.
        apply andb_true_iff in He as [He _]. apply andb_true_iff in He as [_ He].
        by apply Nat.ltb_lt in He.
    + unfold onVerticalRun in He.
      replace (Z.of_nat r + 1) with (Z.of_nat (r + 1)) in He by lia.
      replace (Z.of_nat r + 2) with (Z.of_nat (r + 2)) in He by lia.
      apply orb_true_iff in He as [He|He]; [apply orb_true_iff in He as [He|He]|].
      * exists r, c. rewrite He. by rewrite orb_true_r.
      * exists (r + 1)%nat, c. rewrite He, orb_true_r. split; [|done].
        rewrite isVerticalMatch_tri in He by done.
        apply andb_true_iff in He as [He _]. apply andb_true_iff in He as [_ He].
        by apply Nat.ltb_lt in He.
      * exists (r + 2)%nat, c. rewrite He, orb_true_r. split; [|done].
        rewrite isVerticalMatch_tri in He by done.
        apply andb_true_iff in He as [He _]. apply andb_true_iff in He as [_ He].
        by apply Nat.ltb_lt in He.
Qed.

End Agreement.

(** C9. On every grid of the data model (square, colours non-negative) the
    two scans of [markMatches] succeed, and [matchInBoard] is true exactly
    when the mask they build from zeros has an entry greater than 0; hence
    [destroyMarkedTiles], run on that mask after a true [matchInBoard], counts
    at least one tile to destroy and does not take its empty-mask branch. *)
Theorem detector_agreement (opts : GameOptions) (s : Scene) :
  gridOk opts s ->
  exists m,
    scanBoard opts s = Some m
    /\ (matchInBoard opts s = true <->
        exists r c, (r < gridSize opts)%nat /\ (c < gridSize opts)%nat
                    /\ 0 < entry m (r, c))
    /\ (matchInBoard opts s = true ->
        totalToDestroy opts (set_removeMap m s) <> 0%nat).
Proof.
  intros Hok. destruct (scanBoard_spec opts s Hok) as (m & Hm & Hsq & He).
  exists m. split; [done|].
  assert (Hiff : matchInBoard opts s = true <->
        exists r c, (r < gridSize opts)%nat /\ (c < gridSize opts)%nat
                    /\ 0 < entry m (r, c)).
  { destruct Hok as [Hsqg _]. rewrite matchInBoard_runs by done.
    split; intros (r & c & Hr & Hc & H); exists r, c; (split; [done|]; split; [done|]).
    - rewrite He by done.
      destruct (onHorizontalRun opts s r c), (onVerticalRun opts s r c); simpl in *; lia.
    - rewrite He in H by done.
      destruct (onHorizontalRun opts s r c), (onVerticalRun opts s r c); simpl in *;
        done || lia. }
  split; [done|].
  intros Hmatch. apply totalToDestroy_pos. simpl. by apply Hiff.
Qed.

Lemma detector_agreement_witness :
  exists m,
    scanBoard gameOptions matchBoard = Some m
    /\ (matchInBoard gameOptions matchBoard = true <->
        exists r c, (r < 7)%nat /\ (c < 7)%nat /\ 0 < entry m (r, c))
    /\ (matchInBoard gameOptions matchBoard = true ->
        totalToDestroy gameOptions (set_removeMap m matchBoard) <> 0%nat).
Proof.
  apply (detector_agreement gameOptions matchBoard), gridOkb_sound.
  vm_compute. reflexivity.
Defined.

(** ** Mask correctness on concrete shapes *)

(** Cell [(r, c)] lies on a stretch of three or more cells of its row that
    all show its colour; same for its column. *)
Definition onRowRun (opts : GameOptions) (s : Scene) (r c : nat) : Prop :=
  exists lo len, (3 <= len)%nat /\ (lo <= c < lo + len)%nat
    /\ (lo + len <= gridSize opts)%nat
    /\ forall k, (lo <= k < lo + len)%nat -> colorAt s r k = colorAt s r c.

Definition onColumnRun (opts : GameOptions) (s : Scene) (r c : nat) : Prop :=
  exists lo len, (3 <= len)%nat /\ (lo <= r < lo + len)%nat
    /\ (lo + len <= gridSize opts)%nat
    /\ forall k, (lo <= k < lo + len)%nat -> colorAt s k c = colorAt s r c.

Lemma inRunB_stretch (col : nat -> Z) n p :
  inRunB col n p = true <->
  exists lo len, (3 <= len)%nat /\ (lo <= p < lo + len)%nat /\ (lo + len <= n)%nat
    /\ forall k, (lo <= k < lo + len)%nat -> col k = col p.
Proof.
  rewrite inRunB_spec. split.
  - intros (a & Ha & Hn & Ht). apply tri_spec in Ht as [H1 H2].
    exists a, 3%nat. split; [lia|]. split; [lia|]. split; [lia|].
    intros k Hk.
    assert (Hk' : k = a \/ k = (a + 1)%nat \/ k = (a + 2)%nat) by lia.
    assert (Hp' : p = a \/ p = (a + 1)%nat \/ p = (a + 2)%nat) by lia.
    destruct Hk' as [-> | [-> | ->]], Hp' as [-> | [-> | ->]]; congruence.
  - intros (lo & len & Hlen & Hp & Hn & Hc).
    exists (if decide (p + 2 < lo + len)%nat then p else (lo + len - 3)%nat).
    case_decide; (split; [lia|]; split; [lia|]); apply tri_spec.
    + rewrite (Hc (p + 1)%nat), (Hc (p + 2)%nat) by lia. done.
    + rewrite (Hc (lo + len - 3)%nat), (Hc (lo + len - 3 + 1)%nat),
        (Hc (lo + len - 3 + 2)%nat) by lia. done.
Qed.

Lemma onHorizontalRun_iff opts s r c :
  square (gridSize opts) (tileArray s) -> (r < gridSize opts)%nat ->
  onHorizontalRun opts s r c = true <-> onRowRun opts s r c.
Proof.
  intros Hsq Hr. rewrite onHorizontalRun_inRunB by done. apply inRunB_stretch.
Qed.

Lemma onVerticalRun_iff opts s r c :
  square (gridSize opts) (tileArray s) -> (c < gridSize opts)%nat ->
  onVerticalRun opts s r c = true <-> onColumnRun opts s r c.
Proof.
  intros Hsq Hr. rewrite onVerticalRun_inRunB by done.
  apply (inRunB_stretch (fun p => colorAt s p c)).
Qed.

(** The options of the game on a 4 x 4 board. *)
Definition options4 : GameOptions :=
  {| gridSize := 4; colors := 6; tileSize := 100;
     swapSpeed := 200; fallSpeed := 100; destroySpeed := 200 |}.

(** Row 0 reads A A A B with A = 0 and B = 1, and column 3 holds three 1s. *)
Definition cornerBoard : Scene :=
  boardScene options4 (occupied
    [[0; 0; 0; 1]; [2; 3; 4; 1]; [3; 4; 2; 1]; [4; 2; 3; 5]]).

(** Row 0 reads A A A B and no column holds a match. *)
Definition rowBoard : Scene :=
  boardScene options4 (occupied
    [[0; 0; 0; 1]; [2; 3; 4; 5]; [3; 4; 2; 1]; [4; 2; 3; 5]]).

(** C6, as stated, fails: on [cornerBoard] row 0 reads [A, A, A, B] with
    [A <> B], yet the fourth cell of the row ends with count 1, from the
    vertical run it lies on. *)
Lemma fourth_cell_counted :
  gridOk options4 cornerBoard
  /\ colorAt cornerBoard 0 0 = 0 /\ colorAt cornerBoard 0 1 = 0
  /\ colorAt cornerBoard 0 2 = 0 /\ colorAt cornerBoard 0 3 = 1
  /\ exists m, scanBoard options4 cornerBoard = Some m /\ entry m (0, 3)%nat = 1.
Proof.
  split; [apply gridOkb_sound; vm_compute; reflexivity|].
  repeat (split; [vm_compute; reflexivity|]).
  eexists. split; vm_compute; reflexivity.
Qed.

(** C6, amended. On every grid of the data model the full-board scan
    succeeds, and with [m] its mask: when the board is 4 wide and a row reads
    [A, A, A, B] with [A <> B], the first three cells of the row have count at
    least 1 and the fourth has count 1 if it lies on a vertical run of three
    or more and count 0 otherwise; and a cell that lies on a horizontal run of
    three or more and on a vertical one has count exactly 2. *)
Theorem mask_shapes (opts : GameOptions) (s : Scene) :
  gridOk opts s ->
  exists m,
    scanBoard opts s = Some m
    /\ (forall r A B,
          gridSize opts = 4%nat -> (r < 4)%nat ->
          colorAt s r 0 = A -> colorAt s r 1 = A -> colorAt s r 2 = A ->
          colorAt s r 3 = B -> A <> B ->
          1 <= entry m (r, 0)%nat /\ 1 <= entry m (r, 1)%nat
          /\ 1 <= entry m (r, 2)%nat
          /\ (onColumnRun opts s r 3 -> entry m (r, 3)%nat = 1)
          /\ (~ onColumnRun opts s r 3 -> entry m (r, 3)%nat = 0))
    /\ (forall r c,
          (r < gridSize opts)%nat -> (c < gridSize opts)%nat ->
          onRowRun opts s r c -> onColumnRun opts s r c ->
          entry m (r, c) = 2).
Proof.
  intros Hok. destruct (scanBoard_spec opts s Hok) as (m & Hm & Hsq & He).
  destruct Hok as [Hsqg _].
  exists m. split; [done|]. split.
  - intros r A B Hn Hr H0 H1 H2 H3 HAB.
    assert (Hrun : forall c, (c < 3)%nat -> onHorizontalRun opts s r c = true).
    { intros c Hc. apply onHorizontalRun_iff; [done|lia|].
      exists 0%nat, 3%nat. split; [lia|]. split; [lia|]. split; [lia|].
      intros k Hk.
      assert (Hk' : k = 0%nat \/ k = 1%nat \/ k = 2%nat) by lia.
      assert (Hc' : c = 0%nat \/ c = 1%nat \/ c = 2%nat) by lia.
      destruct Hk' as [-> | [-> | ->]], Hc' as [-> | [-> | ->]]; congruence. }
    assert (Hlast : onHorizontalRun opts s r 3 = false).
    { apply not_true_iff_false. rewrite onHorizontalRun_iff by (done || lia).
      intros (lo & len & Hlen & Hc & Hb & Hcol).
      apply HAB. rewrite <- H2, <- H3. apply (Hcol 2%nat). lia. }
    rewrite !He by lia. rewrite !Hrun by lia. rewrite Hlast. simpl.
    split; [destruct (onVerticalRun opts s r 0); simpl; lia|].
    split; [destruct (onVerticalRun opts s r 1); simpl; lia|].
    split; [destruct (onVerticalRun opts s r 2); simpl; lia|].
    split; intros Hv.
    + apply onVerticalRun_iff in Hv; [|done|lia]. by rewrite Hv.
    + destruct (onVerticalRun opts s r 3) eqn:Hv'; [|done].
      exfalso. apply Hv. apply onVerticalRun_iff; [done|lia|done].
  - intros r c Hr Hc Hh Hv. rewrite He by done.
    apply onHorizontalRun_iff in Hh; [|done..].
    apply onVerticalRun_iff in Hv; [|done..].
    by rewrite Hh, Hv.
Qed.

Lemma mask_shapes_witness :
  exists m,
    scanBoard options4 rowBoard = Some m
    /\ (forall r A B,
          gridSize options4 = 4%nat -> (r < 4)%nat ->
          colorAt rowBoard r 0 = A -> colorAt rowBoard r 1 = A ->
          colorAt rowBoard r 2 = A -> colorAt rowBoard r 3 = B -> A <> B ->
          1 <= entry m (r, 0)%nat /\ 1 <= entry m (r, 1)%nat
          /\ 1 <= entry m (r, 2)%nat
          /\ (onColumnRun options4 rowBoard r 3 -> entry m (r, 3)%nat = 1)
          /\ (~ onColumnRun options4 rowBoard r 3 -> entry m (r, 3)%nat = 0))
    /\ (forall r c,
          (r < gridSize options4)%nat -> (c < gridSize options4)%nat ->
          onRowRun options4 rowBoard r c -> onColumnRun options4 rowBoard r c ->
          entry m (r, c) = 2).
Proof.
  apply (mask_shapes options4 rowBoard), gridOkb_sound.
  vm_compute. reflexivity.
Defined.

(** ** Holes and the scan *)

(** [matchBoard] with the middle cell of its top-left run of three 0s
    unoccupied. *)
Definition holedBoard : Scene :=
  boardScene gameOptions
    ([[(0, false); (0, true); (0, false); (1, false); (2, false); (2, false); (3, false)]]
     ++ occupied
       [[4; 5; 1; 1; 2; 3; 4]; [5; 0; 1; 2; 3; 4; 5]; [0; 1; 2; 3; 4; 5; 0];
        [1; 2; 3; 4; 5; 0; 1]; [2; 3; 4; 5; 0; 1; 2]; [3; 4; 5; 0; 1; 2; 3]]).

(** C2 fails on the code: [tileAt] returns the tile object of every cell
    inside the grid, occupied or not, so the scan never takes its [null]
    branch there. On [holedBoard] the run of three 0s at the top left spans
    the hole at (0,1): the hole and both occupied neighbours get count 1. *)
Lemma hole_is_counted :
  gridOk gameOptions holedBoard
  /\ emptyAt holedBoard 0 1 = true
  /\ tileAt gameOptions holedBoard 0 1 <> None
  /\ exists m,
       scanBoard gameOptions holedBoard = Some m
       /\ entry m (0, 0)%nat = 1 /\ entry m (0, 1)%nat = 1 /\ entry m (0, 2)%nat = 1.
Proof.
  split; [apply gridOkb_sound; vm_compute; reflexivity|].
  split; [vm_compute; reflexivity|].
  split; [vm_compute; discriminate|].
  eexists. split_and!; vm_compute; reflexivity.
Qed.

(** ** Compaction *)

(** Unoccupied cells of column [j] among rows [lo .. lo + len - 1]. *)
Definition emptiesIn (s : Scene) (j lo len : nat) : nat :=
  length (filter (fun i => emptyAt s i j = true) (seq lo len)).

(** Every cell of the grid refers to an allocated tile object. *)
Definition refsOk (n : nat) (s : Scene) : Prop :=
  forall r c, (r < n)%nat -> (c < n)%nat -> (cell s r c < length (tiles s))%nat.

Lemma emptiesIn_app s j lo a b :
  emptiesIn s j lo (a + b) = (emptiesIn s j lo a + emptiesIn s j (lo + a) b)%nat.
Proof. unfold emptiesIn. by rewrite seq_app, filter_app, length_app. Qed.

Lemma emptiesIn_one s j lo :
  emptiesIn s j lo 1 = if emptyAt s lo j then 1%nat else 0%nat.
Proof.
  unfold emptiesIn. simpl. rewrite filter_cons, filter_nil.
  destruct (emptyAt s lo j); by case_decide.
Qed.

Lemma emptiesIn_le s j lo len : (emptiesIn s j lo len <= len)%nat.
Proof.
  unfold emptiesIn. etrans; [apply length_filter|]. by rewrite length_seq.
Qed.

Lemma emptiesIn_ext s t j lo len :
  (forall r, (lo <= r < lo + len)%nat -> emptyAt s r j = emptyAt t r j) ->
  emptiesIn s j lo len = emptiesIn t j lo len.
Proof.
  revert lo. induction len as [|len IH]; intros lo He; [done|].
  replace (S len) with (1 + len)%nat by lia.
  rewrite !emptiesIn_app, !emptiesIn_one, He by lia.
  f_equal. apply IH. intros r Hr. apply He. lia.
Qed.

(** A column segment whose unoccupied cells are exactly its first [h]. *)
Lemma emptiesIn_top s j lo len h :
  (h <= len)%nat ->
  (forall r, (lo <= r < lo + len)%nat -> emptyAt s r j = true <-> (r < lo + h)%nat) ->
  emptiesIn s j lo len = h.
Proof.
  revert lo h. induction len as [|len IH]; intros lo h Hh He;
    [by assert (h = 0)%nat as -> by lia|].
  replace (S len) with (1 + len)%nat by lia.
  rewrite emptiesIn_app, emptiesIn_one.
  destruct (emptyAt s lo j) eqn:E.
  - apply He in E; [|lia]. rewrite (IH (lo + 1)%nat (h - 1)%nat); [lia|lia|].
    intros r Hr. rewrite He by lia. lia.
  - assert (h = 0)%nat as ->.
    { destruct h; [done|]. assert (emptyAt s lo j = true) by (apply He; lia). congruence. }
    rewrite (IH (lo + 1)%nat 0%nat); [lia|lia|].
    intros r Hr. rewrite He by lia. lia.
Qed.

Lemma holesBelow_emptiesIn opts s row col :
  holesBelow opts s row col
  = emptiesIn s col (row + 1) (gridSize opts - (row + 1)).
Proof. done. Qed.

Lemma holesInCol_emptiesIn opts s col :
  holesInCol opts s col = emptiesIn s col 0 (gridSize opts).
Proof. done. Qed.

(** *** Cell updates *)

Lemma square_setCell n i j t s :
  square n (tileArray s) -> square n (tileArray (setCell i j t s)).
Proof.
  intros [Hl Hr]. unfold setCell. simpl. split; [by rewrite length_insert|].
  destruct (decide (i < length (tileArray s))%nat) as [Hi|Hi].
  - apply Forall_insert; [done|]. rewrite length_insert.
    rewrite Forall_forall in Hr. apply Hr.
    apply list_elem_of_lookup_total_2. done.
  - rewrite list_insert_ge by lia. done.
Qed.

Lemma cell_setCell n i j t s r c :
  square n (tileArray s) -> (i < n)%nat -> (j < n)%nat ->
  cell (setCell i j t s) r c = if decide ((r, c) = (i, j)) then t else cell s r c.
Proof.
  intros [Hl Hr] Hi Hj. unfold cell, setCell. simpl.
  assert (Hrow : length (tileArray s !!! i) = n).
  { rewrite Forall_forall in Hr. apply Hr, list_elem_of_lookup_total_2. lia. }
  destruct (decide (r = i)) as [->|Hne].
  - rewrite list_lookup_total_insert_eq by lia.
    destruct (decide (c = j)) as [->|Hne].
    + rewrite list_lookup_total_insert_eq by lia. by rewrite decide_True.
    + rewrite list_lookup_total_insert_ne by done.
      rewrite decide_False by congruence. done.
  - rewrite list_lookup_total_insert_ne by done.
    rewrite decide_False by congruence. done.
Qed.

Lemma fallTile_same opts j s i :
  emptyAt s i j = true \/ holesBelow opts s i j = 0%nat ->
  fallTile opts j s i = s.
Proof.
  intros H. unfold fallTile. fold (emptyAt s i j).
  destruct (emptyAt s i j); [done|]. simpl.
  destruct H as [H|H]; [done|]. by rewrite H.
Qed.

Lemma fallTile_moved opts j s i :
  square (gridSize opts) (tileArray s) ->
  (i + holesBelow opts s i j < gridSize opts)%nat -> (j < gridSize opts)%nat ->
  emptyAt s i j = false -> (0 < holesBelow opts s i j)%nat ->
  (forall r c,
     cell (fallTile opts j s i) r c
     = if decide ((r, c) = (i, j)) then length (tiles s)
       else if decide ((r, c) = ((i + holesBelow opts s i j)%nat, j))
            then cell s i j else cell s r c)
  /\ tiles (fallTile opts j s i)
     = tiles s ++ [{| color := 0; tileSprite := length (sprites s); isEmpty := true |}]
  /\ square (gridSize opts) (tileArray (fallTile opts j s i)).
Proof.
  intros Hsq Hi Hj He Hh. unfold fallTile. fold (emptyAt s i j). rewrite He. simpl.
  replace (0 <? holesBelow opts s i j)%nat with true
    by (symmetry; apply Nat.ltb_lt; lia).
  set (h := holesBelow opts s i j) in *.
  set (s1 := setCell (i + h) j (cell s i j) s).
  assert (Hsq1 : square (gridSize opts) (tileArray s1)) by by apply square_setCell.
  split; [|split].
  - intros r c.
    match goal with |- cell (setCell i j ?t ?s4) r c = _ =>
      rewrite (cell_setCell (gridSize opts) i j t s4 r c) by (done || lia) end.
    case_decide; [done|].
    match goal with |- cell ?s4 r c = _ =>
      change (cell s4 r c) with (cell s1 r c) end.
    unfold s1. rewrite (cell_setCell (gridSize opts)) by (done || lia). done.
  - done.
  - by apply square_setCell.
Qed.

Section Column.

Variable opts : GameOptions.
Variable j : nat.
Variable s0 : Scene.
Hypothesis Hsq0 : square (gridSize opts) (tileArray s0).
Hypothesis Hrefs0 : refsOk (gridSize opts) s0.
Hypothesis Hj : (j < gridSize opts)%nat.

(** Unoccupied cells of the column from row [b] down, before the pass. *)
Definition holesFrom (b : nat) : nat := emptiesIn s0 j b (gridSize opts - b).

(** The state of the pass over column [j] when rows [b] and below are done. *)
Definition colInv (b : nat) (t : Scene) : Prop :=
  square (gridSize opts) (tileArray t) /\ refsOk (gridSize opts) t
  /\ (forall r, (r < b)%nat -> cell t r j = cell s0 r j)
  /\ (forall r, (b <= r < gridSize opts)%nat -> emptyAt s0 r j = false ->
        cell t (r + holesFrom (r + 1)) j = cell s0 r j)
  /\ (forall r, (b <= r < gridSize opts)%nat ->
        emptyAt t r j = true <-> (r < b + holesFrom b)%nat)
  /\ (forall l, (l < length (tiles s0))%nat -> tiles t !!! l = tiles s0 !!! l)
  /\ (length (tiles s0) <= length (tiles t))%nat
  /\ (forall r c, c <> j -> cell t r c = cell s0 r c).

Lemma holesFrom_step b :
  (b < gridSize opts)%nat ->
  holesFrom b = ((if emptyAt s0 b j then 1 else 0) + holesFrom (b + 1))%nat.
Proof.
  intros Hb. unfold holesFrom.
  replace (gridSize opts - b)%nat with (1 + (gridSize opts - (b + 1)))%nat by lia.
  by rewrite emptiesIn_app, emptiesIn_one.
Qed.

Lemma holesFrom_le b : (holesFrom b <= gridSize opts - b)%nat.
Proof. apply emptiesIn_le. Qed.

(** Tokens keep their order: a lower occupied cell lands strictly lower. *)
Lemma landing_mono b r :
  (b < r < gridSize opts)%nat -> emptyAt s0 r j = false ->
  (b + holesFrom (b + 1) < r + holesFrom (r + 1))%nat.
Proof.
  intros Hr He. unfold holesFrom.
  replace (gridSize opts - (b + 1))%nat
    with ((r - (b + 1)) + (1 + (gridSize opts - (r + 1))))%nat by lia.
  rewrite !emptiesIn_app, emptiesIn_one.
  replace (b + 1 + (r - (b + 1)))%nat with r by lia. rewrite He.
  replace (r + 1)%nat with (r + 1)%nat by done.
  assert (Hle := emptiesIn_le s0 j (b + 1) (r - (b + 1))). lia.
Qed.

Lemma colInv_init : (1 <= gridSize opts)%nat -> colInv (gridSize opts - 1) s0.
Proof.
  intros Hn. unfold colInv. split_and!; try done.
  - intros r Hr He. assert (r = gridSize opts - 1)%nat as -> by lia.
    unfold holesFrom.
    replace (gridSize opts - (gridSize opts - 1 + 1))%nat with 0%nat by lia.
    unfold emptiesIn. simpl. by rewrite Nat.add_0_r.
  - intros r Hr. assert (r = gridSize opts - 1)%nat as -> by lia.
    rewrite holesFrom_step by lia. unfold holesFrom at 1.
    replace (gridSize opts - (gridSize opts - 1 + 1))%nat with 0%nat by lia.
    unfold emptiesIn at 1. simpl.
    destruct (emptyAt s0 (gridSize opts - 1) j); split; (done || lia).
Qed.

Lemma colInv_step b t :
  (b + 1 < gridSize opts)%nat -> colInv (S b) t -> colInv b (fallTile opts j t b).
Proof.
  intros Hb (Hsq & Hrefs & Hup & Hland & Hemp & Hold & Hlen & Hoth).
  replace (S b) with (b + 1)%nat in Hemp by lia.
  assert (Hcb : cell t b j = cell s0 b j) by (apply Hup; lia).
  assert (Heb : emptyAt t b j = emptyAt s0 b j).
  { unfold emptyAt, tile. rewrite Hcb. f_equal. apply Hold, Hrefs0; lia. }
  assert (Hhb : holesBelow opts t b j = holesFrom (b + 1)).
  { rewrite holesBelow_emptiesIn. apply emptiesIn_top; [apply holesFrom_le|].
    intros r Hr. apply Hemp. lia. }
  assert (Hstep := holesFrom_step b ltac:(lia)).
  assert (Hle := holesFrom_le (b + 1)).
  destruct (emptyAt s0 b j) eqn:E0.
  { (* an unoccupied cell stays *)
    rewrite fallTile_same by (left; congruence).
    unfold colInv. split_and!; try done.
    - intros r Hr. apply Hup. lia.
    - intros r Hr He. destruct (decide (r = b)) as [->|?]; [congruence|].
      apply Hland; [lia|done].
    - intros r Hr. destruct (decide (r = b)) as [->|?].
      + rewrite Heb. split; [lia|done].
      + rewrite Hemp by lia. lia. }
  destruct (decide (holesFrom (b + 1) = 0)%nat) as [Hz|Hnz].
  { (* nothing below to fall into *)
    rewrite fallTile_same by (right; congruence).
    unfold colInv. split_and!; try done.
    - intros r Hr. apply Hup. lia.
    - intros r Hr He. destruct (decide (r = b)) as [->|?].
      + rewrite Hz, Nat.add_0_r. done.
      + apply Hland; [lia|done].
    - intros r Hr. destruct (decide (r = b)) as [->|?].
      + rewrite Heb. split; [done|lia].
      + rewrite Hemp by lia. lia. }
  (* the token falls by the number of holes below it *)
  destruct (fallTile_moved opts j t b Hsq) as (Hcell & Htiles & Hsq');
    [rewrite Hhb; lia|done|congruence|rewrite Hhb; lia|].
  rewrite Hhb in Hcell. set (t' := fallTile opts j t b) in *.
  set (h := holesFrom (b + 1)) in *.
  assert (Hframe : forall r c, cell t' r c = cell t r c ->
            (r < gridSize opts)%nat -> (c < gridSize opts)%nat ->
            emptyAt t' r c = emptyAt t r c).
  { intros r c Hc Hr Hc'. unfold emptyAt, tile. rewrite Hc, Htiles.
    rewrite lookup_total_app_l; [done|]. by apply Hrefs. }
  unfold colInv. split_and!.
  - done.
  - intros r c Hr Hc. rewrite Hcell, Htiles, length_app. simpl.
    repeat case_decide; [lia| |].
    + specialize (Hrefs b j). lia.
    + specialize (Hrefs r c). lia.
  - intros r Hr. rewrite Hcell.
    rewrite decide_False by (intros [=]; lia).
    rewrite decide_False by (intros [=]; lia). apply Hup. lia.
  - intros r Hr He. rewrite Hcell.
    destruct (decide (r = b)) as [->|Hne].
    + rewrite decide_False by (intros [=]; lia).
      rewrite decide_True by done. done.
    + assert (Hm := landing_mono b r ltac:(lia) He). fold h in Hm.
      rewrite decide_False by (intros [=]; lia).
      rewrite decide_False by (intros [=]; lia).
      apply Hland; [lia|done].
  - intros r Hr. rewrite Hstep.
    destruct (decide (r = b)) as [->|Hne].
    + unfold emptyAt, tile. rewrite Hcell, decide_True by done.
      rewrite Htiles, lookup_total_app_r by lia.
      rewrite Nat.sub_diag. simpl. split; [lia|done].
    + destruct (decide (r = b + h)%nat) as [->|Hne'].
      * unfold emptyAt, tile. rewrite Hcell.
        rewrite decide_False by (intros [=]; lia).
        rewrite decide_True by done.
        rewrite Htiles, lookup_total_app_l by (specialize (Hrefs b j); lia).
        fold (tile t (cell t b j)). fold (emptyAt t b j). rewrite Heb.
        split; [done|lia].
      * rewrite Hframe; [|rewrite Hcell|lia|done].
        -- rewrite Hemp by lia. fold h. lia.
        -- rewrite decide_False by (intros [=]; lia).
           by rewrite decide_False by (intros [=]; lia).
  - intros l Hl. rewrite Htiles, lookup_total_app_l by lia. by apply Hold.
  - rewrite Htiles, length_app. simpl. lia.
  - intros r c Hc. rewrite Hcell.
    rewrite decide_False by (intros [=]; lia).
    rewrite decide_False by (intros [=]; lia). by apply Hoth.
Qed.

Lemma colInv_run b t :
  (b < gridSize opts)%nat -> colInv b t ->
  colInv 0 (foldl (fallTile opts j) t (rev (seq 0 b))).
Proof.
  revert t. induction b as [|b IH]; intros t Hb Hinv; [done|].
  rewrite seq_S, rev_app_distr. simpl.
  apply IH; [lia|]. apply colInv_step; [lia|done].
Qed.

End Column.

Definition squareb {A} (n : nat) (m : list (list A)) : bool :=
  (length m =? n)%nat && forallb (fun row => (length row =? n)%nat) m.

Definition refsOkb (n : nat) (s : Scene) : bool :=
  forallb (fun r => forallb (fun c => (cell s r c <? length (tiles s))%nat) (seq 0 n))
          (seq 0 n).

Lemma squareb_sound {A} n (m : list (list A)) : squareb n m = true -> square n m.
Proof.
  unfold squareb, square. rewrite andb_true_iff, Nat.eqb_eq, forallb_forall.
  intros [Hl Hr]. split; [done|]. apply Forall_forall. intros row Hrow.
  apply Nat.eqb_eq, Hr. by apply list_elem_of_In.
Qed.

Lemma refsOkb_sound n s : refsOkb n s = true -> refsOk n s.
Proof.
  unfold refsOkb, refsOk. rewrite forallb_forall. intros H r c Hr Hc.
  specialize (H r). rewrite forallb_forall in H.
  apply Nat.ltb_lt, H; apply in_seq; lia.
Qed.

Section Compaction.

Variable opts : GameOptions.
Variable s : Scene.
Hypothesis Hsq : square (gridSize opts) (tileArray s).
Hypothesis Hrefs : refsOk (gridSize opts) s.

(** The state of [onAfterTilesDestroyed] when columns before [c] are done. *)
Definition passInv (c : nat) (t : Scene) : Prop :=
  square (gridSize opts) (tileArray t) /\ refsOk (gridSize opts) t
  /\ (forall l, (l < length (tiles s))%nat -> tiles t !!! l = tiles s !!! l)
  /\ (length (tiles s) <= length (tiles t))%nat
  /\ (forall r j, (c <= j)%nat -> cell t r j = cell s r j)
  /\ (forall r j, (j < c)%nat -> (r < gridSize opts)%nat -> emptyAt s r j = false ->
        cell t (r + holesBelow opts s r j) j = cell s r j)
  /\ (forall r j, (j < c)%nat -> (r < gridSize opts)%nat ->
        emptyAt t r j = true <-> (r < holesInCol opts s j)%nat).

Lemma passInv_step c t :
  (c < gridSize opts)%nat -> passInv c t ->
  passInv (S c) (foldl (fallTile opts c) t (rev (seq 0 (gridSize opts - 1)))).
Proof.
  intros Hc (Hsqt & Hrefst & Hold & Hlen & Huntouched & Hland & Hemp).
  destruct (colInv_run opts c t Hrefst Hc (gridSize opts - 1)%nat t)
    as (Hsq' & Hrefs' & _ & Hland' & Hemp' & Hold' & Hlen' & Hoth');
    [lia|apply colInv_init; (done || lia)|].
  set (t' := foldl _ t _) in *.
  assert (Hcol : forall r, (r < gridSize opts)%nat -> emptyAt t r c = emptyAt s r c).
  { intros r Hr. unfold emptyAt, tile. rewrite Huntouched by lia.
    f_equal. apply Hold, Hrefs; lia. }
  unfold passInv. split_and!; try done.
  - intros l Hl. rewrite Hold' by lia. by apply Hold.
  - lia.
  - intros r j Hj. rewrite Hoth' by lia. apply Huntouched. lia.
  - intros r j Hj Hr He. destruct (decide (j = c)) as [->|Hne].
    + rewrite <- (Huntouched r c) by lia.
      replace (holesBelow opts s r c) with (holesFrom opts c t (r + 1)).
      * apply Hland'; [lia|]. by rewrite Hcol.
      * rewrite holesBelow_emptiesIn. apply emptiesIn_ext.
        intros q Hq. apply Hcol. lia.
    + rewrite Hoth' by done. apply Hland; [lia|done..].
  - intros r j Hj Hr. destruct (decide (j = c)) as [->|Hne].
    + rewrite Hemp' by lia.
      replace (holesFrom opts c t 0) with (holesInCol opts s c); [done|].
      rewrite holesInCol_emptiesIn. unfold holesFrom. rewrite Nat.sub_0_r.
      symmetry. apply emptiesIn_ext. intros q Hq. apply Hcol. lia.
    + rewrite <- Hemp by (done || lia).
      unfold emptyAt, tile. rewrite Hoth' by done.
      rewrite Hold'; [done|]. apply Hrefst; lia.
Qed.

Lemma passInv_run c :
  (c <= gridSize opts)%nat ->
  passInv c (foldl (fun s j => foldl (fallTile opts j) s (rev (seq 0 (gridSize opts - 1))))
                   s (seq 0 c)).
Proof.
  induction c as [|c IH]; intros Hc.
  - unfold passInv. simpl. split_and!; try done; intros; lia.
  - rewrite seq_S, foldl_snoc. simpl. apply passInv_step; [lia|]. apply IH. lia.
Qed.

End Compaction.

(** C3. [onAfterTilesDestroyed] on a square grid: the tile object of every
    occupied cell ends, unchanged, exactly as many rows lower as there were
    unoccupied cells strictly below it in its column before the pass; after
    the pass the unoccupied cells of each column are exactly its top rows (as
    many as the column had holes), so the survivors fill the lowest rows; two
    survivors of a column keep their order and never land on the same cell;
    and each single move leaves an unoccupied cell at the position it moves
    from. *)
Theorem compaction_correct (opts : GameOptions) (s : Scene) :
  square (gridSize opts) (tileArray s) -> refsOk (gridSize opts) s ->
  let s' := onAfterTilesDestroyed opts s in
  (forall i j, (i < gridSize opts)%nat -> (j < gridSize opts)%nat ->
     emptyAt s i j = false ->
     cell s' (i + holesBelow opts s i j) j = cell s i j
     /\ tile s' (cell s i j) = tile s (cell s i j))
  /\ (forall i j, (i < gridSize opts)%nat -> (j < gridSize opts)%nat ->
        emptyAt s' i j = true <-> (i < holesInCol opts s j)%nat)
  /\ (forall i1 i2 j, (i1 < i2 < gridSize opts)%nat -> (j < gridSize opts)%nat ->
        emptyAt s i1 j = false -> emptyAt s i2 j = false ->
        (i1 + holesBelow opts s i1 j < i2 + holesBelow opts s i2 j)%nat)
  /\ (forall t i j, square (gridSize opts) (tileArray t) ->
        (i < gridSize opts)%nat -> (j < gridSize opts)%nat ->
        emptyAt t i j = false -> (0 < holesBelow opts t i j)%nat ->
        emptyAt (fallTile opts j t i) i j = true
        /\ cell (fallTile opts j t i) (i + holesBelow opts t i j) j = cell t i j).
Proof.
  intros Hsq Hrefs s'.
  destruct (passInv_run opts s Hsq Hrefs (gridSize opts))
    as (Hsq' & Hrefs' & Hold & Hlen & _ & Hland & Hemp); [lia|].
  fold (onAfterTilesDestroyed opts s) in *. fold s' in Hsq', Hrefs', Hold, Hlen, Hland, Hemp.
  split_and!.
  - intros i j Hi Hj He. split; [by apply Hland|].
    unfold tile. apply Hold, Hrefs; done.
  - intros i j Hi Hj. by apply Hemp.
  - intros i1 i2 j Hi Hj He1 He2. rewrite !holesBelow_emptiesIn.
    apply (landing_mono opts j s Hj i1 i2); [lia|done].
  - intros t i j Hsqt Hi Hj He Hh.
    assert (Hle := emptiesIn_le t j (i + 1) (gridSize opts - (i + 1))).
    rewrite <- holesBelow_emptiesIn in Hle.
    destruct (fallTile_moved opts j t i Hsqt) as (Hcell & Htiles & _);
      [lia|done..|].
    split.
    + unfold emptyAt, tile. rewrite Hcell, decide_True by done.
      rewrite Htiles, lookup_total_app_r by lia. by rewrite Nat.sub_diag.
    + rewrite Hcell. rewrite decide_False by (intros [=]; lia).
      by rewrite decide_True.
Qed.

(** A column of a 4 x 4 board that reads occupied, empty, occupied, empty
    from the top (column 0), beside columns with other patterns. *)
Definition gapBoard : Scene :=
  boardScene options4
    [[(1, false); (2, false); (3, false); (4, false)];
     [(0, true);  (3, false); (4, true);  (5, false)];
     [(2, false); (4, true);  (5, false); (1, false)];
     [(0, true);  (5, true);  (1, false); (2, false)]].

Lemma compaction_correct_witness :
  let s' := onAfterTilesDestroyed options4 gapBoard in
  (forall i j, (i < 4)%nat -> (j < 4)%nat ->
     emptyAt gapBoard i j = false ->
     cell s' (i + holesBelow options4 gapBoard i j) j = cell gapBoard i j
     /\ tile s' (cell gapBoard i j) = tile gapBoard (cell gapBoard i j))
  /\ (forall i j, (i < 4)%nat -> (j < 4)%nat ->
        emptyAt s' i j = true <-> (i < holesInCol options4 gapBoard j)%nat)
  /\ (forall i1 i2 j, (i1 < i2 < 4)%nat -> (j < 4)%nat ->
        emptyAt gapBoard i1 j = false -> emptyAt gapBoard i2 j = false ->
        (i1 + holesBelow options4 gapBoard i1 j
         < i2 + holesBelow options4 gapBoard i2 j)%nat)
  /\ (forall t i j, square 4 (tileArray t) ->
        (i < 4)%nat -> (j < 4)%nat ->
        emptyAt t i j = false -> (0 < holesBelow options4 t i j)%nat ->
        emptyAt (fallTile options4 j t i) i j = true
        /\ cell (fallTile options4 j t i) (i + holesBelow options4 t i j) j = cell t i j).
Proof.
  apply (compaction_correct options4 gapBoard).
  - apply squareb_sound. vm_compute. reflexivity.
  - apply refsOkb_sound. vm_compute. reflexivity.
Defined.

(** The column of the specification's example: occupied, empty, occupied,
    empty from the top becomes empty, empty, and the two survivors in their
    order. *)
Example compaction_example :
  let s' := onAfterTilesDestroyed options4 gapBoard in
  map (fun i => (colorAt gapBoard i 0, emptyAt gapBoard i 0)) (seq 0 4)
  = [(1, false); (0, true); (2, false); (0, true)]
  /\ map (fun i => (colorAt s' i 0, emptyAt s' i 0)) (seq 0 4)
     = [(0, true); (0, true); (1, false); (2, false)].
Proof. split; vm_compute; reflexivity. Qed.

(** ** Refill *)

(** Distinct cells hold distinct tile objects. *)
Definition refsDistinct (n : nat) (s : Scene) : Prop :=
  forall r c r' c', (r < n)%nat -> (c < n)%nat -> (r' < n)%nat -> (c' < n)%nat ->
    cell s r c = cell s r' c' -> r = r' /\ c = c'.

Definition refsDistinctb (n : nat) (s : Scene) : bool :=
  forallb (fun r => forallb (fun c => forallb (fun r' => forallb (fun c' =>
    implb (cell s r c =? cell s r' c')%nat ((r =? r')%nat && (c =? c')%nat))
    (seq 0 n)) (seq 0 n)) (seq 0 n)) (seq 0 n).

Lemma refsDistinctb_sound n s : refsDistinctb n s = true -> refsDistinct n s.
Proof.
  unfold refsDistinctb, refsDistinct. intros H r c r' c' Hr Hc Hr' Hc' Heq.
  rewrite forallb_forall in H. specialize (H r ltac:(apply in_seq; lia)).
  rewrite forallb_forall in H. specialize (H c ltac:(apply in_seq; lia)).
  rewrite forallb_forall in H. specialize (H r' ltac:(apply in_seq; lia)).
  rewrite forallb_forall in H. specialize (H c' ltac:(apply in_seq; lia)).
  rewrite Heq, Nat.eqb_refl in H. simpl in H.
  apply andb_true_iff in H as [H1 H2]. by apply Nat.eqb_eq in H1, H2.
Qed.

(** Holes in the columns before [c]: the running value of [totalEmptySpots]. *)
Definition holesBefore (opts : GameOptions) (s : Scene) (c : nat) : nat :=
  foldl (fun total j => (total + holesInCol opts s j)%nat) 0%nat (seq 0 c).

Lemma holesBefore_S opts s c :
  holesBefore opts s (S c) = (holesBefore opts s c + holesInCol opts s c)%nat.
Proof. unfold holesBefore. by rewrite seq_S, foldl_snoc. Qed.

Lemma holesBefore_mono opts s c c' :
  (c <= c')%nat -> (holesBefore opts s c <= holesBefore opts s c')%nat.
Proof.
  induction 1 as [|c' _ IH]; [done|]. rewrite holesBefore_S. lia.
Qed.

Lemma holesBefore_zero opts s c j :
  holesBefore opts s c = 0%nat -> (j < c)%nat -> holesInCol opts s j = 0%nat.
Proof.
  intros Hz Hj. assert (H := holesBefore_mono opts s (S j) c ltac:(lia)).
  rewrite holesBefore_S in H. lia.
Qed.

Section Refill.

Variable opts : GameOptions.
Variable rnd : nat -> Z.

Lemma replenishTile_spec replenished j emptySpots t i :
  (0 < length (poolArray t))%nat -> (cell t i j < length (tiles t))%nat ->
  let t' := replenishTile opts rnd replenished j emptySpots t i in
  tileArray t' = tileArray t
  /\ drawn t' = S (drawn t)
  /\ length (poolArray t') = (length (poolArray t) - 1)%nat
  /\ length (tiles t') = length (tiles t)
  /\ color (tiles t' !!! cell t i j) = rnd (drawn t)
  /\ isEmpty (tiles t' !!! cell t i j) = false
  /\ (forall l, l <> cell t i j -> tiles t' !!! l = tiles t !!! l)
  /\ canPick t' = canPick t /\ selectedTile t' = selectedTile t.
Proof.
  intros Hpool Href. unfold replenishTile. simpl.
  destruct (reverse (poolArray t)) as [|sp rest] eqn:Hrev.
  { apply (f_equal length) in Hrev. rewrite length_reverse in Hrev. simpl in Hrev. lia. }
  simpl. split_and!; try done.
  - rewrite length_reverse. apply (f_equal length) in Hrev.
    rewrite length_reverse in Hrev. simpl in Hrev. lia.
  - by rewrite length_insert.
  - unfold cell. simpl. by rewrite list_lookup_total_insert_eq.
  - unfold cell. simpl. by rewrite list_lookup_total_insert_eq.
  - intros l Hl. unfold cell. simpl. by rewrite list_lookup_total_insert_ne.
Qed.

Lemma refillColumn_spec replenished j h t0 k :
  refsOk (gridSize opts) t0 -> refsDistinct (gridSize opts) t0 ->
  (j < gridSize opts)%nat -> (k <= gridSize opts)%nat ->
  (k <= length (poolArray t0))%nat ->
  let t := foldl (replenishTile opts rnd replenished j h) t0 (seq 0 k) in
  tileArray t = tileArray t0
  /\ drawn t = (drawn t0 + k)%nat
  /\ length (poolArray t) = (length (poolArray t0) - k)%nat
  /\ length (tiles t) = length (tiles t0)
  /\ (forall i, (i < k)%nat ->
        color (tiles t !!! cell t0 i j) = rnd (drawn t0 + i)
        /\ isEmpty (tiles t !!! cell t0 i j) = false)
  /\ (forall l, (forall i, (i < k)%nat -> l <> cell t0 i j) ->
        tiles t !!! l = tiles t0 !!! l)
  /\ canPick t = canPick t0 /\ selectedTile t = selectedTile t0.
Proof.
  intros Hrefs Hdist Hj. induction k as [|k IH]; intros Hk Hpool.
  - simpl. split_and!; try done; (lia || intros; lia).
  - destruct IH as (Ha & Hd & Hp & Hl & Hnew & Hold & Hcp & Hsel); [lia..|].
    rewrite seq_S, foldl_snoc. simpl.
    set (t := foldl _ t0 (seq 0 k)) in *.
    assert (Hcell : forall r c, cell t r c = cell t0 r c)
      by (intros; unfold cell; by rewrite Ha).
    destruct (replenishTile_spec replenished j h t k)
      as (Ha' & Hd' & Hp' & Hl' & Hc' & He' & Hold' & Hcp' & Hsel').
    { lia. }
    { rewrite Hcell, Hl. apply Hrefs; lia. }
    rewrite Hcell in Hc', He', Hold'.
    split_and!; try congruence; try lia.
    + intros i Hi. destruct (decide (i = k)) as [->|Hne].
      * rewrite Hc', He', Hd. done.
      * rewrite Hold'; [apply Hnew; lia|].
        intros Heq. apply Hdist in Heq; lia.
    + intros l Hl0. rewrite Hold' by (apply Hl0; lia). apply Hold.
      intros i Hi. apply Hl0. lia.
Qed.

(** The state of the second loop of [replenishField] when the columns
    before [c] are done; [s] is the scene at the start of the loop. *)
Definition refillInv (s : Scene) (c : nat) (t : Scene) : Prop :=
  tileArray t = tileArray s
  /\ length (tiles t) = length (tiles s)
  /\ drawn t = (drawn s + holesBefore opts s c)%nat
  /\ length (poolArray t) = (length (poolArray s) - holesBefore opts s c)%nat
  /\ (forall i j, (j < c)%nat -> (i < holesInCol opts s j)%nat ->
        color (tiles t !!! cell s i j) = rnd (drawn s + holesBefore opts s j + i)
        /\ isEmpty (tiles t !!! cell s i j) = false)
  /\ (forall i j, (i < gridSize opts)%nat -> (j < gridSize opts)%nat ->
        (c <= j)%nat \/ (holesInCol opts s j <= i)%nat ->
        tiles t !!! cell s i j = tiles s !!! cell s i j)
  /\ canPick t = canPick s /\ selectedTile t = selectedTile s.

Lemma refillInv_run replenished s c :
  refsOk (gridSize opts) s -> refsDistinct (gridSize opts) s ->
  (c <= gridSize opts)%nat ->
  (holesBefore opts s (gridSize opts) <= length (poolArray s))%nat ->
  refillInv s c
    (foldl (fun s j =>
              let emptySpots := holesInCol opts s j in
              if (0 <? emptySpots)%nat
              then foldl (replenishTile opts rnd replenished j emptySpots) s (seq 0 emptySpots)
              else s)
           s (seq 0 c)).
Proof.
  intros Hrefs Hdist Hc Hpool. induction c as [|c IH].
  - unfold refillInv, holesBefore. simpl.
    split_and!; try done; try lia; try (intros; lia).
  - destruct IH as (Ha & Hl & Hd & Hp & Hnew & Hold & Hcp & Hsel); [lia|].
    rewrite seq_S, foldl_snoc. simpl.
    set (t := foldl _ s (seq 0 c)) in *.
    assert (Hcell : forall r q, cell t r q = cell s r q)
      by (intros; unfold cell; by rewrite Ha).
    assert (Hh : holesInCol opts t c = holesInCol opts s c).
    { rewrite !holesInCol_emptiesIn. apply emptiesIn_ext. intros r Hr.
      unfold emptyAt, tile. rewrite Hcell, Hold; [done|lia|lia|lia]. }
    rewrite Hh. set (h := holesInCol opts s c) in *.
    assert (Hhn : (h <= gridSize opts)%nat).
    { unfold h. rewrite holesInCol_emptiesIn. apply emptiesIn_le. }
    assert (HS := holesBefore_S opts s c). fold h in HS.
    assert (Hmono := holesBefore_mono opts s (S c) (gridSize opts) ltac:(lia)).
    replace (if (0 <? h)%nat
             then foldl (replenishTile opts rnd replenished c h) t (seq 0 h) else t)
      with (foldl (replenishTile opts rnd replenished c h) t (seq 0 h))
      by (destruct h; done).
    destruct (refillColumn_spec replenished c h t h)
      as (Ha' & Hd' & Hp' & Hl' & Hnew' & Hold' & Hcp' & Hsel').
    { intros r q Hr Hq. rewrite Hcell, Hl. by apply Hrefs. }
    { intros r q r' q' Hr Hq Hr' Hq'. rewrite !Hcell. by apply Hdist. }
    { lia. } { lia. } { lia. }
    unfold refillInv. split_and!; try congruence; try lia.
    + intros i j Hj Hi. destruct (decide (j = c)) as [->|Hne].
      * fold h in Hi. rewrite <- Hcell.
        destruct (Hnew' i Hi) as [H1 H2]. rewrite H1, H2, Hd.
        split; [f_equal; lia|done].
      * rewrite Hold'; [apply Hnew; lia|].
        intros i' Hi'. rewrite Hcell. intros Heq.
        assert (Hjn : (holesInCol opts s j <= gridSize opts)%nat)
          by (rewrite holesInCol_emptiesIn; apply emptiesIn_le).
        apply Hdist in Heq; lia.
    + intros i j Hi Hj Hor. rewrite Hold'; [apply Hold; lia|].
      intros i' Hi'. rewrite Hcell. intros Heq.
      apply Hdist in Heq; [|lia..]. destruct Heq as [-> ->]. fold h in Hor. lia.
Qed.

End Refill.

(** A column whose first [i + 1] cells are unoccupied has that many holes. *)
Lemma holes_prefix opts s i j :
  (i < gridSize opts)%nat ->
  (forall r, (r <= i)%nat -> emptyAt s r j = true) ->
  (i < holesInCol opts s j)%nat.
Proof.
  intros Hi He. rewrite holesInCol_emptiesIn.
  replace (gridSize opts) with ((i + 1) + (gridSize opts - (i + 1)))%nat by lia.
  rewrite emptiesIn_app.
  rewrite (emptiesIn_top s j 0 (i + 1) (i + 1)); [lia|lia|].
  intros r Hr. split; [lia|]. intros _. apply He. lia.
Qed.

(** C10. [replenishField] on a square grid of distinct tile objects, with at
    least as many pooled sprites as there are holes: the cells are not moved;
    in each column [j] exactly the topmost [holesInCol j] cells are recoloured
    (with the next random draws, in column order) and marked occupied, whether
    they were holes or not, and every cell below them keeps its tile as it
    was. Hence a grid whose unoccupied cells lie above every occupied cell of
    their column is fully occupied afterwards; in general a hole below the
    topmost [holesInCol j] rows stays a hole and an occupied cell among those
    rows is overwritten. *)
Theorem refill_correct (opts : GameOptions) (rnd : nat -> Z) (s : Scene) :
  square (gridSize opts) (tileArray s) ->
  refsOk (gridSize opts) s -> refsDistinct (gridSize opts) s ->
  (holesBefore opts s (gridSize opts) <= length (poolArray s))%nat ->
  let s' := replenishField opts rnd s in
  tileArray s' = tileArray s
  /\ (forall i j, (i < gridSize opts)%nat -> (j < gridSize opts)%nat ->
        (i < holesInCol opts s j)%nat ->
        emptyAt s' i j = false
        /\ colorAt s' i j = rnd (drawn s + holesBefore opts s j + i)%nat)
  /\ (forall i j, (i < gridSize opts)%nat -> (j < gridSize opts)%nat ->
        (holesInCol opts s j <= i)%nat ->
        tile s' (cell s' i j) = tile s (cell s i j))
  /\ ((forall i1 i2 j, (i1 < gridSize opts)%nat -> (i2 < gridSize opts)%nat ->
          (j < gridSize opts)%nat ->
          emptyAt s i1 j = true -> emptyAt s i2 j = false -> (i1 < i2)%nat) ->
       forall i j, (i < gridSize opts)%nat -> (j < gridSize opts)%nat ->
         emptyAt s' i j = false)
  /\ (forall i j, (i < gridSize opts)%nat -> (j < gridSize opts)%nat ->
        (holesInCol opts s j <= i)%nat -> emptyAt s i j = true ->
        emptyAt s' i j = true)
  /\ (forall i j, (i < gridSize opts)%nat -> (j < gridSize opts)%nat ->
        (i < holesInCol opts s j)%nat -> emptyAt s i j = false ->
        tile s' (cell s' i j)
        = {| color := rnd (drawn s + holesBefore opts s j + i)%nat;
             tileSprite := tileSprite (tile s' (cell s' i j));
             isEmpty := false |}).
Proof.
  intros Hsq Hrefs Hdist Hpool s'.
  assert (Hmain :
    tileArray s' = tileArray s
    /\ (forall i j, (i < gridSize opts)%nat -> (j < gridSize opts)%nat ->
          (i < holesInCol opts s j)%nat ->
          emptyAt s' i j = false
          /\ colorAt s' i j = rnd (drawn s + holesBefore opts s j + i)%nat)
    /\ (forall i j, (i < gridSize opts)%nat -> (j < gridSize opts)%nat ->
          (holesInCol opts s j <= i)%nat ->
          tile s' (cell s' i j) = tile s (cell s i j))).
  { unfold s', replenishField.
    set (sa := set_counters (counters s ++ [0]) s).
    change (foldl (fun total j => (total + holesInCol opts sa j)%nat) 0%nat
                  (seq 0 (gridSize opts)))
      with (holesBefore opts s (gridSize opts)).
    destruct (Nat.eqb_spec (holesBefore opts s (gridSize opts)) 0) as [Hz|Hnz].
    - split; [done|]. split; [|done].
      intros i j Hi Hj Hh. rewrite (holesBefore_zero opts s _ j Hz) in Hh; lia.
    - destruct (refillInv_run opts rnd (length (counters s)) sa (gridSize opts))
        as (Ha & Hl & Hd & Hp & Hnew & Hold & _); [done..|].
      set (t := foldl _ sa _) in *.
      assert (Hcell : forall r q, cell t r q = cell s r q)
        by (intros; unfold cell; by rewrite Ha).
      split; [done|]. split.
      + intros i j Hi Hj Hh. unfold emptyAt, colorAt, tile. rewrite Hcell.
        destruct (Hnew i j Hj Hh) as [H1 H2]. done.
      + intros i j Hi Hj Hh. unfold tile. rewrite Hcell. apply Hold; [done..|].
        by right. }
  destruct Hmain as (Ha & Hnew & Hold).
  split; [done|]. split; [done|]. split; [done|]. split_and!.
  - intros Hcompact i j Hi Hj.
    destruct (decide (i < holesInCol opts s j)%nat) as [Hlt|Hge].
    + by apply Hnew.
    + unfold emptyAt. rewrite Hold by (done || lia). fold (emptyAt s i j).
      apply not_true_iff_false. intros He. apply Hge.
      apply holes_prefix; [done|]. intros r Hr.
      apply not_false_iff_true. intros Hocc.
      assert (i < r)%nat by (apply (Hcompact i r j); (done || lia)). lia.
  - intros i j Hi Hj Hh He. unfold emptyAt. by rewrite Hold.
  - intros i j Hi Hj Hh He. destruct (Hnew i j Hi Hj Hh) as [H1 H2].
    unfold emptyAt, colorAt in H1, H2.
    destruct (tile s' (cell s' i j)) as [c sp e]. simpl in *. congruence.
Qed.

(** [k] fresh sprites in the pool. *)
Definition withPool (k : nat) (s : Scene) : Scene :=
  set_poolArray (seq (length (sprites s)) k)
    (set_sprites (sprites s ++ replicate k (Sprite.mk 0 0)) s).

(** The draws 0, 1, 2, 3, 4, 5, 0, 1, ... *)
Definition cycle (k : nat) : Z := Z.of_nat k mod 6.

Lemma refill_correct_witness :
  let s := withPool 6 gapBoard in
  let s' := replenishField options4 cycle s in
  tileArray s' = tileArray s
  /\ (forall i j, (i < 4)%nat -> (j < 4)%nat ->
        (i < holesInCol options4 s j)%nat ->
        emptyAt s' i j = false
        /\ colorAt s' i j = cycle (drawn s + holesBefore options4 s j + i)%nat)
  /\ (forall i j, (i < 4)%nat -> (j < 4)%nat ->
        (holesInCol options4 s j <= i)%nat ->
        tile s' (cell s' i j) = tile s (cell s i j))
  /\ ((forall i1 i2 j, (i1 < 4)%nat -> (i2 < 4)%nat -> (j < 4)%nat ->
          emptyAt s i1 j = true -> emptyAt s i2 j = false -> (i1 < i2)%nat) ->
       forall i j, (i < 4)%nat -> (j < 4)%nat -> emptyAt s' i j = false)
  /\ (forall i j, (i < 4)%nat -> (j < 4)%nat ->
        (holesInCol options4 s j <= i)%nat -> emptyAt s i j = true ->
        emptyAt s' i j = true)
  /\ (forall i j, (i < 4)%nat -> (j < 4)%nat ->
        (i < holesInCol options4 s j)%nat -> emptyAt s i j = false ->
        tile s' (cell s' i j)
        = {| color := cycle (drawn s + holesBefore options4 s j + i)%nat;
             tileSprite := tileSprite (tile s' (cell s' i j));
             isEmpty := false |}).
Proof.
  apply (refill_correct options4 cycle (withPool 6 gapBoard)).
  - apply squareb_sound. vm_compute. reflexivity.
  - apply refsOkb_sound. vm_compute. reflexivity.
  - apply refsDistinctb_sound. vm_compute. reflexivity.
  - vm_compute. lia.
Defined.

(** On [gapBoard], whose holes are not all on top, column 0 (occupied, empty,
    occupied, empty) has its two top cells refilled: the occupied cell (0,0)
    is overwritten and the hole at (3,0) survives. After compaction the same
    refill leaves no hole. *)
Example refill_example :
  let s' := replenishField options4 cycle (withPool 6 gapBoard) in
  let t' := replenishField options4 cycle
              (withPool 6 (onAfterTilesDestroyed options4 gapBoard)) in
  map (fun i => (colorAt s' i 0, emptyAt s' i 0)) (seq 0 4)
  = [(0, false); (1, false); (2, false); (0, true)]
  /\ map (fun i => map (emptyAt t' i) (seq 0 4)) (seq 0 4)
     = replicate 4 (replicate 4 false).
Proof. split; vm_compute; reflexivity. Qed.

(** ** Swap and revert *)

(** A scene at rest: a square grid of distinct, allocated tile objects, each
    with an allocated sprite that sits on the cell of its tile, and no
    pending tween or timer. *)
Definition resting (opts : GameOptions) (s : Scene) : bool :=
  squareb (gridSize opts) (tileArray s)
  && refsOkb (gridSize opts) s
  && refsDistinctb (gridSize opts) s
  && forallb (fun ij : nat * nat =>
                (getTileRow opts s (cell s ij.1 ij.2) =? Z.of_nat ij.1)
                && (getTileCol opts s (cell s ij.1 ij.2) =? Z.of_nat ij.2)
                && (tileSprite (tile s (cell s ij.1 ij.2)) <? length (sprites s))%nat)
             (cells opts)
  && match tweens s with [] => true | _ => false end.

Lemma resting_sound opts s :
  resting opts s = true ->
  square (gridSize opts) (tileArray s)
  /\ refsOk (gridSize opts) s
  /\ refsDistinct (gridSize opts) s
  /\ (forall i j, (i < gridSize opts)%nat -> (j < gridSize opts)%nat ->
        getTileRow opts s (cell s i j) = Z.of_nat i
        /\ getTileCol opts s (cell s i j) = Z.of_nat j
        /\ (tileSprite (tile s (cell s i j)) < length (sprites s))%nat)
  /\ tweens s = [].
Proof.
  unfold resting. rewrite !andb_true_iff.
  intros [[[[H1 H2] H3] H4] H5]. split_and!.
  - by apply squareb_sound.
  - by apply refsOkb_sound.
  - by apply refsDistinctb_sound.
  - intros i j Hi Hj. rewrite forallb_forall in H4.
    specialize (H4 (i, j)). simpl in H4.
    rewrite !andb_true_iff, !Z.eqb_eq, Nat.ltb_lt in H4.
    destruct H4 as [[? ?] ?]; [|done].
    apply list_elem_of_In, elem_of_cells. done.
  - by destruct (tweens s).
Qed.

Lemma floor_center opts k :
  (0 < tileSize opts)%Q -> Qfloor (center opts k / tileSize opts) = k.
Proof.
  intros Hts. unfold center.
  assert (E : ((inject_Z k * tileSize opts + tileSize opts / 2) / tileSize opts
               == inject_Z k + (1 # 2))%Q) by (field; lra).
  rewrite E.
  assert (L := Qfloor_le (inject_Z k + (1 # 2))).
  assert (U := Qlt_floor (inject_Z k + (1 # 2))).
  set (f := Qfloor _) in *. clearbody f.
  rewrite inject_Z_plus in U. change (inject_Z 1) with 1%Q in U.
  assert (H1 : (inject_Z f < inject_Z (k + 1))%Q)
    by (rewrite inject_Z_plus; change (inject_Z 1) with 1%Q; lra).
  assert (H2 : (inject_Z k < inject_Z (f + 1))%Q)
    by (rewrite inject_Z_plus; change (inject_Z 1) with 1%Q; lra).
  rewrite <- Zlt_Qlt in H1, H2. lia.
Qed.

Lemma arrayAt_inside n s i j :
  square n (tileArray s) -> (i < n)%nat -> (j < n)%nat ->
  arrayAt s (Z.of_nat i) (Z.of_nat j) = Some (cell s i j).
Proof.
  intros Hsq Hi Hj. unfold arrayAt, cell.
  destruct (square_lookup _ _ i j Hsq Hi Hj) as [H1 H2].
  replace (_ || _) with false by (symmetry; rewrite orb_false_iff; split; lia).
  rewrite !Nat2Z.id, H1. simpl. by rewrite H2.
Qed.

Section Swap.

Variable opts : GameOptions.

(** What [swapTiles] leaves behind when both tiles sit on cells of the grid. *)
Definition swapped (s : Scene) (tile1 tile2 : nat) (r1 c1 r2 c2 : nat)
    (swapBack : bool) : Scene :=
  let t1 := tile s tile1 in
  let t2 := tile s tile2 in
  {| canPick := false; dragging := dragging s; tileArray := tileArray s;
     poolArray := poolArray s; selectedTile := selectedTile s;
     swappingTiles := 2; removeMap := removeMap s;
     tiles := <[tile2 := {| color := color t1; tileSprite := tileSprite t1;
                            isEmpty := isEmpty t2 |}]>
              (<[tile1 := {| color := color t2; tileSprite := tileSprite t2;
                             isEmpty := isEmpty t1 |}]> (tiles s));
     sprites := sprites s; counters := counters s;
     tweens := (tweens s
                ++ [{| due := now s + swapSpeed opts;
                       targets := Some (tileSprite t1);
                       toX := Some (center opts (Z.of_nat c2));
                       toY := Some (center opts (Z.of_nat r2));
                       onComplete := onSwapComplete tile1 tile2 swapBack |}])
               ++ [{| due := now s + swapSpeed opts;
                      targets := Some (tileSprite t2);
                      toX := Some (center opts (Z.of_nat c1));
                      toY := Some (center opts (Z.of_nat r1));
                      onComplete := onSwapComplete tile2 tile1 swapBack |}];
     now := now s; drawn := drawn s; console := console s |}.

Lemma swapTiles_spec s tile1 tile2 r1 c1 r2 c2 swapBack :
  square (gridSize opts) (tileArray s) ->
  (r1 < gridSize opts)%nat -> (c1 < gridSize opts)%nat ->
  (r2 < gridSize opts)%nat -> (c2 < gridSize opts)%nat ->
  cell s r1 c1 = tile1 -> cell s r2 c2 = tile2 -> tile1 <> tile2 ->
  (tile1 < length (tiles s))%nat -> (tile2 < length (tiles s))%nat ->
  getTileRow opts s tile1 = Z.of_nat r1 -> getTileCol opts s tile1 = Z.of_nat c1 ->
  getTileRow opts s tile2 = Z.of_nat r2 -> getTileCol opts s tile2 = Z.of_nat c2 ->
  swapTiles opts s tile1 tile2 swapBack
  = Done (swapped s tile1 tile2 r1 c1 r2 c2 swapBack).
Proof.
  intros Hsq Hr1 Hc1 Hr2 Hc2 Hl1 Hl2 Hne Hv1 Hv2 HR1 HC1 HR2 HC2.
  assert (Ha1 : forall s', tileArray s' = tileArray s ->
            arrayAt s' (Z.of_nat r1) (Z.of_nat c1) = Some tile1).
  { intros s' E. rewrite (arrayAt_inside (gridSize opts)) by (by rewrite ?E).
    unfold cell. rewrite E. exact (f_equal Some Hl1). }
  assert (Ha2 : forall s', tileArray s' = tileArray s ->
            arrayAt s' (Z.of_nat r2) (Z.of_nat c2) = Some tile2).
  { intros s' E. rewrite (arrayAt_inside (gridSize opts)) by (by rewrite ?E).
    unfold cell. rewrite E. exact (f_equal Some Hl2). }
  unfold swapTiles.
  change (getTileRow opts (set_canPick false (set_swappingTiles 2 s)) tile1)
    with (getTileRow opts s tile1).
  change (getTileCol opts (set_canPick false (set_swappingTiles 2 s)) tile1)
    with (getTileCol opts s tile1).
  change (getTileRow opts (set_canPick false (set_swappingTiles 2 s)) tile2)
    with (getTileRow opts s tile2).
  change (getTileCol opts (set_canPick false (set_swappingTiles 2 s)) tile2)
    with (getTileCol opts s tile2).
  rewrite HR1, HC1, HR2, HC2.
  rewrite Ha1 by done. rewrite Ha2 by done.
  unfold tweenTile.
  (* the first tween: tile1 now carries the sprite of tile2 *)
  match goal with |- context [getTileRow opts ?s' tile1] =>
    replace (getTileRow opts s' tile1) with (Z.of_nat r2);
    [replace (getTileCol opts s' tile1) with (Z.of_nat c2)|] end.
  2:{ rewrite <- HC2. unfold getTileCol, sprite, tile, setTile. simpl.
      rewrite list_lookup_total_insert_ne by done.
      by rewrite list_lookup_total_insert_eq. }
  2:{ rewrite <- HR2. unfold getTileRow, sprite, tile, setTile. simpl.
      rewrite list_lookup_total_insert_ne by done.
      by rewrite list_lookup_total_insert_eq. }
  rewrite Ha2 by done. simpl.
  (* the second tween: tile2 now carries the sprite of tile1 *)
  match goal with |- context [getTileRow opts ?s' tile2] =>
    replace (getTileRow opts s' tile2) with (Z.of_nat r1);
    [replace (getTileCol opts s' tile2) with (Z.of_nat c1)|] end.
  2:{ rewrite <- HC1. unfold getTileCol, sprite, tile, setTile. simpl.
      rewrite list_lookup_total_insert_eq by (rewrite length_insert; lia). done. }
  2:{ rewrite <- HR1. unfold getTileRow, sprite, tile, setTile. simpl.
      rewrite list_lookup_total_insert_eq by (rewrite length_insert; lia). done. }
  rewrite Ha1 by done. simpl.
  unfold swapped, addTween, setTile, tile.
  unfold set_tweens, set_tiles, set_canPick, set_swappingTiles. simpl.
  repeat first
    [ rewrite list_lookup_total_insert_eq by (rewrite ?length_insert; lia)
    | rewrite list_lookup_total_insert_ne by done ].
  simpl. reflexivity.
Qed.

End Swap.

Section Revert.

Variable opts : GameOptions.
Variable rnd : nat -> Z.

Lemma firstDue_head tw rest :
  Forall (fun tw' => due tw <= due tw') rest ->
  firstDue (tw :: rest) = Some (0%nat, due tw).
Proof.
  intros Hall. simpl. destruct (firstDue rest) as [[k d]|] eqn:Hf; [|done].
  assert (Hd : due tw <= d).
  { clear -Hall Hf. revert k d Hf. induction Hall as [|tw' rest Hle _ IH]; [done|].
    intros k d. simpl. destruct (firstDue rest) as [[k' d']|].
    - destruct (Z.ltb_spec d' (due tw')); intros [= <- <-]; [by eapply IH|done].
    - by intros [= <- <-]. }
  by rewrite (proj2 (Z.ltb_ge _ _) Hd).
Qed.

(** The completion of the tween at the head of the list, when none is due
    earlier. *)
Lemma step_complete_head s tw rest :
  tweens s = tw :: rest ->
  Forall (fun tw' => due tw <= due tw') rest ->
  step opts rnd s complete
  = Some (sceneOf (runCallback opts rnd (onComplete tw)
            (finishTween tw (set_tweens rest (set_now (Z.max (now s) (due tw)) s))))).
Proof.
  intros Htw Hall. unfold step. rewrite Htw, firstDue_head by done. simpl.
  by rewrite Htw.
Qed.

Lemma tile_eta (t : Tile) :
  {| color := color t; tileSprite := tileSprite t; isEmpty := isEmpty t |} = t.
Proof. by destruct t. Qed.

(** Writing the two payloads back restores the tile store. *)
Lemma tiles_restored (l : list Tile) l1 l2 x y :
  l1 <> l2 -> (l1 < length l)%nat -> (l2 < length l)%nat ->
  <[l1 := l !!! l1]> (<[l2 := l !!! l2]> (<[l2 := x]> (<[l1 := y]> l))) = l.
Proof.
  intros Hne H1 H2.
  rewrite list_insert_insert_eq.
  rewrite (list_insert_insert_ne _ l2 l1) by done.
  rewrite list_insert_insert_eq.
  rewrite (list_insert_id l l2) by (by apply list_lookup_lookup_total_lt).
  by rewrite list_insert_id by (by apply list_lookup_lookup_total_lt).
Qed.

End Revert.

(** C4. From a scene at rest with a settled grid, swapping the tiles of two
    adjacent cells (the first [swapTiles] call, with [swapBack = true]) when
    the swap produces no match: the swap exchanges the two colours; when the
    two swap tweens have completed, the second [swapTiles] call (with
    [swapBack = false]) has run and the colour at every coordinate is the one
    before the swap; when its two tweens have completed too, picking is
    enabled again, nothing is pending, and the colours are still those. *)
Theorem swap_then_revert (opts : GameOptions) (rnd : nat -> Z) (s : Scene)
    (r1 c1 r2 c2 : nat) :
  (0 < tileSize opts)%Q ->
  resting opts s = true ->
  (r1 < gridSize opts)%nat -> (c1 < gridSize opts)%nat ->
  (r2 < gridSize opts)%nat -> (c2 < gridSize opts)%nat ->
  areNext opts s (cell s r1 c1) (cell s r2 c2) = true ->
  matchInBoard opts s = false ->
  let tile1 := cell s r1 c1 in
  let tile2 := cell s r2 c2 in
  let s1 := sceneOf (swapTiles opts s tile1 tile2 true) in
  matchInBoard opts s1 = false ->
  colorAt s1 r1 c1 = colorAt s r2 c2
  /\ colorAt s1 r2 c2 = colorAt s r1 c1
  /\ exists s3 s5,
       run opts rnd s1 [complete; complete] = Some s3
       /\ map onComplete (tweens s3)
          = [onSwapComplete tile2 tile1 false; onSwapComplete tile1 tile2 false]
       /\ colorsOf s3 = colorsOf s
       /\ run opts rnd s3 [complete; complete] = Some s5
       /\ colorsOf s5 = colorsOf s
       /\ canPick s5 = true /\ selectedTile s5 = None /\ tweens s5 = [].
Proof.
  intros Hts Hrest Hr1 Hc1 Hr2 Hc2 Hnext Hsettled tile1 tile2 s1 Hnomatch.
  destruct (resting_sound opts s Hrest) as (Hsq & Hrefs & Hdist & Hpos & Htw).
  destruct (Hpos r1 c1 Hr1 Hc1) as (HR1 & HC1 & HS1).
  destruct (Hpos r2 c2 Hr2 Hc2) as (HR2 & HC2 & HS2).
  fold tile1 in HR1, HC1, HS1. fold tile2 in HR2, HC2, HS2.
  assert (Hcells : (r1, c1) <> (r2, c2)).
  { intros [= <- <-]. unfold areNext in Hnext. fold tile1 in Hnext.
    rewrite !Z.sub_diag in Hnext. done. }
  assert (Hne : tile1 <> tile2).
  { intros Heq. apply Hdist in Heq; [|done..]. destruct Heq. congruence. }
  assert (Hv1 : (tile1 < length (tiles s))%nat) by by apply Hrefs.
  assert (Hv2 : (tile2 < length (tiles s))%nat) by by apply Hrefs.
  set (pA := tileSprite (tile s tile1)) in *.
  set (pB := tileSprite (tile s tile2)) in *.
  assert (Hsp : pA <> pB).
  { intros Heq. apply Hcells.
    unfold getTileRow, getTileCol in HR1, HC1, HR2, HC2.
    fold pA in HR1, HC1. fold pB in HR2, HC2. rewrite Heq in HR1, HC1.
    f_equal; lia. }
  (* the swap *)
  assert (Hs1 : s1 = swapped opts s tile1 tile2 r1 c1 r2 c2 true).
  { unfold s1. by rewrite (swapTiles_spec opts s tile1 tile2 r1 c1 r2 c2). }
  clearbody s1. subst s1.
  split; [|split].
  { unfold colorAt, cell, tile, swapped. simpl. fold (cell s r1 c1). fold tile1.
    rewrite list_lookup_total_insert_ne by congruence.
    by rewrite list_lookup_total_insert_eq. }
  { unfold colorAt, cell, tile, swapped. simpl. fold (cell s r2 c2). fold tile2.
    by rewrite list_lookup_total_insert_eq by (rewrite length_insert; lia). }
  (* first completion: the sprite of tile1 reaches cell 2 *)
  set (s1 := swapped opts s tile1 tile2 r1 c1 r2 c2 true) in *.
  assert (Hstep1 : exists s2, step opts rnd s1 complete = Some s2
    /\ tileArray s2 = tileArray s /\ tiles s2 = tiles s1
    /\ sprites s2 = <[pA := Sprite.mk (center opts (Z.of_nat c2))
                                      (center opts (Z.of_nat r2))]> (sprites s)
    /\ swappingTiles s2 = 1
    /\ tweens s2 = [{| due := now s + swapSpeed opts; targets := Some pB;
                       toX := Some (center opts (Z.of_nat c1));
                       toY := Some (center opts (Z.of_nat r1));
                       onComplete := onSwapComplete tile2 tile1 true |}]).
  { eexists. split.
    - eapply step_complete_head.
      + unfold s1, swapped. simpl. rewrite Htw. reflexivity.
      + apply Forall_singleton. simpl. lia.
    - simpl. unfold swapComplete. simpl. done. }
  destruct Hstep1 as (s2 & Hstep1 & Ha2 & Ht2 & Hp2 & Hc2' & Hw2).
  (* second completion: the sprite of tile2 reaches cell 1, no match: revert *)
  set (s2' := finishTween
                {| due := now s + swapSpeed opts; targets := Some pB;
                   toX := Some (center opts (Z.of_nat c1));
                   toY := Some (center opts (Z.of_nat r1));
                   onComplete := onSwapComplete tile2 tile1 true |}
                (set_tweens [] (set_now (Z.max (now s2) (now s + swapSpeed opts)) s2))).
  set (s2'' := set_swappingTiles 0 s2').
  assert (Hm2 : matchInBoard opts s2'' = false).
  { rewrite <- Hnomatch. unfold matchInBoard, isMatch, isHorizontalMatch,
      isVerticalMatch, sameColors, tileAt, tile. simpl.
    by rewrite Ha2, Ht2. }
  assert (Hsprites2 : sprites s2''
    = <[pB := Sprite.mk (center opts (Z.of_nat c1)) (center opts (Z.of_nat r1))]>
        (<[pA := Sprite.mk (center opts (Z.of_nat c2)) (center opts (Z.of_nat r2))]>
           (sprites s))).
  { unfold s2'', s2', finishTween. simpl. by rewrite Hp2. }
  assert (Htiles2 : tiles s2'' = tiles s1) by done.
  assert (Harr2 : tileArray s2'' = tileArray s) by done.
  assert (Hti1 : tile s2'' tile1
    = {| color := color (tile s tile2); tileSprite := pB;
         isEmpty := isEmpty (tile s tile1) |}).
  { unfold tile at 1. rewrite Htiles2. unfold s1, swapped. cbn [tiles].
    rewrite list_lookup_total_insert_ne by congruence.
    by rewrite list_lookup_total_insert_eq. }
  assert (Hti2 : tile s2'' tile2
    = {| color := color (tile s tile1); tileSprite := pA;
         isEmpty := isEmpty (tile s tile2) |}).
  { unfold tile at 1. rewrite Htiles2. unfold s1, swapped. cbn [tiles].
    by rewrite list_lookup_total_insert_eq by (rewrite length_insert; lia). }
  assert (HspA : sprite s2'' pA
    = Sprite.mk (center opts (Z.of_nat c2)) (center opts (Z.of_nat r2))).
  { unfold sprite. rewrite Hsprites2.
    rewrite list_lookup_total_insert_ne by congruence.
    by rewrite list_lookup_total_insert_eq. }
  assert (HspB : sprite s2'' pB
    = Sprite.mk (center opts (Z.of_nat c1)) (center opts (Z.of_nat r1))).
  { unfold sprite. rewrite Hsprites2.
    by rewrite list_lookup_total_insert_eq by (rewrite length_insert; lia). }
  assert (Hstep2 : step opts rnd s2 complete
                   = Some (swapped opts s2'' tile2 tile1 r2 c2 r1 c1 false)).
  { rewrite (step_complete_head opts rnd s2 _ [] Hw2) by done. simpl.
    fold s2'. unfold swapComplete.
    replace (swappingTiles s2') with 1 by (symmetry; exact Hc2').
    change (1 - 1) with 0. fold s2''.
    change (swappingTiles s2'' =? 0) with true. cbv iota.
    rewrite Hm2. simpl.
    rewrite (swapTiles_spec opts s2'' tile2 tile1 r2 c2 r1 c1); try done.
    - by rewrite Harr2.
    - unfold cell. by rewrite Harr2.
    - unfold cell. by rewrite Harr2.
    - rewrite Htiles2. unfold s1, swapped. simpl. by rewrite !length_insert.
    - rewrite Htiles2. unfold s1, swapped. simpl. by rewrite !length_insert.
    - unfold getTileRow. rewrite Hti2. cbn [tileSprite]. rewrite HspA.
      by apply floor_center.
    - unfold getTileCol. rewrite Hti2. cbn [tileSprite]. rewrite HspA.
      by apply floor_center.
    - unfold getTileRow. rewrite Hti1. cbn [tileSprite]. rewrite HspB.
      by apply floor_center.
    - unfold getTileCol. rewrite Hti1. cbn [tileSprite]. rewrite HspB.
      by apply floor_center. }
  set (s3 := swapped opts s2'' tile2 tile1 r2 c2 r1 c1 false) in *.
  assert (Htiles3 : tiles s3 = tiles s).
  { unfold s3, swapped. cbn [tiles]. rewrite Hti1, Hti2. cbn [color tileSprite isEmpty].
    fold pA. fold pB. rewrite Htiles2. unfold s1, swapped. cbn [tiles].
    fold pA. fold pB.
    replace {| color := color (tile s tile1); tileSprite := pA;
               isEmpty := isEmpty (tile s tile1) |} with (tiles s !!! tile1)
      by (symmetry; apply tile_eta).
    replace {| color := color (tile s tile2); tileSprite := pB;
               isEmpty := isEmpty (tile s tile2) |} with (tiles s !!! tile2)
      by (symmetry; apply tile_eta).
    apply tiles_restored; done. }
  assert (Hcolors3 : colorsOf s3 = colorsOf s).
  { unfold colorsOf, tile. rewrite Htiles3.
    change (tileArray s3) with (tileArray s2''). by rewrite Harr2. }
  exists s3.
  (* the two tweens of the revert *)
  assert (Hw3 : exists w3 w4, tweens s3 = [w3; w4] /\ due w3 = due w4
            /\ onComplete w3 = onSwapComplete tile2 tile1 false
            /\ onComplete w4 = onSwapComplete tile1 tile2 false).
  { eexists _, _. split; [|split; [|split]].
    - unfold s3, swapped. simpl. reflexivity.
    - done.
    - done.
    - done. }
  destruct Hw3 as (w3 & w4 & Hw3 & Hdue & Hcb3 & Hcb4).
  assert (Hc3 : swappingTiles s3 = 2) by done.
  set (s4 := finishTween w3 (set_tweens [w4] (set_now (Z.max (now s3) (due w3)) s3))).
  assert (Hstep3 : step opts rnd s3 complete = Some (set_swappingTiles 1 s4)).
  { rewrite (step_complete_head opts rnd s3 w3 [w4] Hw3) by (apply Forall_singleton; lia).
    rewrite Hcb3. fold s4. cbn [runCallback]. unfold swapComplete.
    replace (swappingTiles s4) with 2 by (unfold s4, finishTween; by destruct (targets w3)).
    done. }
  set (s4' := set_swappingTiles 1 s4) in *.
  assert (Hw4 : tweens s4' = [w4]).
  { unfold s4', s4, finishTween. by destruct (targets w3). }
  set (s5 := finishTween w4 (set_tweens [] (set_now (Z.max (now s4') (due w4)) s4'))).
  assert (Htiles5 : tiles s5 = tiles s /\ tileArray s5 = tileArray s
                    /\ swappingTiles s5 = 1 /\ tweens s5 = []).
  { assert (Harr3 : tileArray s3 = tileArray s) by exact Harr2.
    unfold s5, s4', s4, finishTween.
    destruct (targets w4), (targets w3);
      (split_and!; [exact Htiles3|exact Harr3|reflexivity|reflexivity]). }
  destruct Htiles5 as (Htiles5 & Harr5 & Hc5 & Hw5).
  assert (Hm5 : matchInBoard opts (set_swappingTiles 0 s5) = false).
  { rewrite <- Hsettled. unfold matchInBoard, isMatch, isHorizontalMatch,
      isVerticalMatch, sameColors, tileAt, tile. simpl.
    by rewrite Htiles5, Harr5. }
  assert (Hstep4 : step opts rnd s4' complete
    = Some (set_selectedTile None (set_canPick true (set_swappingTiles 0 s5)))).
  { rewrite (step_complete_head opts rnd s4' w4 [] Hw4) by done.
    rewrite Hcb4. fold s5. cbn [runCallback]. unfold swapComplete. rewrite Hc5.
    change (1 - 1) with 0.
    change (swappingTiles (set_swappingTiles 0 s5) =? 0) with true. cbv iota.
    rewrite Hm5. done. }
  eexists. split_and!.
  - change (run opts rnd s1 [complete; complete])
      with (step opts rnd s1 complete ≫= (fun s' => step opts rnd s' complete)).
    rewrite Hstep1. exact Hstep2.
  - rewrite Hw3. simpl. by rewrite Hcb3, Hcb4.
  - done.
  - change (run opts rnd s3 [complete; complete])
      with (step opts rnd s3 complete ≫= (fun s' => step opts rnd s' complete)).
    rewrite Hstep3. exact Hstep4.
  - unfold colorsOf, tile. simpl. by rewrite Htiles5, Harr5.
  - done.
  - done.
  - done.
Qed.

Lemma swap_then_revert_witness :
  let s := calmBoard in
  let tile1 := cell s 1 0 in
  let tile2 := cell s 1 1 in
  let s1 := sceneOf (swapTiles gameOptions s tile1 tile2 true) in
  colorAt s1 1 0 = colorAt s 1 1
  /\ colorAt s1 1 1 = colorAt s 1 0
  /\ exists s3 s5,
       run gameOptions cycle s1 [complete; complete] = Some s3
       /\ map onComplete (tweens s3)
          = [onSwapComplete tile2 tile1 false; onSwapComplete tile1 tile2 false]
       /\ colorsOf s3 = colorsOf s
       /\ run gameOptions cycle s3 [complete; complete] = Some s5
       /\ colorsOf s5 = colorsOf s
       /\ canPick s5 = true /\ selectedTile s5 = None /\ tweens s5 = [].
Proof.
  apply (swap_then_revert gameOptions cycle calmBoard 1 0 1 1);
    try (vm_compute; reflexivity); simpl; lia.
Defined.

(** ** The empty-mask pass *)

(** Every entry of the removal mask is 0; no cell of the grid is a hole. *)
Definition maskEmpty (opts : GameOptions) (s : Scene) : bool :=
  forallb (fun ij => entry (removeMap s) ij =? 0) (cells opts).

Definition noHoles (opts : GameOptions) (s : Scene) : bool :=
  forallb (fun ij : nat * nat => negb (emptyAt s ij.1 ij.2)) (cells opts).

Lemma maskEmpty_total opts s :
  maskEmpty opts s = true -> totalToDestroy opts s = 0%nat.
Proof.
  intros Hm. destruct (decide (totalToDestroy opts s = 0%nat)) as [|Hne]; [done|].
  apply totalToDestroy_pos in Hne as (r & c & Hr & Hc & Hpos).
  unfold maskEmpty in Hm. rewrite forallb_forall in Hm.
  specialize (Hm (r, c)). rewrite Z.eqb_eq in Hm.
  rewrite Hm in Hpos; [lia|]. by apply list_elem_of_In, elem_of_cells.
Qed.

Lemma noHoles_total opts s c :
  noHoles opts s = true -> (c <= gridSize opts)%nat -> holesBefore opts s c = 0%nat.
Proof.
  intros Hn. induction c as [|c IH]; intros Hc; [done|].
  rewrite holesBefore_S, IH by lia. simpl.
  rewrite holesInCol_emptiesIn. apply emptiesIn_top; [lia|].
  intros r Hr. split; [|lia]. intros He.
  unfold noHoles in Hn. rewrite forallb_forall in Hn.
  specialize (Hn (r, c)). simpl in Hn. rewrite He in Hn.
  discriminate Hn. apply list_elem_of_In, elem_of_cells. lia.
Qed.

(** C7. [destroyMarkedTiles] entered with a mask that is 0 everywhere writes
    its warning and goes straight to [replenishField], with no tile marked
    unoccupied and no tween registered; when the grid has no hole, that call
    changes neither the grid nor any tile object, sprite or pool entry, and
    hands control back: picking is enabled and the selection is cleared. *)
Theorem empty_mask_pass (opts : GameOptions) (rnd : nat -> Z) (s : Scene) :
  maskEmpty opts s = true ->
  let warned :=
    set_console (console s
                 ++ ["[WARN] No tiles to destroy, but destroyMarkedTiles was called"%string])
                (set_counters (counters s ++ [0]) s) in
  destroyMarkedTiles opts rnd s = replenishField opts rnd warned
  /\ (noHoles opts s = true ->
      let s' := destroyMarkedTiles opts rnd s in
      console s' = console warned
      /\ tileArray s' = tileArray s /\ tiles s' = tiles s
      /\ sprites s' = sprites s /\ poolArray s' = poolArray s
      /\ tweens s' = tweens s /\ drawn s' = drawn s
      /\ canPick s' = true /\ selectedTile s' = None).
Proof.
  intros Hmask warned.
  assert (Hd : destroyMarkedTiles opts rnd s = replenishField opts rnd warned).
  { unfold destroyMarkedTiles.
    change (totalToDestroy opts (set_counters (counters s ++ [0]) s))
      with (totalToDestroy opts s).
    by rewrite (maskEmpty_total opts s Hmask). }
  split; [done|]. intros Hholes s'. unfold s'. rewrite Hd.
  unfold replenishField.
  change (foldl (fun total j => (total + holesInCol opts
            (set_counters (counters warned ++ [0%Z]) warned) j)%nat) 0%nat
            (seq 0 (gridSize opts)))
    with (holesBefore opts s (gridSize opts)).
  rewrite (noHoles_total opts s (gridSize opts) Hholes) by lia.
  simpl. done.
Qed.

(** [calmBoard] with the mask [handleMatches] builds on it: all zeros. *)
Definition calmMasked : Scene :=
  set_removeMap (replicate 7 (replicate 7 0)) calmBoard.

Lemma empty_mask_pass_witness :
  let s := calmMasked in
  let warned :=
    set_console (console s
                 ++ ["[WARN] No tiles to destroy, but destroyMarkedTiles was called"%string])
                (set_counters (counters s ++ [0]) s) in
  destroyMarkedTiles gameOptions cycle s = replenishField gameOptions cycle warned
  /\ (noHoles gameOptions s = true ->
      let s' := destroyMarkedTiles gameOptions cycle s in
      console s' = console warned
      /\ tileArray s' = tileArray s /\ tiles s' = tiles s
      /\ sprites s' = sprites s /\ poolArray s' = poolArray s
      /\ tweens s' = tweens s /\ drawn s' = drawn s
      /\ canPick s' = true /\ selectedTile s' = None).
Proof.
  apply (empty_mask_pass gameOptions cycle calmMasked).
  vm_compute. reflexivity.
Defined.

(** ** Drag interpretation *)

(** The displacement exceeds half a tile along one axis while it stays below
    a quarter tile along the other. *)
Definition oneAxisGesture (opts : GameOptions) (deltaX deltaY : Q) : Prop :=
  (tileSize opts / 2 < Qabs deltaX /\ Qabs deltaY < tileSize opts / 4)%Q
  \/ (tileSize opts / 2 < Qabs deltaY /\ Qabs deltaX < tileSize opts / 4)%Q.





Section Drag.

Variable opts : GameOptions.





End Drag.




(** A tile is selected in the middle of [calmBoard], the pointer went down on
    it and has moved 70 pixels to the right and 5 down. *)
Definition middleSelected : Scene :=
  set_dragging true (set_selectedTile (Some (cell calmBoard 3 3)) calmBoard).
Definition rightwards : Pointer.t :=
  Pointer.mk 420 355 350 350.


(** On that scene the move does start the swap with the right neighbour. *)
Example drag_right_swaps :
  startSwipe gameOptions middleSelected rightwards <> Done middleSelected
  /\ swipeDelta gameOptions (350 - 420) (350 - 355) = (0, 1).
Proof.
  split; [|vm_compute; reflexivity].
  intros E. apply (f_equal (fun o => canPick (sceneOf o))) in E.
  vm_compute in E. discriminate E.
Qed.

(** The same tile selected by a tap, the pointer released: the same move
    makes no swap, since [stopSwipe] has ended the drag. *)
Definition releasedSelected : Scene :=
  stopSwipe middleSelected.

Example released_move_makes_no_swap :
  selectedTile releasedSelected = Some (cell calmBoard 3 3)
  /\ dragging releasedSelected = false
  /\ oneAxisGesture gameOptions
       (Pointer.downX rightwards - Pointer.x rightwards)
       (Pointer.downY rightwards - Pointer.y rightwards)
  /\ startSwipe gameOptions releasedSelected rightwards = Done releasedSelected.
Proof.
  split; [reflexivity|]. split; [reflexivity|]. split.
  - left. split; vm_compute; reflexivity.
  - vm_compute. reflexivity.
Qed.

(** ** Input while the scene is locked *)

(** The draws of a session: the grid of [calmBoard] comes out of [create]
    (three draws are rejected on the way), and every later draw is 3. *)
Definition draws (k : nat) : Z :=
  if (52 <=? k)%nat then 3 else nth k [0; 0; 0; 1; 1; 1; 1; 2] (Z.of_nat k mod 6).

Definition startScene : Scene := default newScene (create gameOptions draws 10).

(** A pointer at [(x, y)] that went down at [(downX, downY)]. *)
Definition pointerAt (x y downX downY : Z) : Pointer.t :=
  Pointer.mk (inject_Z x) (inject_Z y) (inject_Z downX) (inject_Z downY).

Example startScene_created :
  create gameOptions draws 10 = Some startScene
  /\ colorsOf startScene = colorsOf calmBoard
  /\ canPick startScene = true
  /\ matchInBoard gameOptions startScene = false.
Proof. split_and!; vm_compute; reflexivity. Qed.

(** Tap on cell (1,0), release, press on its right neighbour (1,1): the swap
    of the two starts and the scene is locked. The pointer is still down. *)
Definition tapSwap : list Event :=
  [pointerdown (pointerAt 50 150 50 150); pointerup;
   pointerdown (pointerAt 150 150 150 150)].

(** C5 fails on the code: [tileSelect] tests [canPick], [startSwipe] does
    not. After [tapSwap] picking is off and the two tweens of the swap are
    pending; a pointer-move 60 pixels to the right, before they complete,
    runs [swapTiles] again: the grid changes (cell (1,1) takes the colour of
    (1,2), and the colour 4 that was at (1,0) is lost) and four swap tweens
    are pending. *)
Lemma drag_during_swap_swaps_again :
  exists s1 s2,
    run gameOptions draws startScene tapSwap = Some s1
    /\ canPick s1 = false /\ length (tweens s1) = 2%nat
    /\ nth 1 (colorsOf startScene) [] = [4; 5; 0; 1; 2; 3; 4]
    /\ nth 1 (colorsOf s1) [] = [5; 4; 0; 1; 2; 3; 4]
    /\ step gameOptions draws s1 (pointermove (pointerAt 210 150 150 150)) = Some s2
    /\ canPick s2 = false /\ length (tweens s2) = 4%nat
    /\ nth 1 (colorsOf s2) [] = [5; 0; 5; 1; 2; 3; 4].
Proof.
  eexists _, _. split; [vm_compute; reflexivity|].
  split_and!; vm_compute; reflexivity.
Qed.

(** ** Picking re-enabled over a match *)

(** Tap on cell (1,2), release, press on the cell above it, (0,2), and hold:
    the swap completes a row of three 0s at the top left. *)
Definition tapMatch : list Event :=
  [pointerdown (pointerAt 250 150 250 150); pointerup;
   pointerdown (pointerAt 250 50 250 50)].

(** The session: the swap completes at 200 ms and the first destroy pass
    starts; at 360 ms the pointer, still down, moves 60 pixels down, which
    starts a second swap from the selected tile; the destroy pass completes at
    400 ms and refills the three cells with 3s; the refill completes at 500 ms,
    finds the new match and sets the 250 ms timer; the second swap completes at
    560 ms, finds the match too and starts a destroy pass; the timer fires at
    750 ms and starts another destroy pass over the same cells; the first of
    the two completes at 760 ms and refills, again with 3s; that refill
    completes at 860 ms and sets a timer; the last destroy pass completes at
    950 ms. *)
Definition overlappingPasses : list Event :=
  tapMatch
  ++ [complete; complete]
  ++ [wait 360; pointermove (pointerAt 250 110 250 50)]
  ++ [complete; complete; complete]
  ++ [complete; complete; complete]
  ++ [complete; complete]
  ++ [complete]
  ++ [complete; complete; complete]
  ++ [complete; complete; complete]
  ++ [complete; complete].

(** C1 fails on the code, through the defect of C5. At the end of
    [overlappingPasses] a destroy pass completes on a grid that an earlier,
    overlapping pass has already refilled: [replenishField] finds no hole and
    enables picking without looking at the board, which holds a row of three
    3s. *)
Lemma picking_enabled_over_match :
  exists s s',
    run gameOptions draws startScene overlappingPasses = Some s
    /\ canPick s = false /\ now s = 950
    /\ step gameOptions draws s complete = Some s'
    /\ now s' = 950
    /\ canPick s' = true
    /\ matchInBoard gameOptions s' = true
    /\ nth 0 (colorsOf s') [] = [3; 3; 3; 1; 2; 2; 3].
Proof.
  eexists _, _. split; [vm_compute; reflexivity|].
  split_and!; vm_compute; reflexivity.
Qed.

(** ** The settled invariant where it holds

    What remains of the invariant on the code: the board that [create] builds
    has no match, whatever the draws; [create] returns when the draws vary;
    and the two completion callbacks that test the board enable picking over a
    board without a match only. *)

Section Create.

Variable opts : GameOptions.
Variable rnd : nat -> Z.

(** The colour that [isMatch] reads at a position, if it reads one. *)
Definition look (s : Scene) (row col : Z) : option Z :=
  t ← tileAt opts s row col; Some (color (tile s t)).

Definition sameLooks (a b c : option Z) : bool :=
  match a, b, c with
  | Some x, Some y, Some z => (y =? x) && (z =? x)
  | _, _, _ => false
  end.

Lemma isMatch_look s row col :
  isMatch opts s row col
  = sameLooks (look s row col) (look s row (col - 1)) (look s row (col - 2))
    || sameLooks (look s row col) (look s (row - 1) col) (look s (row - 2) col).
Proof.
  unfold isMatch, isHorizontalMatch, isVerticalMatch, sameColors, look.
  destruct (tileAt opts s row col) as [t|],
    (tileAt opts s row (col - 1)) as [t1|], (tileAt opts s row (col - 2)) as [t2|],
    (tileAt opts s (row - 1) col) as [t3|], (tileAt opts s (row - 2) col) as [t4|];
    cbn; rewrite ?Z.eqb_refl; unfold tile; rewrite ?andb_true_r; done.
Qed.

(** Cell [(r, c)] is written before cell [(i, j)] by the loops of [create]. *)
Definition before (r c i j : nat) : Prop := (r < i \/ (r = i /\ c < j))%nat.

(** The state of [create] when it reaches cell [(i, j)]: the cells before it
    hold tile objects, and none of them ends a run of three. *)
Definition placed (s : Scene) (i j : nat) : Prop :=
  length (tileArray s) = S i
  /\ (j <= length (tileArray s !!! i))%nat
  /\ (forall r c, before r c i j -> (c < gridSize opts)%nat ->
        exists t, (tileArray s !! r) ≫= (.!! c) = Some t /\ (t < length (tiles s))%nat)
  /\ (forall r c, before r c i j -> (c < gridSize opts)%nat ->
        isMatch opts s (Z.of_nat r) (Z.of_nat c) = false)
  /\ canPick s = true.

Lemma look_stable s s' i j :
  (forall r c, before r c i j -> (c < gridSize opts)%nat ->
     (tileArray s' !! r) ≫= (.!! c) = (tileArray s !! r) ≫= (.!! c)) ->
  (forall t, (t < length (tiles s))%nat -> tile s' t = tile s t) ->
  (forall r c, before r c i j -> (c < gridSize opts)%nat ->
     exists t, (tileArray s !! r) ≫= (.!! c) = Some t /\ (t < length (tiles s))%nat) ->
  forall row col,
    row < Z.of_nat i \/ (row = Z.of_nat i /\ col < Z.of_nat j) ->
    look s' row col = look s row col.
Proof.
  intros Harr Htiles Hrefs row col Hb. unfold look, tileAt.
  destruct ((row <? 0) || (row >=? Z.of_nat (gridSize opts))
            || (col <? 0) || (col >=? Z.of_nat (gridSize opts))) eqn:E; [done|].
  rewrite !orb_false_iff in E. destruct E as [[[E1 E2] E3] E4].
  assert (Hbef : before (Z.to_nat row) (Z.to_nat col) i j) by (unfold before; lia).
  assert (Hc : (Z.to_nat col < gridSize opts)%nat) by lia.
  rewrite (Harr _ _ Hbef Hc).
  destruct (Hrefs _ _ Hbef Hc) as (t & -> & Ht). simpl.
  by rewrite (Htiles t Ht).
Qed.

Lemma isMatch_stable s s' i j :
  (forall r c, before r c i j -> (c < gridSize opts)%nat ->
     (tileArray s' !! r) ≫= (.!! c) = (tileArray s !! r) ≫= (.!! c)) ->
  (forall t, (t < length (tiles s))%nat -> tile s' t = tile s t) ->
  (forall r c, before r c i j -> (c < gridSize opts)%nat ->
     exists t, (tileArray s !! r) ≫= (.!! c) = Some t /\ (t < length (tiles s))%nat) ->
  forall r c, before r c i j ->
    isMatch opts s' (Z.of_nat r) (Z.of_nat c) = isMatch opts s (Z.of_nat r) (Z.of_nat c).
Proof.
  intros Harr Htiles Hrefs r c Hb. rewrite !isMatch_look.
  assert (L := look_stable s s' i j Harr Htiles Hrefs).
  unfold before in Hb.
  rewrite !L; [done|lia..].
Qed.

(** One turn of the [do ... while] loop: a colour is drawn and a new tile
    object with it is stored at [(i, j)]. *)
Definition rolled (i j sp : nat) (s : Scene) : Scene :=
  assignCell i j (length (tiles s))
    (set_tiles
       (tiles s ++ [{| color := rnd (drawn s); tileSprite := sp; isEmpty := false |}])
       (set_drawn (S (drawn s)) s)).

Lemma placeTile_S fuel i j sp s :
  placeTile opts rnd (S fuel) i j sp s
  = if isMatch opts (rolled i j sp s) (Z.of_nat i) (Z.of_nat j)
    then placeTile opts rnd fuel i j sp (rolled i j sp s)
    else Some (rolled i j sp s).
Proof. reflexivity. Qed.

Lemma rolled_cell i j sp s :
  placed s i j ->
  tileArray (rolled i j sp s) !! i
  = Some (if (j <? length (tileArray s !!! i))%nat
          then <[j := length (tiles s)]> (tileArray s !!! i)
          else tileArray s !!! i ++ [length (tiles s)]).
Proof.
  intros (Hlen & _). unfold rolled, assignCell. simpl.
  apply list_lookup_insert_eq. lia.
Qed.

(** The roll touches neither the cells before [(i, j)] nor their tile
    objects. *)
Lemma rolled_stable i j sp s :
  placed s i j ->
  (forall r c, before r c i j -> (c < gridSize opts)%nat ->
     (tileArray (rolled i j sp s) !! r) ≫= (.!! c) = (tileArray s !! r) ≫= (.!! c))
  /\ (forall t, (t < length (tiles s))%nat -> tile (rolled i j sp s) t = tile s t).
Proof.
  intros Hp. split.
  - intros r c [Hb|[-> Hb]] Hc.
    + unfold rolled, assignCell. simpl. by rewrite list_lookup_insert_ne by lia.
    + rewrite (rolled_cell i j sp s Hp). destruct Hp as (Hlen & Hrow & _).
      rewrite (list_lookup_lookup_total_lt (tileArray s) i) by lia. simpl.
      destruct (Nat.ltb_spec j (length (tileArray s !!! i))).
      * apply list_lookup_insert_ne. lia.
      * apply lookup_app_l. lia.
  - intros t Ht. unfold tile, rolled, assignCell. simpl. by apply lookup_total_app_l.
Qed.

Lemma rolled_placed i j sp s :
  placed s i j ->
  placed (rolled i j sp s) i j
  /\ (j < length (tileArray (rolled i j sp s) !!! i))%nat
  /\ (tileArray (rolled i j sp s) !! i) ≫= (.!! j) = Some (length (tiles s))
  /\ length (tiles (rolled i j sp s)) = S (length (tiles s)).
Proof.
  intros Hp. destruct (rolled_stable i j sp s Hp) as [Hlook Htile].
  assert (Hcell := rolled_cell i j sp s Hp).
  destruct Hp as (Hlen & Hrow & Hrefs & Hcalm & Hpick).
  set (row := tileArray s !!! i) in *.
  set (row' := if (j <? length row)%nat then <[j := length (tiles s)]> row
               else row ++ [length (tiles s)]) in *.
  assert (Htl : length (tiles (rolled i j sp s)) = S (length (tiles s))).
  { unfold rolled, assignCell. simpl. rewrite length_app. simpl. lia. }
  assert (Hrow'j : row' !! j = Some (length (tiles s))).
  { unfold row'. destruct (Nat.ltb_spec j (length row)).
    - by apply list_lookup_insert_eq.
    - assert (j = length row) as -> by lia.
      rewrite lookup_app_r by lia. by rewrite Nat.sub_diag. }
  assert (Hrow'len : (j < length row')%nat).
  { apply lookup_lt_is_Some. by rewrite Hrow'j. }
  assert (Hget : tileArray (rolled i j sp s) !!! i = row').
  { by apply list_lookup_total_correct. }
  split; [|split; [|split]].
  - unfold placed. split_and!.
    + unfold rolled, assignCell. simpl. by rewrite length_insert.
    + rewrite Hget. lia.
    + intros r c Hb Hc. rewrite (Hlook r c Hb Hc).
      destruct (Hrefs r c Hb Hc) as (t & Ht & Hlt). exists t. split; [done|lia].
    + intros r c Hb Hc.
      rewrite (isMatch_stable s _ i j Hlook Htile Hrefs r c Hb). by apply Hcalm.
    + done.
  - by rewrite Hget.
  - by rewrite Hcell.
  - done.
Qed.

Lemma placeTile_placed fuel i j sp s s' :
  (j < gridSize opts)%nat ->
  placed s i j ->
  placeTile opts rnd fuel i j sp s = Some s' ->
  placed s' i (S j).
Proof.
  intros Hj. revert s. induction fuel as [|fuel IH]; intros s Hp; [done|].
  rewrite placeTile_S.
  destruct (rolled_placed i j sp s Hp) as (Hp' & Hlen & Hcell & Htl).
  destruct (isMatch opts (rolled i j sp s) (Z.of_nat i) (Z.of_nat j)) eqn:E.
  - by apply IH.
  - intros [= <-]. destruct Hp' as (H1 & H2 & H3 & H4 & H5).
    unfold placed. split_and!; [done|lia| | |done].
    + intros r c [Hb|[-> Hb]] Hc.
      * apply H3; [by left|done].
      * destruct (decide (c = j)) as [->|Hne].
        -- exists (length (tiles s)). split; [done|lia].
        -- apply H3; [right; lia|done].
    + intros r c [Hb|[-> Hb]] Hc.
      * apply H4; [by left|done].
      * destruct (decide (c = j)) as [->|Hne]; [done|].
        apply H4; [right; lia|done].
Qed.

Lemma createTile_placed fuel i j s s' :
  (j < gridSize opts)%nat ->
  placed s i j ->
  createTile opts rnd fuel i (Some s) j = Some s' ->
  placed s' i (S j).
Proof.
  intros Hj Hp. unfold createTile. simpl.
  apply placeTile_placed; [done|]. exact Hp.
Qed.

Lemma createTiles_placed fuel i k s s' :
  (k <= gridSize opts)%nat ->
  placed s i 0 ->
  foldl (createTile opts rnd fuel i) (Some s) (seq 0 k) = Some s' ->
  placed s' i k.
Proof.
  revert s'. induction k as [|k IH]; intros s' Hk Hp.
  - simpl. by intros [= <-].
  - rewrite seq_S, foldl_snoc. simpl.
    destruct (foldl (createTile opts rnd fuel i) (Some s) (seq 0 k)) as [s1|] eqn:E;
      [|done].
    intros H. eapply createTile_placed; [|apply IH|exact H]; [lia|lia|done|done].
Qed.

(** Rows [0 .. i-1] are complete and calm. *)
Definition rowsPlaced (s : Scene) (i : nat) : Prop :=
  length (tileArray s) = i
  /\ (forall r c, (r < i)%nat -> (c < gridSize opts)%nat ->
        exists t, (tileArray s !! r) ≫= (.!! c) = Some t /\ (t < length (tiles s))%nat)
  /\ (forall r c, (r < i)%nat -> (c < gridSize opts)%nat ->
        isMatch opts s (Z.of_nat r) (Z.of_nat c) = false)
  /\ canPick s = true.

(** Row [i] is opened: [this.tileArray[i] = []]. *)
Lemma rowsPlaced_open s i :
  rowsPlaced s i -> placed (set_tileArray (tileArray s ++ [[]]) s) i 0.
Proof.
  intros (Hlen & Hrefs & Hcalm & Hpick).
  set (s0 := set_tileArray (tileArray s ++ [[]]) s).
  assert (Hlook : forall r c, before r c i 0 -> (c < gridSize opts)%nat ->
            (tileArray s0 !! r) ≫= (.!! c) = (tileArray s !! r) ≫= (.!! c)).
  { intros r c [Hb|[_ Hb]] _; [|lia]. simpl. by rewrite lookup_app_l by lia. }
  assert (Hrefs' : forall r c, before r c i 0 -> (c < gridSize opts)%nat ->
            exists t, (tileArray s !! r) ≫= (.!! c) = Some t
                      /\ (t < length (tiles s))%nat).
  { intros r c [Hb|[_ Hb]] Hc; [by apply Hrefs|lia]. }
  unfold placed. split_and!.
  - simpl. rewrite length_app. simpl. lia.
  - lia.
  - intros r c Hb Hc. rewrite (Hlook r c Hb Hc). by apply Hrefs'.
  - intros r c Hb Hc.
    rewrite (isMatch_stable s s0 i 0 Hlook (fun t _ => eq_refl) Hrefs' r c Hb).
    destruct Hb as [Hb|[_ Hb]]; [by apply Hcalm|lia].
  - done.
Qed.

Lemma createRow_placed fuel i s s' :
  rowsPlaced s i ->
  createRow opts rnd fuel (Some s) i = Some s' ->
  rowsPlaced s' (S i).
Proof.
  intros Hp. unfold createRow. simpl.
  intros H. apply createTiles_placed in H; [|lia|by apply rowsPlaced_open].
  destruct H as (H1 & H2 & H3 & H4 & H5).
  unfold rowsPlaced. split_and!; [done| | |done].
  - intros r c Hr Hc. apply H3; [|done]. unfold before. lia.
  - intros r c Hr Hc. apply H4; [|done]. unfold before. lia.
Qed.

Lemma createRows_placed fuel k s s' :
  rowsPlaced s 0 ->
  foldl (createRow opts rnd fuel) (Some s) (seq 0 k) = Some s' ->
  rowsPlaced s' k.
Proof.
  intros Hp. revert s'. induction k as [|k IH]; intros s'.
  - simpl. by intros [= <-].
  - rewrite seq_S, foldl_snoc. simpl.
    destruct (foldl (createRow opts rnd fuel) (Some s) (seq 0 k)) as [s1|] eqn:E;
      [|done].
    intros H. eapply createRow_placed; [|exact H]. by apply IH.
Qed.



(** *** The loop of [create] ends *)

(** The rejected colour is the one to the left or the one above. *)
Lemma rolled_match i j sp s :
  (i < gridSize opts)%nat -> (j < gridSize opts)%nat ->
  placed s i j ->
  isMatch opts (rolled i j sp s) (Z.of_nat i) (Z.of_nat j) = true ->
  look (rolled i j sp s) (Z.of_nat i) (Z.of_nat j - 1) = Some (rnd (drawn s))
  \/ look (rolled i j sp s) (Z.of_nat i - 1) (Z.of_nat j) = Some (rnd (drawn s)).
Proof.
  intros Hi Hj Hp. destruct (rolled_placed i j sp s Hp) as (_ & _ & Hcell & _).
  assert (Hhere : look (rolled i j sp s) (Z.of_nat i) (Z.of_nat j)
                  = Some (rnd (drawn s))).
  { unfold look, tileAt.
    replace (_ || _ || _ || _) with false
      by (symmetry; rewrite !orb_false_iff; lia).
    rewrite !Nat2Z.id, Hcell. simpl. f_equal.
    unfold tile, rolled, assignCell. simpl.
    by rewrite lookup_total_app_r, Nat.sub_diag by lia. }
  rewrite isMatch_look, Hhere. intros H. apply orb_true_iff in H as [H|H].
  - left. destruct (look _ _ (Z.of_nat j - 1)) as [y|]; [|done].
    destruct (look _ _ (Z.of_nat j - 2)) as [z|]; [|done].
    simpl in H. apply andb_true_iff in H as [H _]. apply Z.eqb_eq in H. by subst.
  - right. destruct (look _ (Z.of_nat i - 1) _) as [y|]; [|done].
    destruct (look _ (Z.of_nat i - 2) _) as [z|]; [|done].
    simpl in H. apply andb_true_iff in H as [H _]. apply Z.eqb_eq in H. by subst.
Qed.

(** A new roll leaves the colours to the left and above as they are. *)
Lemma rolled_look i j sp s row col :
  placed s i j ->
  row < Z.of_nat i \/ (row = Z.of_nat i /\ col < Z.of_nat j) ->
  look (rolled i j sp s) row col = look s row col.
Proof.
  intros Hp Hb. destruct (rolled_stable i j sp s Hp) as [Hlook Htile].
  destruct Hp as (_ & _ & Hrefs & _).
  by apply (look_stable s (rolled i j sp s) i j).
Qed.

Section Returns.

(** Any three successive draws are three colours. *)
Hypothesis rnd_varies : forall k,
  rnd k <> rnd (S k) /\ rnd k <> rnd (S (S k)) /\ rnd (S k) <> rnd (S (S k)).

Lemma placeTile_returns fuel i j sp s :
  (i < gridSize opts)%nat -> (j < gridSize opts)%nat ->
  placed s i j -> (3 <= fuel)%nat ->
  exists s', placeTile opts rnd fuel i j sp s = Some s'.
Proof.
  intros Hi Hj Hp Hfuel.
  destruct fuel as [|[|[|fuel]]]; [lia..|].
  set (s1 := rolled i j sp s). set (s2 := rolled i j sp s1).
  set (s3 := rolled i j sp s2).
  destruct (rolled_placed i j sp s Hp) as (Hp1 & _). fold s1 in Hp1.
  destruct (rolled_placed i j sp s1 Hp1) as (Hp2 & _). fold s2 in Hp2.
  rewrite placeTile_S. fold s1.
  destruct (isMatch opts s1 _ _) eqn:M1; [|by eexists].
  rewrite placeTile_S. fold s2.
  destruct (isMatch opts s2 _ _) eqn:M2; [|by eexists].
  rewrite placeTile_S. fold s3.
  destruct (isMatch opts s3 _ _) eqn:M3; [|by eexists].
  exfalso.
  apply (rolled_match i j sp s Hi Hj Hp) in M1. fold s1 in M1.
  apply (rolled_match i j sp s1 Hi Hj Hp1) in M2. fold s2 in M2.
  apply (rolled_match i j sp s2 Hi Hj Hp2) in M3. fold s3 in M3.
  assert (HL2 := rolled_look i j sp s1 (Z.of_nat i) (Z.of_nat j - 1) Hp1).
  assert (HU2 := rolled_look i j sp s1 (Z.of_nat i - 1) (Z.of_nat j) Hp1).
  assert (HL3 := rolled_look i j sp s2 (Z.of_nat i) (Z.of_nat j - 1) Hp2).
  assert (HU3 := rolled_look i j sp s2 (Z.of_nat i - 1) (Z.of_nat j) Hp2).
  fold s1 s2 s3 in HL2, HU2, HL3, HU3.
  rewrite HL3, HL2 in M3 by lia. rewrite HU3, HU2 in M3 by lia.
  rewrite HL2 in M2 by lia. rewrite HU2 in M2 by lia.
  change (drawn s1) with (S (drawn s)) in M2.
  change (drawn s2) with (S (S (drawn s))) in M3.
  destruct (rnd_varies (drawn s)) as (D1 & D2 & D3).
  destruct M1 as [M1|M1], M2 as [M2|M2], M3 as [M3|M3]; congruence.
Qed.

Lemma createTiles_returns fuel i k s :
  (3 <= fuel)%nat -> (i < gridSize opts)%nat -> (k <= gridSize opts)%nat ->
  placed s i 0 ->
  exists s', foldl (createTile opts rnd fuel i) (Some s) (seq 0 k) = Some s'.
Proof.
  intros Hfuel Hi. induction k as [|k IH]; intros Hk Hp; [by eexists|].
  destruct IH as (s1 & E1); [lia|done|].
  rewrite seq_S, foldl_snoc, E1. simpl.
  apply placeTile_returns; [done|lia| |done].
  apply (createTiles_placed fuel i k s s1) in E1; [|lia|done]. exact E1.
Qed.

Lemma createRows_returns fuel k s :
  (3 <= fuel)%nat -> (k <= gridSize opts)%nat ->
  rowsPlaced s 0 ->
  exists s', foldl (createRow opts rnd fuel) (Some s) (seq 0 k) = Some s'.
Proof.
  intros Hfuel. induction k as [|k IH]; intros Hk Hp; [by eexists|].
  destruct IH as (s1 & E1); [lia|done|].
  rewrite seq_S, foldl_snoc, E1. simpl.
  apply (createRows_placed fuel k s s1 Hp) in E1.
  unfold createRow. simpl.
  apply createTiles_returns; [done|lia|lia|].
  by apply rowsPlaced_open.
Qed.

End Returns.

(** The board after [create]: whatever the draws, when [create] returns,
    picking is enabled, no tile is selected and [matchInBoard] is false. *)
Theorem create_settled fuel s :
  create opts rnd fuel = Some s ->
  canPick s = true /\ selectedTile s = None /\ matchInBoard opts s = false.
Proof.
  unfold create.
  set (s0 := set_poolArray [] _).
  destruct (foldl (createRow opts rnd fuel) (Some s0) (seq 0 (gridSize opts)))
    as [s1|] eqn:E; [|done].
  simpl. intros [= <-].
  apply createRows_placed in E.
  2:{ unfold rowsPlaced. split_and!; [done|intros; lia..|done]. }
  destruct E as (H1 & H2 & H3 & H4).
  split; [done|]. split; [done|].
  destruct (matchInBoard opts (set_selectedTile None s1)) eqn:M; [|done].
  apply matchInBoard_spec in M as (i & j & Hi & Hj & M).
  change (isMatch opts s1 (Z.of_nat i) (Z.of_nat j) = true) in M.
  by rewrite H3 in M.
Qed.

(** [create] returns: when any three successive draws are three different
    colours, no cell needs more than three draws. *)
Theorem create_returns fuel :
  (forall k, rnd k <> rnd (S k) /\ rnd k <> rnd (S (S k)) /\ rnd (S k) <> rnd (S (S k))) ->
  (3 <= fuel)%nat ->
  exists s, create opts rnd fuel = Some s.
Proof.
  intros Hrnd Hfuel. unfold create.
  set (s0 := set_poolArray [] _).
  destruct (createRows_returns Hrnd fuel (gridSize opts) s0) as (s1 & E); [done|lia| |].
  { unfold rowsPlaced. split_and!; [done|intros; lia..|done]. }
  rewrite E. by eexists.
Qed.

End Create.

Lemma create_settled_witness :
  canPick startScene = true /\ selectedTile startScene = None
  /\ matchInBoard gameOptions startScene = false.
Proof.
  apply (create_settled gameOptions draws 10 startScene).
  vm_compute. reflexivity.
Defined.

Lemma cycle_distinct k :
  cycle k <> cycle (S k) /\ cycle k <> cycle (S (S k)) /\ cycle (S k) <> cycle (S (S k)).
Proof.
  unfold cycle. rewrite !Nat2Z.inj_succ.
  split_and!; intros E; Z.to_euclidean_division_equations; lia.
Qed.

Lemma create_returns_witness : exists s, create gameOptions cycle 3 = Some s.
Proof.
  apply (create_returns gameOptions cycle 3); [apply cycle_distinct|lia].
Defined.

(** *** The guarded sites *)

Section Guards.

Variable opts : GameOptions.
Variable rnd : nat -> Z.

Lemma tweenTile_canPick s tile1 tile2 swapBack s' :
  tweenTile opts s tile1 tile2 swapBack = Some s' -> canPick s' = canPick s.
Proof.
  unfold tweenTile. destruct (arrayAt _ _ _); [|done]. simpl. by intros [= <-].
Qed.

Lemma swapTiles_locks s tile1 tile2 swapBack :
  canPick (sceneOf (swapTiles opts s tile1 tile2 swapBack)) = false.
Proof.
  unfold swapTiles.
  destruct (arrayAt _ _ _) as [a1|]; [|done].
  destruct (arrayAt _ _ _) as [a2|]; [|done].
  destruct (tweenTile _ _ _ _ _) as [s1|] eqn:E1; [|done].
  apply tweenTile_canPick in E1. change (canPick s1 = false) in E1.
  destruct (tweenTile opts s1 _ _ _) as [s2|] eqn:E2; simpl; [|done].
  apply tweenTile_canPick in E2. congruence.
Qed.

Lemma destroyTiles_canPick destroyed l s :
  canPick (foldl (destroyTile opts destroyed) s l) = canPick s.
Proof.
  revert s. induction l as [|[i j] l IH]; intros s; [done|].
  simpl. rewrite IH. by destruct (0 <? entry (removeMap s) (i, j)).
Qed.

Lemma handleMatches_locks s :
  gridOk opts s -> matchInBoard opts s = true -> canPick s = false ->
  canPick (sceneOf (handleMatches opts rnd s)) = false.
Proof.
  intros Hok Hm Hpick.
  destruct (scanBoard_spec opts s Hok) as (m & Hscan & _ & He).
  unfold scanBoard in Hscan. unfold handleMatches.
  destruct (markMatches opts HORIZONTAL _) as [s1|] eqn:E1; [|done].
  simpl in Hscan.
  destruct (markMatches opts VERTICAL s1) as [s2|] eqn:E2; [|done].
  simpl in Hscan. injection Hscan as Hscan.
  assert (Hp2 : canPick s2 = false).
  { unfold markMatches in E1, E2.
    destruct (foldl _ _ _) in E1; [|done]. destruct (foldl _ _ _) in E2; [|done].
    simpl in *. by simplify_eq. }
  simpl. unfold destroyMarkedTiles.
  assert (Hne : totalToDestroy opts (set_counters (counters s2 ++ [0]) s2) <> 0%nat).
  { apply totalToDestroy_pos. simpl. rewrite Hscan.
    destruct Hok as [Hsq _].
    apply (matchInBoard_runs opts s Hsq) in Hm as (r & c & Hr & Hc & Hrun).
    exists r, c. split; [done|]. split; [done|]. rewrite He by done.
    destruct (onHorizontalRun opts s r c), (onVerticalRun opts s r c); simpl in *;
      done || lia. }
  apply Nat.eqb_neq in Hne. rewrite Hne.
  by rewrite destroyTiles_canPick.
Qed.

(** The completion of a refill pass, and the completion of a swap on a grid
    of the data model, enable picking only over a board on which
    [matchInBoard] is false. *)
Theorem enabling_is_guarded s :
  canPick s = false ->
  (forall replenished,
     let s' := replenishComplete opts s replenished in
     canPick s' = true -> matchInBoard opts s' = false)
  /\ (forall tile1 tile2 swapBack,
        gridOk opts s ->
        let s' := sceneOf (swapComplete opts rnd s tile1 tile2 swapBack) in
        canPick s' = true -> matchInBoard opts s' = false).
Proof.
  intros Hpick. split.
  - intros replenished s'. unfold s', replenishComplete.
    set (s0 := set_counters _ s).
    assert (H0 : canPick s0 = false) by done.
    destruct (counters s0 !!! replenished =? 0); [|congruence].
    destruct (matchInBoard opts s0) eqn:M; [simpl; congruence|].
    intros _. exact M.
  - intros tile1 tile2 swapBack Hok s'. unfold s', swapComplete.
    set (s0 := set_swappingTiles _ s).
    assert (H0 : canPick s0 = false) by done.
    assert (Hok0 : gridOk opts s0) by done.
    change (swappingTiles s0) with (swappingTiles s - 1).
    destruct (swappingTiles s - 1 =? 0); [|simpl; congruence].
    destruct (matchInBoard opts s0) eqn:M; simpl.
    + rewrite handleMatches_locks; done.
    + destruct swapBack; simpl.
      * by rewrite swapTiles_locks.
      * intros _. exact M.
Qed.

End Guards.

(** [calmBoard] while a swap is in flight. *)
Definition lockedBoard : Scene := set_swappingTiles 1 (set_canPick false calmBoard).

Lemma enabling_is_guarded_witness :
  (forall replenished,
     let s' := replenishComplete gameOptions lockedBoard replenished in
     canPick s' = true -> matchInBoard gameOptions s' = false)
  /\ (forall tile1 tile2 swapBack,
        gridOk gameOptions lockedBoard ->
        let s' := sceneOf (swapComplete gameOptions cycle lockedBoard tile1 tile2 swapBack) in
        canPick s' = true -> matchInBoard gameOptions s' = false).
Proof.
  apply (enabling_is_guarded gameOptions cycle lockedBoard). reflexivity.
Defined.

(** * More of the scene

    The logger, the edges of the match tests, the pointer handlers, the
    layout that [create] builds, the destroy pass and the refill, and what
    holds in every reachable state. *)

(** ** The logger

    The two other methods of [Logger]. As for [info] and [warn], the line
    written is the prefixed message; the further arguments of a call go to
    the console as they are and are not recorded. *)

Definition debug (lg : Logger) (message : string) (out : Console) : Console :=
  if levelValue (logLevel lg) <=? levelValue DEBUG
  then out ++ [("[DEBUG] " ++ message)%string] else out.

Definition error (lg : Logger) (message : string) (out : Console) : Console :=
  if levelValue (logLevel lg) <=? levelValue ERROR
  then out ++ [("[ERROR] " ++ message)%string] else out.

(** The call wrote a line. *)
Definition wrote (out out' : Console) : Prop := out' <> out.

Lemma snoc_neq {A} (l : list A) x : l ++ [x] <> l.
Proof.
  intros E. apply (f_equal length) in E. rewrite length_app in E. simpl in E. lia.
Qed.

Lemma debug_wrote lg message out :
  wrote out (debug lg message out) <-> levelValue (logLevel lg) <= levelValue DEBUG.
Proof.
  unfold wrote, debug. destruct (Z.leb_spec (levelValue (logLevel lg)) (levelValue DEBUG)).
  - split; [done|]. intros _. apply snoc_neq.
  - split; [done|lia].
Qed.

Lemma info_wrote lg message out :
  wrote out (info lg message out) <-> levelValue (logLevel lg) <= levelValue INFO.
Proof.
  unfold wrote, info. destruct (Z.leb_spec (levelValue (logLevel lg)) (levelValue INFO)).
  - split; [done|]. intros _. apply snoc_neq.
  - split; [done|lia].
Qed.

Lemma warn_wrote lg message out :
  wrote out (warn lg message out) <-> levelValue (logLevel lg) <= levelValue WARN.
Proof.
  unfold wrote, warn. destruct (Z.leb_spec (levelValue (logLevel lg)) (levelValue WARN)).
  - split; [done|]. intros _. apply snoc_neq.
  - split; [done|lia].
Qed.

Lemma error_wrote lg message out :
  wrote out (error lg message out) <-> levelValue (logLevel lg) <= levelValue ERROR.
Proof.
  unfold wrote, error. destruct (Z.leb_spec (levelValue (logLevel lg)) (levelValue ERROR)).
  - split; [done|]. intros _. apply snoc_neq.
  - split; [done|lia].
Qed.

(** The four methods filter by severity: what is written at one severity is
    written at every higher one; a logger set to a lower level writes at least
    what one set to a higher level writes; under [NONE] nothing is written;
    [setLogLevel] replaces the level. With the level the scene module sets,
    [debug] and [info] write nothing and [warn] and [error] write one line. *)
Theorem logger_severity (lg : Logger) (message : string) (out : Console) :
  (wrote out (debug lg message out) -> wrote out (info lg message out))
  /\ (wrote out (info lg message out) -> wrote out (warn lg message out))
  /\ (wrote out (warn lg message out) -> wrote out (error lg message out))
  /\ (forall l l', levelValue l <= levelValue l' ->
        (wrote out (debug (setLogLevel l' lg) message out)
         -> wrote out (debug (setLogLevel l lg) message out))
        /\ (wrote out (info (setLogLevel l' lg) message out)
            -> wrote out (info (setLogLevel l lg) message out))
        /\ (wrote out (warn (setLogLevel l' lg) message out)
            -> wrote out (warn (setLogLevel l lg) message out))
        /\ (wrote out (error (setLogLevel l' lg) message out)
            -> wrote out (error (setLogLevel l lg) message out)))
  /\ (debug (setLogLevel NONE lg) message out = out
      /\ info (setLogLevel NONE lg) message out = out
      /\ warn (setLogLevel NONE lg) message out = out
      /\ error (setLogLevel NONE lg) message out = out)
  /\ (forall l l', setLogLevel l (setLogLevel l' lg) = setLogLevel l lg)
  /\ (debug logger message out = out
      /\ info logger message out = out
      /\ warn logger message out = out ++ [("[WARN] " ++ message)%string]
      /\ error logger message out = out ++ [("[ERROR] " ++ message)%string]).
Proof.
  split_and!; try done.
  - rewrite debug_wrote, info_wrote. simpl. lia.
  - rewrite info_wrote, warn_wrote. simpl. lia.
  - rewrite warn_wrote, error_wrote. simpl. lia.
  - intros l l' Hl. rewrite !debug_wrote, !info_wrote, !warn_wrote, !error_wrote.
    simpl. lia.
Qed.

(** ** Matches near the edges *)

Section Edges.

Variable opts : GameOptions.

(** [isHorizontalMatch] looks two cells to the left and [isVerticalMatch] two
    cells up: in the first two columns (rows) the answer is false, whatever
    the colours; a position off the grid never matches; and a grid of fewer
    than three rows and columns has no match. *)
Theorem no_match_near_edges (s : Scene) (row col : Z) :
  (col < 2 -> isHorizontalMatch opts s row col = false)
  /\ (row < 2 -> isVerticalMatch opts s row col = false)
  /\ (row < 0 \/ Z.of_nat (gridSize opts) <= row
      \/ col < 0 \/ Z.of_nat (gridSize opts) <= col ->
      isMatch opts s row col = false)
  /\ ((gridSize opts <= 2)%nat -> matchInBoard opts s = false).
Proof.
  assert (H1 : col < 2 -> isHorizontalMatch opts s row col = false).
  { intros Hc. unfold isHorizontalMatch.
    rewrite (tileAt_outside opts s row (col - 2)) by lia.
    unfold sameColors. simpl.
    destruct (tileAt opts s row col), (tileAt opts s row (col - 1)); done. }
  assert (H2 : row < 2 -> isVerticalMatch opts s row col = false).
  { intros Hr. unfold isVerticalMatch.
    rewrite (tileAt_outside opts s (row - 2) col) by lia.
    unfold sameColors. simpl.
    destruct (tileAt opts s row col), (tileAt opts s (row - 1) col); done. }
  split; [done|]. split; [done|]. split.
  - intros Hout. unfold isMatch, isHorizontalMatch, isVerticalMatch.
    rewrite (tileAt_outside opts s row col) by done. done.
  - intros Hn. destruct (matchInBoard opts s) eqn:M; [|done].
    apply matchInBoard_spec in M as (i & j & Hi & Hj & M).
    unfold isMatch in M. apply orb_true_iff in M as [M|M].
    + unfold isHorizontalMatch in M.
      rewrite (tileAt_outside opts s _ (Z.of_nat j - 2)) in M by lia.
      unfold sameColors in M. simpl in M.
      by destruct (tileAt opts s _ (Z.of_nat j)), (tileAt opts s _ (Z.of_nat j - 1)).
    + unfold isVerticalMatch in M.
      rewrite (tileAt_outside opts s (Z.of_nat i - 2)) in M by lia.
      unfold sameColors in M. simpl in M.
      by destruct (tileAt opts s (Z.of_nat i) _), (tileAt opts s (Z.of_nat i - 1) _).
Qed.

End Edges.

Section InputGuards.

Variable opts : GameOptions.

(** The guards of the pointer handlers that do hold: a pointer-down on a
    locked scene changes nothing, also right after either handler has started
    a swap; a pointer-move after the release changes nothing; and a
    pointer-move that has started a swap has ended the drag, so that no later
    move of the same gesture starts another. *)
Theorem taps_and_drags_guarded (s : Scene) (pointer pointer' : Pointer.t) :
  (canPick s = false -> tileSelect opts s pointer = Done s)
  /\ (forall tile1 tile2 swapBack,
        let s' := sceneOf (swapTiles opts s tile1 tile2 swapBack) in
        tileSelect opts s' pointer = Done s')
  /\ startSwipe opts (stopSwipe s) pointer = Done (stopSwipe s)
  /\ (forall s', startSwipe opts s pointer = Done s' -> s' <> s ->
        canPick s' = false /\ dragging s' = false
        /\ startSwipe opts s' pointer' = Done s'
        /\ tileSelect opts s' pointer' = Done s').
Proof.
  assert (Hlocked : forall t p, canPick t = false -> tileSelect opts t p = Done t).
  { intros t p H. unfold tileSelect. by rewrite H. }
  assert (Hreleased : forall t p, dragging t = false -> startSwipe opts t p = Done t).
  { intros t p H. unfold startSwipe. rewrite H. by destruct (selectedTile t). }
  split_and!.
  - apply Hlocked.
  - intros tile1 tile2 swapBack s'. apply Hlocked. apply swapTiles_locks.
  - by apply Hreleased.
  - intros s' Hs Hne.
    assert (Hs' : canPick s' = false /\ dragging s' = false).
    { unfold startSwipe in Hs.
      destruct (selectedTile s) as [selected|]; [|by simplify_eq].
      destruct (dragging s); [|by simplify_eq].
      destruct (swipeDelta _ _ _) as [deltaRow deltaCol].
      destruct (negb _); [|by simplify_eq].
      destruct (tileAt _ _ _ _) as [pickedTile|]; [|by simplify_eq].
      assert (L := swapTiles_locks opts s selected pickedTile true).
      destruct (swapTiles _ _ _ _ _) as [s1|s1]; [|done].
      injection Hs as <-. done. }
    destruct Hs' as [Hp Hd]. split; [done|]. split; [done|]. split.
    + by apply Hreleased.
    + by apply Hlocked.
Qed.

End InputGuards.

(** ** The layout after create *)

Lemma cell_of_lookup s r c t :
  (tileArray s !! r) ≫= (.!! c) = Some t -> cell s r c = t.
Proof.
  unfold cell. destruct (tileArray s !! r) as [row|] eqn:E; [|done]. simpl.
  intros H. rewrite (list_lookup_total_correct _ _ _ E).
  by apply list_lookup_total_correct.
Qed.

Lemma floor_home opts (k : nat) :
  (0 < tileSize opts)%Q ->
  Qfloor ((tileSize opts * inject_Z (Z.of_nat k) + tileSize opts / 2) / tileSize opts)
  = Z.of_nat k.
Proof.
  intros Hts. rewrite <- (floor_center opts (Z.of_nat k) Hts) at 2.
  apply Qfloor_comp. unfold center. field. lra.
Qed.

Section Layout.

Variable opts : GameOptions.
Variable rnd : nat -> Z.

(** The sprite that [create] adds for cell [(i, j)]. *)
Definition home (i j : nat) : Sprite.t :=
  Sprite.mk (tileSize opts * inject_Z (Z.of_nat j) + tileSize opts / 2)%Q
            (tileSize opts * inject_Z (Z.of_nat i) + tileSize opts / 2)%Q.

(** What cell [(r, c)] holds once [create] has filled it: an occupied tile
    object of a drawn colour, with the sprite made for the cell, at its
    centre. *)
Definition atHome (s : Scene) (r c : nat) : Prop :=
  (cell s r c < length (tiles s))%nat
  /\ isEmpty (tile s (cell s r c)) = false
  /\ (exists k, color (tile s (cell s r c)) = rnd k)
  /\ tileSprite (tile s (cell s r c)) = (r * gridSize opts + c)%nat
  /\ sprites s !! (r * gridSize opts + c)%nat = Some (home r c).

Definition laid (s : Scene) (i j : nat) : Prop :=
  (forall r c, before r c i j -> (c < gridSize opts)%nat -> atHome s r c)
  /\ (forall r c r' c', before r c i j -> before r' c' i j ->
        (c < gridSize opts)%nat -> (c' < gridSize opts)%nat ->
        cell s r c = cell s r' c' -> r = r' /\ c = c')
  /\ (forall r, (r < i)%nat -> length (tileArray s !!! r) = gridSize opts)
  /\ poolArray s = [] /\ tweens s = [] /\ dragging s = false.

Lemma rolled_cell_before i j sp s r c :
  placed opts s i j -> before r c i j -> (c < gridSize opts)%nat ->
  cell (rolled rnd i j sp s) r c = cell s r c
  /\ (cell s r c < length (tiles s))%nat.
Proof.
  intros Hp Hb Hc. destruct (rolled_stable opts rnd i j sp s Hp) as [Hlook _].
  destruct Hp as (_ & _ & Hrefs & _).
  destruct (Hrefs r c Hb Hc) as (t & Ht & Hlt).
  assert (E := Hlook r c Hb Hc). rewrite Ht in E.
  apply cell_of_lookup in E, Ht. by subst.
Qed.

Lemma rolled_laid i j sp s :
  placed opts s i j -> laid s i j -> laid (rolled rnd i j sp s) i j.
Proof.
  intros Hp (Hhome & Hdist & Hrows & Hpool & Htw & Hdrag).
  destruct (rolled_stable opts rnd i j sp s Hp) as [_ Htile].
  assert (Hlen : length (tileArray s) = S i) by (by destruct Hp).
  unfold laid. split_and!; try done.
  - intros r c Hb Hc. destruct (rolled_cell_before i j sp s r c Hp Hb Hc) as [E Hlt].
    destruct (Hhome r c Hb Hc) as (H1 & H2 & H3 & H4 & H5).
    unfold atHome. rewrite E, (Htile _ Hlt). split_and!; try done.
    unfold rolled, assignCell. simpl. rewrite length_app. lia.
  - intros r c r' c' Hb Hb' Hc Hc'.
    destruct (rolled_cell_before i j sp s r c Hp Hb Hc) as [-> _].
    destruct (rolled_cell_before i j sp s r' c' Hp Hb' Hc') as [-> _].
    by apply Hdist.
  - intros r Hr. unfold rolled, assignCell. simpl.
    rewrite list_lookup_total_insert_ne by lia. by apply Hrows.
Qed.

Lemma rolled_row i j sp s :
  placed opts s i j -> (length (tileArray s !!! i) <= S j)%nat ->
  length (tileArray (rolled rnd i j sp s) !!! i) = S j.
Proof.
  intros Hp Hle. assert (Hcell := rolled_cell opts rnd i j sp s Hp).
  apply list_lookup_total_correct in Hcell. rewrite Hcell.
  destruct Hp as (_ & Hge & _).
  destruct (Nat.ltb_spec j (length (tileArray s !!! i))).
  - rewrite length_insert. lia.
  - rewrite length_app. simpl. lia.
Qed.

Lemma placeTile_laid fuel i j sp s s' :
  (j < gridSize opts)%nat ->
  placed opts s i j -> laid s i j ->
  (length (tileArray s !!! i) <= S j)%nat ->
  sp = (i * gridSize opts + j)%nat ->
  sprites s !! sp = Some (home i j) ->
  placeTile opts rnd fuel i j sp s = Some s' ->
  laid s' i (S j) /\ length (tileArray s' !!! i) = S j /\ sprites s' = sprites s.
Proof.
  intros Hj. revert s. induction fuel as [|fuel IH]; intros s Hp Hl Hrow Hsp Hspr; [done|].
  rewrite placeTile_S.
  destruct (rolled_placed opts rnd i j sp s Hp) as (Hp' & Hlen & Hcell & Htl).
  assert (Hl' := rolled_laid i j sp s Hp Hl).
  assert (Hrow' := rolled_row i j sp s Hp Hrow).
  destruct (isMatch opts (rolled rnd i j sp s) (Z.of_nat i) (Z.of_nat j)) eqn:E.
  - intros H. apply IH in H; [done|done|done|lia|done|done].
  - intros [= <-]. split; [|done].
    apply cell_of_lookup in Hcell.
    assert (Hnew : atHome (rolled rnd i j sp s) i j).
    { unfold atHome. rewrite Hcell.
      assert (Ht : tile (rolled rnd i j sp s) (length (tiles s))
                   = {| color := rnd (drawn s); tileSprite := sp; isEmpty := false |}).
      { unfold tile, rolled, assignCell. simpl.
        by rewrite lookup_total_app_r, Nat.sub_diag by lia. }
      rewrite Ht. split_and!; [rewrite Htl; lia|done|by eexists|done|by subst]. }
    destruct Hl' as (Hhome & Hdist & Hrows & Hpool & Htw & Hdrag).
    unfold laid. split_and!; try done.
    + intros r c [Hb|[-> Hb]] Hc; [apply Hhome; [by left|done]|].
      destruct (decide (c = j)) as [->|Hne]; [done|].
      apply Hhome; [right; lia|done].
    + assert (Hold : forall r c, before r c i j -> (c < gridSize opts)%nat ->
                (cell (rolled rnd i j sp s) r c < length (tiles s))%nat).
      { intros r c Hb Hc.
        by destruct (rolled_cell_before i j sp s r c Hp Hb Hc) as [-> ?]. }
      intros r c r' c' Hb Hb' Hc Hc' Heq.
      assert (Hcase : forall r c, before r c i (S j) ->
                before r c i j \/ (r = i /\ c = j)) by (unfold before; lia).
      destruct (Hcase _ _ Hb) as [Hb1|[-> ->]], (Hcase _ _ Hb') as [Hb2|[-> ->]].
      * by apply Hdist.
      * rewrite Hcell in Heq. specialize (Hold r c Hb1 Hc). lia.
      * rewrite Hcell in Heq. specialize (Hold r' c' Hb2 Hc'). lia.
      * done.
Qed.

Lemma createTile_laid fuel i j s s' :
  (j < gridSize opts)%nat ->
  placed opts s i j -> laid s i j ->
  length (tileArray s !!! i) = j ->
  length (sprites s) = (i * gridSize opts + j)%nat ->
  createTile opts rnd fuel i (Some s) j = Some s' ->
  laid s' i (S j) /\ length (tileArray s' !!! i) = S j
  /\ length (sprites s') = (i * gridSize opts + S j)%nat.
Proof.
  intros Hj Hp Hl Hrow Hlen. unfold createTile. simpl.
  set (s0 := set_sprites _ s).
  assert (Hl0 : laid s0 i j).
  { destruct Hl as (Hhome & Hdist & Hrows & Hpool & Htw & Hdrag).
    unfold laid. split_and!; try done.
    intros r c Hb Hc. destruct (Hhome r c Hb Hc) as (H1 & H2 & H3 & H4 & H5).
    unfold atHome. split_and!; try done.
    simpl. rewrite lookup_app_l; [done|]. by apply lookup_lt_Some in H5. }
  intros H.
  apply (placeTile_laid fuel i j (length (sprites s)) s0 s' Hj Hp Hl0) in H.
  - destruct H as (H1 & H2 & H3). split; [done|]. split; [done|].
    rewrite H3. simpl. rewrite length_app. simpl. lia.
  - simpl. fold (tileArray s). lia.
  - done.
  - simpl. rewrite lookup_app_r by lia. rewrite Nat.sub_diag. simpl.
    f_equal.
Qed.

Lemma createTiles_laid fuel i k s s' :
  (k <= gridSize opts)%nat ->
  placed opts s i 0 -> laid s i 0 ->
  length (tileArray s !!! i) = 0%nat ->
  length (sprites s) = (i * gridSize opts)%nat ->
  foldl (createTile opts rnd fuel i) (Some s) (seq 0 k) = Some s' ->
  laid s' i k /\ length (tileArray s' !!! i) = k
  /\ length (sprites s') = (i * gridSize opts + k)%nat.
Proof.
  intros Hk Hp Hl Hrow Hlen. revert s' Hk. induction k as [|k IH]; intros s' Hk.
  - simpl. intros [= <-]. split; [done|]. split; [done|lia].
  - rewrite seq_S, foldl_snoc. simpl.
    destruct (foldl (createTile opts rnd fuel i) (Some s) (seq 0 k)) as [s1|] eqn:E;
      [|done].
    destruct (IH s1) as (H1 & H2 & H3); [lia|done|].
    apply (createTiles_placed opts rnd fuel i k s s1) in E; [|lia|done].
    intros H. by apply (createTile_laid fuel i k s1 s').
Qed.

(** Rows [0 .. i-1] are laid out. *)
Definition rowsLaid (s : Scene) (i : nat) : Prop :=
  (forall r c, (r < i)%nat -> (c < gridSize opts)%nat -> atHome s r c)
  /\ (forall r c r' c', (r < i)%nat -> (r' < i)%nat ->
        (c < gridSize opts)%nat -> (c' < gridSize opts)%nat ->
        cell s r c = cell s r' c' -> r = r' /\ c = c')
  /\ (forall r, (r < i)%nat -> length (tileArray s !!! r) = gridSize opts)
  /\ length (sprites s) = (i * gridSize opts)%nat
  /\ poolArray s = [] /\ tweens s = [] /\ dragging s = false.

Lemma createRow_laid fuel i s s' :
  rowsPlaced opts s i -> rowsLaid s i ->
  createRow opts rnd fuel (Some s) i = Some s' ->
  rowsLaid s' (S i).
Proof.
  intros Hp (Hhome & Hdist & Hrows & Hspr & Hpool & Htw & Hdrag).
  assert (Hlen : length (tileArray s) = i) by (by destruct Hp).
  unfold createRow. simpl.
  set (s0 := set_tileArray (tileArray s ++ [[]]) s).
  assert (Hcell : forall r c, (r < i)%nat -> cell s0 r c = cell s r c).
  { intros r c Hr. unfold cell. simpl. by rewrite lookup_total_app_l by lia. }
  assert (Hl0 : laid s0 i 0).
  { unfold laid. split_and!; try done.
    - intros r c [Hb|[_ Hb]] Hc; [|lia]. unfold atHome. rewrite (Hcell r c Hb).
      by apply Hhome.
    - intros r c r' c' [Hb|[_ Hb]] [Hb'|[_ Hb']] Hc Hc'; try lia.
      rewrite !Hcell by done. by apply Hdist.
    - intros r Hr. simpl. rewrite lookup_total_app_l by lia. by apply Hrows. }
  intros H.
  apply (createTiles_laid fuel i (gridSize opts) s0 s') in H;
    [|lia|by apply rowsPlaced_open|done| |done].
  2:{ simpl. rewrite lookup_total_app_r by lia. by rewrite Hlen, Nat.sub_diag. }
  destruct H as ((H1 & H2 & H3 & H4 & H5 & H6) & Hrow & Hs).
  unfold rowsLaid. split_and!; try done.
  - intros r c Hr Hc. apply H1; [|done]. unfold before. lia.
  - intros r c r' c' Hr Hr' Hc Hc'. apply H2; try done; unfold before; lia.
  - intros r Hr. destruct (decide (r = i)) as [->|Hne]; [done|]. apply H3. lia.
  - lia.
Qed.

Lemma createRows_laid fuel k s s' :
  rowsPlaced opts s 0 -> rowsLaid s 0 ->
  foldl (createRow opts rnd fuel) (Some s) (seq 0 k) = Some s' ->
  rowsLaid s' k.
Proof.
  intros Hp Hl. revert s'. induction k as [|k IH]; intros s'.
  - simpl. by intros [= <-].
  - rewrite seq_S, foldl_snoc. simpl.
    destruct (foldl (createRow opts rnd fuel) (Some s) (seq 0 k)) as [s1|] eqn:E;
      [|done].
    intros H. eapply createRow_laid; [|by apply IH|exact H].
    by apply (createRows_placed opts rnd fuel k s s1).
Qed.

(** The board that [create] returns is at rest: the grid is square, the
    cells hold distinct tile objects, the sprite of each tile sits in the cell
    of the tile (so [getTileRow] and [getTileCol] give the cell back), no
    tween is pending; no cell is a hole, every colour is one of the draws,
    and the pool is empty. *)
Theorem create_resting fuel s :
  (0 < tileSize opts)%Q ->
  create opts rnd fuel = Some s ->
  resting opts s = true
  /\ noHoles opts s = true
  /\ (forall i j, (i < gridSize opts)%nat -> (j < gridSize opts)%nat ->
        exists k, colorAt s i j = rnd k)
  /\ poolArray s = [] /\ dragging s = false.
Proof.
  intros Hts. unfold create.
  set (s0 := set_poolArray [] _).
  destruct (foldl (createRow opts rnd fuel) (Some s0) (seq 0 (gridSize opts)))
    as [s1|] eqn:E; [|done].
  simpl. intros [= <-].
  assert (Hp0 : rowsPlaced opts s0 0).
  { unfold rowsPlaced. split_and!; [done|intros; lia..|done]. }
  assert (Hl0 : rowsLaid s0 0).
  { unfold rowsLaid. split_and!; try done; intros; lia. }
  assert (Hp := createRows_placed opts rnd fuel _ s0 s1 Hp0 E).
  apply (createRows_laid fuel _ s0 s1 Hp0 Hl0) in E.
  destruct Hp as (Hlen & _). destruct E as (Hhome & Hdist & Hrows & Hspr & Hpool & Htw & Hdrag).
  set (s := set_selectedTile None s1).
  assert (Hhome' : forall r c, (r < gridSize opts)%nat -> (c < gridSize opts)%nat ->
            atHome s r c) by done.
  split; [|split; [|split; [|done]]].
  - unfold resting. rewrite !andb_true_iff. split_and!.
    + unfold squareb. rewrite andb_true_iff, Nat.eqb_eq. split; [done|].
      apply forallb_forall. intros row Hin. apply Nat.eqb_eq.
      apply list_elem_of_In, list_elem_of_lookup in Hin as [r Hr].
      assert (Hlt := lookup_lt_Some _ _ _ Hr).
      apply list_lookup_total_correct in Hr. rewrite <- Hr. apply Hrows.
      change (tileArray s) with (tileArray s1) in Hlt. lia.
    + unfold refsOkb. apply forallb_forall. intros r Hr. apply forallb_forall.
      intros c Hc. apply in_seq in Hr, Hc. apply Nat.ltb_lt.
      destruct (Hhome' r c) as (H1 & _); [lia..|done].
    + unfold refsDistinctb.
      apply forallb_forall. intros r Hr. apply forallb_forall. intros c Hc.
      apply forallb_forall. intros r' Hr'. apply forallb_forall. intros c' Hc'.
      apply in_seq in Hr, Hc, Hr', Hc'.
      destruct (Nat.eqb_spec (cell s r c) (cell s r' c')) as [Heq|]; [|done].
      simpl. destruct (Hdist r c r' c') as [-> ->]; [lia..|done|].
      by rewrite !Nat.eqb_refl.
    + apply forallb_forall. intros [i j] Hin.
      apply list_elem_of_In, elem_of_cells in Hin as [Hi Hj]. simpl.
      destruct (Hhome' i j Hi Hj) as (H1 & H2 & H3 & H4 & H5).
      rewrite !andb_true_iff. split_and!.
      * apply Z.eqb_eq. unfold getTileRow, sprite. rewrite H4.
        rewrite (list_lookup_total_correct _ _ _ H5). simpl. by apply floor_home.
      * apply Z.eqb_eq. unfold getTileCol, sprite. rewrite H4.
        rewrite (list_lookup_total_correct _ _ _ H5). simpl. by apply floor_home.
      * apply Nat.ltb_lt. rewrite H4. by apply lookup_lt_Some in H5.
    + change (tweens s) with (tweens s1). by rewrite Htw.
  - unfold noHoles. apply forallb_forall. intros [i j] Hin.
    apply list_elem_of_In, elem_of_cells in Hin as [Hi Hj]. simpl.
    destruct (Hhome' i j Hi Hj) as (H1 & H2 & _). unfold emptyAt. by rewrite H2.
  - intros i j Hi Hj. by destruct (Hhome' i j Hi Hj) as (_ & _ & H3 & _).
Qed.

End Layout.

Lemma create_resting_witness :
  resting gameOptions startScene = true
  /\ noHoles gameOptions startScene = true
  /\ (forall i j, (i < gridSize gameOptions)%nat -> (j < gridSize gameOptions)%nat ->
        exists k, colorAt startScene i j = draws k)
  /\ poolArray startScene = [] /\ dragging startScene = false.
Proof.
  apply (create_resting gameOptions draws 10 startScene); [reflexivity|].
  vm_compute. reflexivity.
Defined.

(** ** Selecting by taps *)

Section Select.

Variable opts : GameOptions.

(** A pointer-down on a board at rest that accepts input. Off the grid it
    only starts a drag. On cell [(r, c)]: with no tile selected the tile of
    the cell becomes the selected one; on the selected tile itself the
    selection is dropped; on one of its four neighbours the swap of the two
    starts (the selected tile first, with swap-back); on any other cell the
    selection moves there. *)
Theorem tileSelect_cases (s : Scene) (pointer : Pointer.t) :
  resting opts s = true -> canPick s = true ->
  let row := Qfloor (Pointer.y pointer / tileSize opts) in
  let col := Qfloor (Pointer.x pointer / tileSize opts) in
  let s0 := set_dragging true s in
  (row < 0 \/ Z.of_nat (gridSize opts) <= row
   \/ col < 0 \/ Z.of_nat (gridSize opts) <= col ->
   tileSelect opts s pointer = Done s0)
  /\ (forall r c, (r < gridSize opts)%nat -> (c < gridSize opts)%nat ->
        row = Z.of_nat r -> col = Z.of_nat c ->
        (selectedTile s = None ->
         tileSelect opts s pointer = Done (set_selectedTile (Some (cell s r c)) s0))
        /\ (forall r0 c0, (r0 < gridSize opts)%nat -> (c0 < gridSize opts)%nat ->
              selectedTile s = Some (cell s r0 c0) ->
              (r = r0 /\ c = c0 ->
               tileSelect opts s pointer = Done (set_selectedTile None s0))
              /\ (Z.abs (Z.of_nat r - Z.of_nat r0) + Z.abs (Z.of_nat c - Z.of_nat c0) = 1 ->
                  tileSelect opts s pointer
                  = Done (swapped opts s0 (cell s r0 c0) (cell s r c) r0 c0 r c true))
              /\ (1 < Z.abs (Z.of_nat r - Z.of_nat r0) + Z.abs (Z.of_nat c - Z.of_nat c0) ->
                  tileSelect opts s pointer
                  = Done (set_selectedTile (Some (cell s r c)) s0)))).
Proof.
  intros Hrest Hpick row col s0.
  destruct (resting_sound opts s Hrest) as (Hsq & Hrefs & Hdist & Hpos & Htw).
  unfold tileSelect. rewrite Hpick. fold row col s0. split.
  - intros Hout. by rewrite (tileAt_outside opts s0 row col Hout).
  - intros r c Hr Hc -> ->.
    rewrite (tileAt_inside opts s0 r c Hsq Hr Hc).
    change (cell s0 r c) with (cell s r c).
    change (selectedTile s0) with (selectedTile s).
    split; [by intros ->|].
    intros r0 c0 Hr0 Hc0 ->.
    destruct (Hpos r c Hr Hc) as (R & C & _).
    destruct (Hpos r0 c0 Hr0 Hc0) as (R0 & C0 & _).
    unfold areTheSame, areNext.
    change (getTileRow opts s0) with (getTileRow opts s).
    change (getTileCol opts s0) with (getTileCol opts s).
    rewrite R, C, R0, C0. split_and!.
    + intros [-> ->]. by rewrite !Z.eqb_refl.
    + intros Hadj.
      replace ((Z.of_nat r =? Z.of_nat r0) && (Z.of_nat c =? Z.of_nat c0)) with false
        by (symmetry; apply andb_false_iff; rewrite !Z.eqb_neq; lia).
      rewrite (proj2 (Z.eqb_eq _ _) Hadj).
      apply swapTiles_spec; try done.
      * intros E. destruct (Hdist r0 c0 r c Hr0 Hc0 Hr Hc E) as [-> ->]. lia.
      * by apply Hrefs.
      * by apply Hrefs.
    + intros Hfar.
      replace ((Z.of_nat r =? Z.of_nat r0) && (Z.of_nat c =? Z.of_nat c0)) with false
        by (symmetry; apply andb_false_iff; rewrite !Z.eqb_neq; lia).
      by rewrite (proj2 (Z.eqb_neq _ _)) by lia.
Qed.

End Select.

(** A press in the middle of cell (1,1) of [calmBoard]. *)
Definition pressed : Pointer.t := pointerAt 150 150 150 150.

Lemma tileSelect_cases_witness :
  let s := calmBoard in
  let pointer := pressed in
  let row := Qfloor (Pointer.y pointer / tileSize gameOptions) in
  let col := Qfloor (Pointer.x pointer / tileSize gameOptions) in
  let s0 := set_dragging true s in
  (row < 0 \/ Z.of_nat (gridSize gameOptions) <= row
   \/ col < 0 \/ Z.of_nat (gridSize gameOptions) <= col ->
   tileSelect gameOptions s pointer = Done s0)
  /\ (forall r c, (r < gridSize gameOptions)%nat -> (c < gridSize gameOptions)%nat ->
        row = Z.of_nat r -> col = Z.of_nat c ->
        (selectedTile s = None ->
         tileSelect gameOptions s pointer = Done (set_selectedTile (Some (cell s r c)) s0))
        /\ (forall r0 c0, (r0 < gridSize gameOptions)%nat -> (c0 < gridSize gameOptions)%nat ->
              selectedTile s = Some (cell s r0 c0) ->
              (r = r0 /\ c = c0 ->
               tileSelect gameOptions s pointer = Done (set_selectedTile None s0))
              /\ (Z.abs (Z.of_nat r - Z.of_nat r0) + Z.abs (Z.of_nat c - Z.of_nat c0) = 1 ->
                  tileSelect gameOptions s pointer
                  = Done (swapped gameOptions s0 (cell s r0 c0) (cell s r c) r0 c0 r c true))
              /\ (1 < Z.abs (Z.of_nat r - Z.of_nat r0) + Z.abs (Z.of_nat c - Z.of_nat c0) ->
                  tileSelect gameOptions s pointer
                  = Done (set_selectedTile (Some (cell s r c)) s0)))).
Proof.
  apply (tileSelect_cases gameOptions calmBoard pressed); vm_compute; reflexivity.
Defined.

(** ** Destroying the marked tiles *)

Lemma NoDup_cells opts : NoDup (cells opts).
Proof.
  unfold cells. apply NoDup_bind; [| |apply NoDup_seq].
  - intros i1 i2 [i j] _ _ H1 H2.
    apply list_elem_of_bind in H1 as (j1 & H1 & _), H2 as (j2 & H2 & _).
    apply list_elem_of_singleton in H1, H2. congruence.
  - intros i _. apply NoDup_bind; [| |apply NoDup_seq].
    + intros j1 j2 [i' j] _ _ H1 H2.
      apply list_elem_of_singleton in H1, H2. congruence.
    + intros j _. apply NoDup_singleton.
Qed.

Section Destroy.

Variable opts : GameOptions.
Variable rnd : nat -> Z.

(** The tile object after [isEmpty = true]. *)
Definition emptied (v : Tile) : Tile :=
  {| color := color v; tileSprite := tileSprite v; isEmpty := true |}.

(** The tween that [destroyMarkedTiles] registers for a marked cell. *)
Definition destroyTween (s : Scene) (destroyed : nat) (ij : nat * nat) : Tween :=
  {| due := now s + destroySpeed opts;
     targets := Some (tileSprite (tile s (cell s ij.1 ij.2)));
     toX := None; toY := None;
     onComplete := onDestroyComplete ij.1 ij.2 destroyed |}.

(** The fields that the destroy loop leaves alone. *)
Definition sameFrame (s t : Scene) : Prop :=
  tileArray t = tileArray s /\ removeMap t = removeMap s /\ now t = now s
  /\ sprites t = sprites s /\ poolArray t = poolArray s
  /\ canPick t = canPick s /\ dragging t = dragging s
  /\ selectedTile t = selectedTile s /\ swappingTiles t = swappingTiles s
  /\ drawn t = drawn s /\ console t = console s
  /\ length (tiles t) = length (tiles s).

Definition destroyedTo (s : Scene) (destroyed : nat) (l : list (nat * nat))
    (t : Scene) : Prop :=
  sameFrame s t
  /\ (forall i j, (i < gridSize opts)%nat -> (j < gridSize opts)%nat ->
        tile t (cell s i j)
        = if bool_decide ((i, j) ∈ l /\ 0 < entry (removeMap s) (i, j))
          then emptied (tile s (cell s i j)) else tile s (cell s i j))
  /\ tweens t = tweens s
                ++ map (destroyTween s destroyed)
                       (filter (fun ij => 0 < entry (removeMap s) ij) l)
  /\ counters t
     = <[destroyed := counters s !!! destroyed
                      + Z.of_nat (length (filter (fun ij => 0 < entry (removeMap s) ij) l))]>
         (counters s).

Lemma destroyTile_marked destroyed t i j :
  0 < entry (removeMap t) (i, j) ->
  destroyTile opts destroyed t (i, j)
  = set_tiles (<[cell t i j := emptied (tile t (cell t i j))]> (tiles t))
      (set_tweens (tweens t ++ [destroyTween t destroyed (i, j)])
         (set_counters (<[destroyed := counters t !!! destroyed + 1]> (counters t)) t)).
Proof.
  intros H. unfold destroyTile. by rewrite (proj2 (Z.ltb_lt _ _) H).
Qed.

Lemma destroyTile_unmarked destroyed t i j :
  entry (removeMap t) (i, j) <= 0 -> destroyTile opts destroyed t (i, j) = t.
Proof.
  intros H. unfold destroyTile. by rewrite (proj2 (Z.ltb_ge _ _) H).
Qed.

Lemma destroyTiles_spec destroyed l s :
  refsOk (gridSize opts) s -> refsDistinct (gridSize opts) s ->
  NoDup l ->
  (forall i j, (i, j) ∈ l -> (i < gridSize opts)%nat /\ (j < gridSize opts)%nat) ->
  (destroyed < length (counters s))%nat ->
  destroyedTo s destroyed l (foldl (destroyTile opts destroyed) s l).
Proof.
  intros Hrefs Hdist Hnd Hin Hd. induction l as [|[i j] l IH] using rev_ind.
  - unfold destroyedTo, sameFrame. simpl. split_and!; try done.
    + by rewrite app_nil_r.
    + rewrite Z.add_0_r. by rewrite list_insert_id by (by apply list_lookup_lookup_total_lt).
  - apply NoDup_app in Hnd as (Hnd & Hnin & _).
    assert (Hij : (i, j) ∉ l).
    { intros H. apply (Hnin _ H). by apply list_elem_of_singleton. }
    destruct (Hin i j) as [Hi Hj]; [apply elem_of_app; right; by apply list_elem_of_singleton|].
    destruct IH as (Hf & Ht & Htw & Hc); [done| |].
    { intros i' j' H. apply Hin, elem_of_app. by left. }
    rewrite foldl_snoc. set (t := foldl _ s l) in *.
    destruct Hf as (F1 & F2 & F3 & F4 & F5 & F6 & F7 & F8 & F9 & F10 & F11 & F12).
    assert (Hcell : cell t i j = cell s i j) by (unfold cell; by rewrite F1).
    assert (Htile : tile t (cell s i j) = tile s (cell s i j)).
    { rewrite (Ht i j Hi Hj). rewrite bool_decide_eq_false_2; [done|]. by intros [? _]. }
    unfold destroyedTo. rewrite filter_app, filter_cons, filter_nil.
    destruct (Z.lt_ge_cases 0 (entry (removeMap s) (i, j))) as [Hm|Hm].
    + rewrite destroyTile_marked by (by rewrite F2).
      rewrite decide_True by done.
      unfold sameFrame. simpl. rewrite Hcell, Htile.
      split_and!; try done.
      * by rewrite length_insert.
      * intros i' j' Hi' Hj'. unfold tile. simpl.
        destruct (decide ((i', j') = (i, j))) as [[= -> ->]|Hne].
        -- rewrite list_lookup_total_insert_eq by (rewrite F12; by apply Hrefs).
           rewrite bool_decide_eq_true_2; [done|]. split; [|done].
           apply elem_of_app. right. by apply list_elem_of_singleton.
        -- rewrite list_lookup_total_insert_ne.
           2:{ intros E. apply Hne. by destruct (Hdist i j i' j' Hi Hj Hi' Hj' E) as [-> ->]. }
           fold (tile t (cell s i' j')). rewrite (Ht i' j' Hi' Hj').
           rewrite (bool_decide_ext ((i', j') ∈ l ++ [(i, j)] /\ _)
                      ((i', j') ∈ l /\ 0 < entry (removeMap s) (i', j'))); [done|].
           rewrite elem_of_app, list_elem_of_singleton.
           tauto.
      * rewrite Htw, map_app, <- app_assoc. simpl. unfold destroyTween. simpl.
        by rewrite F3, Hcell, Htile.
      * rewrite Hc. rewrite list_lookup_total_insert_eq by done.
        rewrite list_insert_insert_eq. f_equal.
        rewrite length_app. simpl. lia.
    + rewrite destroyTile_unmarked by (by rewrite F2).
      rewrite decide_False by lia. rewrite app_nil_r.
      unfold sameFrame. split_and!; try done.
      intros i' j' Hi' Hj'. rewrite (Ht i' j' Hi' Hj').
      rewrite (bool_decide_ext ((i', j') ∈ l ++ [(i, j)] /\ _)
                 ((i', j') ∈ l /\ 0 < entry (removeMap s) (i', j'))); [done|].
      rewrite elem_of_app, list_elem_of_singleton.
      split; [|tauto]. intros [[H|[= -> ->]] Hm']; [done|lia].
Qed.

Lemma destroy_marks_spec (s : Scene) :
  refsOk (gridSize opts) s -> refsDistinct (gridSize opts) s ->
  totalToDestroy opts s <> 0%nat ->
  let s' := destroyMarkedTiles opts rnd s in
  let destroyed := length (counters s) in
  tileArray s' = tileArray s /\ length (tiles s') = length (tiles s)
  /\ (forall i j, (i < gridSize opts)%nat -> (j < gridSize opts)%nat ->
        tile s' (cell s i j)
        = if 0 <? entry (removeMap s) (i, j)
          then emptied (tile s (cell s i j)) else tile s (cell s i j))
  /\ tweens s' = tweens s
                 ++ map (destroyTween s destroyed)
                        (filter (fun ij => 0 < entry (removeMap s) ij) (cells opts))
  /\ counters s' = counters s ++ [Z.of_nat (totalToDestroy opts s)]
  /\ console s' = console s /\ canPick s' = canPick s
  /\ selectedTile s' = selectedTile s
  /\ sprites s' = sprites s /\ poolArray s' = poolArray s /\ drawn s' = drawn s.
Proof.
  intros Hrefs Hdist Hne s' destroyed. subst s' destroyed. unfold destroyMarkedTiles.
  set (s0 := set_counters (counters s ++ [0]) s).
  change (totalToDestroy opts s0) with (totalToDestroy opts s).
  rewrite (proj2 (Nat.eqb_neq _ _) Hne).
  destruct (destroyTiles_spec (length (counters s)) (cells opts) s0)
    as (Hf & Ht & Htw & Hc);
    [done|done|apply NoDup_cells|by intros i j H%elem_of_cells| |].
  { unfold s0. simpl. rewrite length_app. simpl. lia. }
  destruct Hf as (F1 & F2 & F3 & F4 & F5 & F6 & F7 & F8 & F9 & F10 & F11 & F12).
  split_and!; try done.
  - intros i j Hi Hj.
    assert (E := Ht i j Hi Hj).
    change (removeMap s0) with (removeMap s) in E. change (tile s0) with (tile s) in E.
    change (cell s0) with (cell s) in E. rewrite E.
    destruct (Z.ltb_spec 0 (entry (removeMap s) (i, j))).
    + rewrite bool_decide_eq_true_2; [done|]. split; [by apply elem_of_cells|done].
    + rewrite bool_decide_eq_false_2; [done|]. intros [_ ?]. lia.
  - rewrite Hc. unfold s0. simpl.
    rewrite lookup_total_app_r by lia. rewrite Nat.sub_diag. simpl.
    rewrite insert_app_r_alt by lia. rewrite Nat.sub_diag. simpl.
    unfold totalToDestroy. done.
Qed.

(** [destroyMarkedTiles] on a mask with an entry above 0: the cells whose
    entry is above 0 become holes, with colour and sprite kept, and no other
    cell changes; one tween per marked cell is registered, in row-major
    order, each due after [destroySpeed] and aimed at the sprite of its
    cell; the counter of the pass holds the number of marked cells; no
    warning is written and picking, the sprites, the pool and the draws are
    untouched. *)
Theorem destroy_marks_masked (s : Scene) :
  refsOk (gridSize opts) s -> refsDistinct (gridSize opts) s ->
  totalToDestroy opts s <> 0%nat ->
  let s' := destroyMarkedTiles opts rnd s in
  (forall i j, (i < gridSize opts)%nat -> (j < gridSize opts)%nat ->
     cell s' i j = cell s i j
     /\ colorAt s' i j = colorAt s i j
     /\ tileSprite (tile s' (cell s' i j)) = tileSprite (tile s (cell s i j))
     /\ emptyAt s' i j = emptyAt s i j || (0 <? entry (removeMap s) (i, j)))
  /\ map due (tweens s')
     = map due (tweens s) ++ replicate (totalToDestroy opts s) (now s + destroySpeed opts)
  /\ map onComplete (tweens s')
     = map onComplete (tweens s)
       ++ map (fun ij : nat * nat => onDestroyComplete ij.1 ij.2 (length (counters s)))
              (filter (fun ij => 0 < entry (removeMap s) ij) (cells opts))
  /\ map targets (tweens s')
     = map targets (tweens s)
       ++ map (fun ij : nat * nat => Some (tileSprite (tile s (cell s ij.1 ij.2))))
              (filter (fun ij => 0 < entry (removeMap s) ij) (cells opts))
  /\ counters s' = counters s ++ [Z.of_nat (totalToDestroy opts s)]
  /\ console s' = console s /\ canPick s' = canPick s
  /\ sprites s' = sprites s /\ poolArray s' = poolArray s /\ drawn s' = drawn s.
Proof.
  intros Hrefs Hdist Hne s'.
  destruct (destroy_marks_spec s Hrefs Hdist Hne)
    as (Harr & Hlen & Hcells & Htweens & Hcounters & Hcon & Hpick & Hsel & Hspr & Hpool
        & Hdrawn).
  fold s' in Harr, Hlen, Hcells, Htweens, Hcounters, Hcon, Hpick, Hsel, Hspr, Hpool, Hdrawn.
  split_and!; try done.
  - intros i j Hi Hj.
    assert (Hc : cell s' i j = cell s i j) by (unfold cell; by rewrite Harr).
    unfold colorAt, emptyAt. rewrite Hc, (Hcells i j Hi Hj).
    destruct (0 <? entry (removeMap s) (i, j)); simpl;
      [by rewrite orb_true_r|by rewrite orb_false_r].
  - rewrite Htweens, map_app, map_map. f_equal. simpl.
    unfold totalToDestroy. generalize (filter (fun ij => 0 < entry (removeMap s) ij) (cells opts)).
    intros l. induction l as [|x l IH]; [done|]. simpl. by rewrite IH.
  - rewrite Htweens, map_app, map_map. done.
  - rewrite Htweens, map_app, map_map. done.
Qed.

Lemma markMatches_frame direction s s' :
  markMatches opts direction s = Some s' ->
  exists m, s' = set_removeMap m s.
Proof.
  unfold markMatches. destruct (foldl _ _ _) as [m|]; [|done]. simpl.
  intros [= <-]. by exists m.
Qed.


End Destroy.

(** [matchBoard] with the mask that the two scans give it. *)
Definition matchMasked : Scene :=
  set_removeMap (default [] (scanBoard gameOptions matchBoard)) matchBoard.


Lemma destroy_marks_masked_witness :
  let s := matchMasked in
  let s' := destroyMarkedTiles gameOptions cycle s in
  (forall i j, (i < gridSize gameOptions)%nat -> (j < gridSize gameOptions)%nat ->
     cell s' i j = cell s i j
     /\ colorAt s' i j = colorAt s i j
     /\ tileSprite (tile s' (cell s' i j)) = tileSprite (tile s (cell s i j))
     /\ emptyAt s' i j = emptyAt s i j || (0 <? entry (removeMap s) (i, j)))
  /\ map due (tweens s')
     = map due (tweens s)
       ++ replicate (totalToDestroy gameOptions s) (now s + destroySpeed gameOptions)
  /\ map onComplete (tweens s')
     = map onComplete (tweens s)
       ++ map (fun ij : nat * nat => onDestroyComplete ij.1 ij.2 (length (counters s)))
              (filter (fun ij => 0 < entry (removeMap s) ij) (cells gameOptions))
  /\ map targets (tweens s')
     = map targets (tweens s)
       ++ map (fun ij : nat * nat => Some (tileSprite (tile s (cell s ij.1 ij.2))))
              (filter (fun ij => 0 < entry (removeMap s) ij) (cells gameOptions))
  /\ counters s' = counters s ++ [Z.of_nat (totalToDestroy gameOptions s)]
  /\ console s' = console s /\ canPick s' = canPick s
  /\ sprites s' = sprites s /\ poolArray s' = poolArray s /\ drawn s' = drawn s.
Proof.
  apply (destroy_marks_masked gameOptions cycle matchMasked).
  - apply refsOkb_sound. vm_compute. reflexivity.
  - apply refsDistinctb_sound. vm_compute. reflexivity.
  - apply Nat.eqb_neq. vm_compute. reflexivity.
Defined.


(** ** Refill with an empty pool *)

Section EmptyPool.

Variable opts : GameOptions.
Variable rnd : nat -> Z.

Definition poolWarning : string :=
  "[WARN] Pool array is empty, cannot replenish tile.".

(** What [k] turns of the refill loop do when no sprite is left. *)
Definition starved (s : Scene) (k : nat) (t : Scene) : Prop :=
  tileArray t = tileArray s /\ tiles t = tiles s /\ sprites t = sprites s
  /\ tweens t = tweens s /\ poolArray t = [] /\ counters t = counters s
  /\ canPick t = canPick s /\ selectedTile t = selectedTile s
  /\ drawn t = (drawn s + k)%nat
  /\ console t = console s ++ replicate k poolWarning.

Lemma holesInCol_same s t j :
  tileArray t = tileArray s -> tiles t = tiles s ->
  holesInCol opts t j = holesInCol opts s j.
Proof. intros H1 H2. unfold holesInCol, tile, cell. by rewrite H1, H2. Qed.

Lemma holesBefore_same s t c :
  tileArray t = tileArray s -> tiles t = tiles s ->
  holesBefore opts t c = holesBefore opts s c.
Proof.
  intros H1 H2. induction c as [|c IH]; [done|].
  by rewrite !holesBefore_S, IH, (holesInCol_same s t).
Qed.

Lemma replicate_snoc {A} (x : A) k : replicate k x ++ [x] = replicate (S k) x.
Proof. induction k as [|k IH]; [done|]. simpl. by rewrite IH. Qed.

Lemma replenishTile_starved replenished j emptySpots s k t i :
  (replenished < length (counters s))%nat ->
  starved s k t ->
  starved s (S k) (replenishTile opts rnd replenished j emptySpots t i).
Proof.
  intros Hr (H1 & H2 & H3 & H4 & H5 & H6 & H7 & H8 & H9 & H10).
  unfold replenishTile. simpl. rewrite H5. simpl.
  unfold starved. simpl. split_and!; try done.
  - rewrite list_insert_insert_eq, list_lookup_total_insert_eq by (rewrite H6; lia).
    rewrite H6. replace (counters s !!! replenished + 1 - 1)
      with (counters s !!! replenished) by lia.
    apply list_insert_id. by apply list_lookup_lookup_total_lt.
  - lia.
  - change (warn logger _ (console t)) with (console t ++ [poolWarning]).
    rewrite H10, <- app_assoc. f_equal. apply replicate_snoc.
Qed.

Lemma replenishTiles_starved replenished j emptySpots s k t l :
  (replenished < length (counters s))%nat ->
  starved s k t ->
  starved s (k + length l)
    (foldl (replenishTile opts rnd replenished j emptySpots) t l).
Proof.
  intros Hr. revert k t. induction l as [|i l IH]; intros k t Hs.
  - simpl. by rewrite Nat.add_0_r.
  - simpl. replace (k + S (length l))%nat with (S k + length l)%nat by lia.
    apply IH. by apply replenishTile_starved.
Qed.

Lemma refill_starved replenished s c :
  (replenished < length (counters s))%nat -> poolArray s = [] ->
  starved s (holesBefore opts s c)
    (foldl (fun s j =>
              let emptySpots := holesInCol opts s j in
              if (0 <? emptySpots)%nat
              then foldl (replenishTile opts rnd replenished j emptySpots) s (seq 0 emptySpots)
              else s)
           s (seq 0 c)).
Proof.
  intros Hr Hpool. induction c as [|c IH].
  - unfold starved. simpl. split_and!; try done. by rewrite app_nil_r.
  - rewrite seq_S, foldl_snoc, holesBefore_S. simpl.
    set (t := foldl _ s (seq 0 c)) in *.
    assert (Hh : holesInCol opts t c = holesInCol opts s c).
    { destruct IH as (H1 & H2 & _). by apply holesInCol_same. }
    rewrite Hh. destruct (Nat.ltb_spec 0 (holesInCol opts s c)).
    + assert (G := replenishTiles_starved replenished c (holesInCol opts s c) s _ t
                     (seq 0 (holesInCol opts s c)) Hr IH).
      by rewrite length_seq in G.
    + by replace (holesInCol opts s c) with 0%nat by lia; rewrite Nat.add_0_r.
Qed.

(** [replenishField] on a board with holes and an empty pool: for every hole
    a colour is drawn and a warning is written; no tile object changes, so
    the holes stay; no tween is registered and picking is left as it was. *)
Theorem refill_with_empty_pool (s : Scene) :
  poolArray s = [] -> holesBefore opts s (gridSize opts) <> 0%nat ->
  let s' := replenishField opts rnd s in
  let holes := holesBefore opts s (gridSize opts) in
  tileArray s' = tileArray s /\ tiles s' = tiles s /\ sprites s' = sprites s
  /\ tweens s' = tweens s /\ poolArray s' = []
  /\ counters s' = counters s ++ [0]
  /\ canPick s' = canPick s /\ selectedTile s' = selectedTile s
  /\ drawn s' = (drawn s + holes)%nat
  /\ console s' = console s ++ replicate holes poolWarning
  /\ holesBefore opts s' (gridSize opts) = holes.
Proof.
  intros Hpool Hne s' holes. subst s' holes. unfold replenishField.
  set (s0 := set_counters (counters s ++ [0]) s).
  change (foldl (fun total j => (total + holesInCol opts s0 j)%nat) 0%nat
            (seq 0 (gridSize opts)))
    with (holesBefore opts s (gridSize opts)).
  rewrite (proj2 (Nat.eqb_neq _ _) Hne).
  destruct (refill_starved (length (counters s)) s0 (gridSize opts))
    as (H1 & H2 & H3 & H4 & H5 & H6 & H7 & H8 & H9 & H10); [|done|].
  { unfold s0. simpl. rewrite length_app. simpl. lia. }
  change (holesBefore opts s0) with (holesBefore opts s) in *.
  split_and!; try done.
  by apply holesBefore_same.
Qed.

End EmptyPool.

Lemma refill_with_empty_pool_witness :
  let s := gapBoard in
  let s' := replenishField options4 cycle s in
  let holes := holesBefore options4 s (gridSize options4) in
  tileArray s' = tileArray s /\ tiles s' = tiles s /\ sprites s' = sprites s
  /\ tweens s' = tweens s /\ poolArray s' = []
  /\ counters s' = counters s ++ [0]
  /\ canPick s' = canPick s /\ selectedTile s' = selectedTile s
  /\ drawn s' = (drawn s + holes)%nat
  /\ console s' = console s ++ replicate holes poolWarning
  /\ holesBefore options4 s' (gridSize options4) = holes.
Proof.
  apply (refill_with_empty_pool options4 cycle gapBoard); [reflexivity|].
  apply Nat.eqb_neq. vm_compute. reflexivity.
Defined.

(** ** The data model in every reachable state *)

Lemma foldl_keeps {A B} (P : A -> Prop) (f : A -> B -> A) l s :
  (forall s x, P s -> P (f s x)) -> P s -> P (foldl f s l).
Proof. intros Hf. revert s. induction l as [|x l IH]; simpl; auto. Qed.

Section DataModel.

Variable opts : GameOptions.
Variable rnd : nat -> Z.

(** The grid is square and every tile object has a colour of the game. *)
Definition dataModel (s : Scene) : Prop :=
  square (gridSize opts) (tileArray s)
  /\ Forall (fun v => 0 <= color v < colors opts) (tiles s).

Hypothesis rnd_range : forall k, 0 <= rnd k < colors opts.

Lemma colors_pos : 0 < colors opts.
Proof. specialize (rnd_range 0%nat). lia. Qed.

Lemma tile_range s t :
  dataModel s -> 0 <= color (tile s t) < colors opts.
Proof.
  intros [_ H]. unfold tile. rewrite list_lookup_total_alt.
  destruct (tiles s !! t) as [v|] eqn:E; simpl.
  - by apply (Forall_lookup_1 _ _ _ _ H E).
  - assert (C := colors_pos). simpl. lia.
Qed.

Lemma setTile_model t v s :
  dataModel s -> 0 <= color v < colors opts -> dataModel (setTile t v s).
Proof. intros [H1 H2] Hv. split; [done|]. by apply Forall_insert. Qed.

Lemma setCell_model i j t s : dataModel s -> dataModel (setCell i j t s).
Proof. intros [H1 H2]. split; [by apply square_setCell|done]. Qed.

Lemma tweenTile_model s tile1 tile2 swapBack s' :
  tweenTile opts s tile1 tile2 swapBack = Some s' -> dataModel s -> dataModel s'.
Proof.
  unfold tweenTile. destruct (arrayAt _ _ _); [|done]. simpl. by intros [= <-].
Qed.

Lemma swapTiles_model s tile1 tile2 swapBack :
  dataModel s -> dataModel (sceneOf (swapTiles opts s tile1 tile2 swapBack)).
Proof.
  intros Hm. unfold swapTiles.
  set (s0 := set_canPick false (set_swappingTiles 2 s)).
  assert (Hm0 : dataModel s0) by done.
  destruct (arrayAt _ _ _) as [a1|]; [|done].
  set (s1 := setTile a1 _ s0).
  assert (Hm1 : dataModel s1) by (apply setTile_model; [done|by apply tile_range]).
  destruct (arrayAt _ _ _) as [a2|]; [|done].
  set (s2 := setTile a2 _ s1).
  assert (Hm2 : dataModel s2) by (apply setTile_model; [done|by apply tile_range]).
  destruct (tweenTile _ _ _ _ _) as [s3|] eqn:E3; [|done].
  apply tweenTile_model in E3; [|done].
  destruct (tweenTile opts s3 _ _ _) as [s4|] eqn:E4; [|done].
  by apply tweenTile_model in E4.
Qed.

Lemma destroyTile_model destroyed s ij :
  dataModel s -> dataModel (destroyTile opts destroyed s ij).
Proof.
  intros Hm. destruct ij as [i j]. unfold destroyTile.
  destruct (0 <? entry (removeMap s) (i, j)); [|done].
  apply setTile_model; [done|]. simpl. by apply tile_range.
Qed.

Lemma fallTile_model j s i : dataModel s -> dataModel (fallTile opts j s i).
Proof.
  intros Hm. unfold fallTile.
  destruct (negb _); [|done]. destruct (0 <? _)%nat; [|done].
  apply setCell_model.
  set (s1 := setCell _ _ _ s).
  assert (Hm1 : dataModel s1) by (by apply setCell_model).
  destruct Hm1 as [H1 H2]. split; [done|]. simpl.
  apply Forall_app. split; [done|]. apply Forall_singleton. simpl.
  assert (C := colors_pos). lia.
Qed.

Lemma onAfterTilesDestroyed_model s :
  dataModel s -> dataModel (onAfterTilesDestroyed opts s).
Proof.
  intros Hm. unfold onAfterTilesDestroyed.
  apply foldl_keeps; [|done]. intros t j Ht.
  apply foldl_keeps; [|done]. intros u i Hu. by apply fallTile_model.
Qed.

Lemma replenishTile_model replenished j emptySpots s i :
  dataModel s -> dataModel (replenishTile opts rnd replenished j emptySpots s i).
Proof.
  intros Hm. unfold replenishTile. simpl.
  destruct (reverse (poolArray s)) as [|p rest]; [done|].
  destruct Hm as [H1 H2]. split; [done|]. simpl.
  apply Forall_insert; [done|]. simpl. apply rnd_range.
Qed.

Lemma replenishField_model s : dataModel s -> dataModel (replenishField opts rnd s).
Proof.
  intros Hm. unfold replenishField.
  destruct (_ =? 0)%nat; [done|].
  apply foldl_keeps; [|done]. intros t j Ht. simpl.
  destruct (0 <? _)%nat; [|done].
  apply foldl_keeps; [|done]. intros u i Hu. by apply replenishTile_model.
Qed.

Lemma destroyMarkedTiles_model s :
  dataModel s -> dataModel (destroyMarkedTiles opts rnd s).
Proof.
  intros Hm. unfold destroyMarkedTiles.
  destruct (_ =? 0)%nat.
  - by apply replenishField_model.
  - apply foldl_keeps; [|done]. intros t ij Ht. by apply destroyTile_model.
Qed.

Lemma handleMatches_model s :
  dataModel s -> dataModel (sceneOf (handleMatches opts rnd s)).
Proof.
  intros Hm. unfold handleMatches.
  destruct (markMatches opts HORIZONTAL _) as [s1|] eqn:E1; [|done].
  apply markMatches_frame in E1 as [m1 ->].
  destruct (markMatches opts VERTICAL _) as [s2|] eqn:E2; [|done].
  apply markMatches_frame in E2 as [m2 ->].
  simpl. by apply destroyMarkedTiles_model.
Qed.

Lemma runCallback_model cb s :
  dataModel s -> dataModel (sceneOf (runCallback opts rnd cb s)).
Proof.
  intros Hm. destruct cb as [tile1 tile2 swapBack|i j destroyed|replenished| |];
    simpl; [| | | |done].
  - unfold swapComplete. simpl.
    destruct (_ =? 0); [|done].
    destruct (negb _ && swapBack); [by apply swapTiles_model|].
    destruct (matchInBoard _ _); [by apply handleMatches_model|done].
  - unfold destroyComplete. simpl.
    destruct (_ =? 0); [|done].
    by apply replenishField_model, onAfterTilesDestroyed_model.
  - unfold replenishComplete. simpl.
    destruct (_ =? 0); [|done]. by destruct (matchInBoard _ _).
  - by apply handleMatches_model.
Qed.

Lemma step_model s e s' :
  dataModel s -> step opts rnd s e = Some s' -> dataModel s'.
Proof.
  intros Hm. destruct e as [pointer|pointer| |t|]; simpl.
  - intros [= <-]. unfold tileSelect.
    destruct (canPick s); [|done].
    destruct (tileAt _ _ _ _) as [pickedTile|]; [|done]. simpl.
    destruct (selectedTile s) as [selected|]; [|done].
    destruct (areTheSame _ _ _ _); [done|].
    destruct (areNext _ _ _ _); [|done].
    by apply (swapTiles_model (set_dragging true s)).
  - intros [= <-]. unfold startSwipe.
    destruct (selectedTile s) as [selected|]; [|done].
    destruct (dragging s); [|done].
    destruct (swipeDelta _ _ _) as [deltaRow deltaCol].
    destruct (negb _); [|done].
    destruct (tileAt _ _ _ _) as [pickedTile|]; [|done].
    assert (H := swapTiles_model s selected pickedTile true Hm).
    by destruct (swapTiles _ _ _ _ _).
  - by intros [= <-].
  - destruct (_ && _); [|done]. by intros [= <-].
  - destruct (firstDue (tweens s)) as [[k d]|]; [|done]. simpl.
    destruct (tweens s !! k) as [tw|]; [|done]. simpl.
    intros [= <-]. apply runCallback_model.
    unfold finishTween. by destruct (targets tw).
Qed.

Lemma run_model es s s' :
  dataModel s -> run opts rnd s es = Some s' -> dataModel s'.
Proof.
  unfold run. revert s. induction es as [|e es IH]; intros s Hm; simpl.
  - by intros [= <-].
  - destruct (step opts rnd s e) as [s1|] eqn:E.
    + apply IH. by apply (step_model s e).
    + intros H. exfalso. clear -H. induction es as [|e' es IH]; [done|]. by apply IH.
Qed.

(** *** create establishes it *)

Lemma placeTile_range fuel i j sp s s' :
  placeTile opts rnd fuel i j sp s = Some s' ->
  Forall (fun v => 0 <= color v < colors opts) (tiles s) ->
  Forall (fun v => 0 <= color v < colors opts) (tiles s').
Proof.
  revert s. induction fuel as [|fuel IH]; intros s; [done|].
  rewrite placeTile_S. intros H Hr.
  assert (Hr' : Forall (fun v => 0 <= color v < colors opts)
                  (tiles (rolled rnd i j sp s))).
  { unfold rolled, assignCell. simpl. apply Forall_app. split; [done|].
    apply Forall_singleton. simpl. apply rnd_range. }
  destruct (isMatch _ _ _ _); [by apply (IH _ H)|by simplify_eq].
Qed.

Lemma createRows_range fuel k s s' :
  foldl (createRow opts rnd fuel) (Some s) (seq 0 k) = Some s' ->
  Forall (fun v => 0 <= color v < colors opts) (tiles s) ->
  Forall (fun v => 0 <= color v < colors opts) (tiles s').
Proof.
  assert (Hrow : forall l i s s',
            foldl (createTile opts rnd fuel i) (Some s) l = Some s' ->
            Forall (fun v => 0 <= color v < colors opts) (tiles s) ->
            Forall (fun v => 0 <= color v < colors opts) (tiles s')).
  { intros l i. induction l as [|j l IH] using rev_ind; intros t t'.
    - simpl. by intros [= <-].
    - rewrite foldl_snoc.
      destruct (foldl (createTile opts rnd fuel i) (Some t) l) as [t1|] eqn:E; [|done].
      unfold createTile. simpl. intros H Hr.
      apply (placeTile_range _ _ _ _ _ _ H). simpl. by apply (IH t t1). }
  revert s'. induction k as [|k IH]; intros s'.
  - simpl. by intros [= <-].
  - rewrite seq_S, foldl_snoc. simpl.
    destruct (foldl (createRow opts rnd fuel) (Some s) (seq 0 k)) as [s1|] eqn:E; [|done].
    unfold createRow. simpl. intros H Hr.
    apply (Hrow _ _ _ _ H). simpl. by apply IH.
Qed.

(** When the random source answers within [0 .. colors - 1]: the scene that
    [create] returns, and every scene that a sequence of pointer events,
    waits and completions leads to from it, has a square grid of
    [gridSize] rows and columns, and every tile object, placeholder or
    recoloured, has a colour within [0 .. colors - 1]. *)
Theorem reachable_data_model fuel (s0 s : Scene) (es : list Event) :
  create opts rnd fuel = Some s0 ->
  run opts rnd s0 es = Some s ->
  dataModel s /\ gridOk opts s
  /\ (forall i j, 0 <= colorAt s i j < colors opts).
Proof.
  intros Hc Hrun.
  assert (H0 : dataModel s0).
  { unfold create in Hc.
    set (t0 := set_poolArray [] _) in Hc.
    destruct (foldl (createRow opts rnd fuel) (Some t0) (seq 0 (gridSize opts)))
      as [s1|] eqn:E; [|done].
    simpl in Hc. injection Hc as <-.
    assert (Hp0 : rowsPlaced opts t0 0).
    { unfold rowsPlaced. split_and!; [done|intros; lia..|done]. }
    assert (Hl0 : rowsLaid opts rnd t0 0).
    { unfold rowsLaid. split_and!; try done; intros; lia. }
    assert (Hp := createRows_placed opts rnd fuel _ t0 s1 Hp0 E).
    assert (Hl := createRows_laid opts rnd fuel _ t0 s1 Hp0 Hl0 E).
    apply createRows_range in E; [|by apply Forall_nil].
    split; [|done]. destruct Hp as (Hlen & _). destruct Hl as (_ & _ & Hrows & _).
    split; [done|]. apply Forall_forall. intros row Hin.
    apply list_elem_of_lookup in Hin as [r Hr].
    assert (Hlt := lookup_lt_Some _ _ _ Hr).
    apply list_lookup_total_correct in Hr. rewrite <- Hr. apply Hrows.
    change (tileArray (set_selectedTile None s1)) with (tileArray s1) in Hlt. lia. }
  assert (Hm := run_model es s0 s H0 Hrun).
  assert (Hcol : forall i j, 0 <= colorAt s i j < colors opts).
  { intros i j. by apply tile_range. }
  split; [done|]. split; [|done].
  destruct Hm as [Hsq _]. split; [done|]. intros i j _ _. apply Hcol.
Qed.

End DataModel.

Lemma cycle_range k : 0 <= cycle k < colors gameOptions.
Proof. unfold cycle. simpl. apply Z.mod_pos_bound. lia. Qed.

(** The board that [create] builds from the draws 0, 1, 2, ..., and a
    session on it: a tap, a tap on the neighbour, the two completions of the
    swap. *)
Definition cycleScene : Scene := default newScene (create gameOptions cycle 3).

Definition cycleSession : list Event := tapSwap ++ [complete; complete].

Definition cycleEnd : Scene :=
  default newScene (run gameOptions cycle cycleScene cycleSession).

Lemma reachable_data_model_witness :
  dataModel gameOptions cycleEnd /\ gridOk gameOptions cycleEnd
  /\ (forall i j, 0 <= colorAt cycleEnd i j < colors gameOptions).
Proof.
  apply (reachable_data_model gameOptions cycle cycle_range 3 cycleScene cycleEnd
           cycleSession); vm_compute; reflexivity.
Defined.

(** ** One pass of the cascade *)

Lemma foldl_keeps_in {A B} (P : A -> Prop) (f : A -> B -> A) l s :
  (forall s x, x ∈ l -> P s -> P (f s x)) -> P s -> P (foldl f s l).
Proof.
  revert s. induction l as [|x l IH]; simpl; [done|]. intros s Hf Hs.
  apply IH.
  - intros t y Hy. apply Hf. by right.
  - apply Hf; [left|done].
Qed.

(** Double counting over a rectangle of cells. *)
Lemma count_by_columns (P : nat -> nat -> bool) a b :
  length (filter (fun ij : nat * nat => P ij.1 ij.2 = true)
            (i ← seq 0 a; j ← seq 0 b; [(i, j)]))
  = foldl (fun total j =>
             (total + length (filter (fun i => P i j = true) (seq 0 a)))%nat)
          0%nat (seq 0 b).
Proof.
  set (R a b := length (filter (fun ij : nat * nat => P ij.1 ij.2 = true)
                          (i ← seq 0 a; j ← seq 0 b; [(i, j)]))).
  set (row i b := length (filter (fun ij : nat * nat => P ij.1 ij.2 = true)
                            (j ← seq 0 b; [(i, j)]))).
  set (col a j := length (filter (fun i => P i j = true) (seq 0 a))).
  assert (HR : forall a b, R (S a) b = (R a b + row a b)%nat).
  { intros a' b'. unfold R, row. rewrite seq_S, bind_app, filter_app, length_app.
    simpl. by rewrite app_nil_r. }
  assert (Hrow : forall i b, row i (S b) = (row i b + if P i b then 1 else 0)%nat).
  { intros i b'. unfold row. rewrite seq_S, bind_app, filter_app, length_app.
    simpl. rewrite filter_cons, filter_nil. simpl.
    destruct (P i b'); by case_decide. }
  assert (Hcol : forall a j, col (S a) j = (col a j + if P a j then 1 else 0)%nat).
  { intros a' j. unfold col. rewrite seq_S, filter_app, length_app.
    simpl. rewrite filter_cons, filter_nil.
    destruct (P a' j); by case_decide. }
  assert (HRS : forall a b, R a (S b) = (R a b + col a b)%nat).
  { intros a' b'. induction a' as [|a' IH].
    - done.
    - rewrite !HR, IH, Hrow, Hcol. lia. }
  assert (HR0 : forall a, R a 0%nat = 0%nat).
  { intros a'. induction a' as [|a' IH]; [done|]. by rewrite HR, IH. }
  fold (R a b). induction b as [|b IH].
  - apply HR0.
  - rewrite seq_S, foldl_snoc, <- IH, HRS. done.
Qed.

Section Pass.

Variable opts : GameOptions.
Variable rnd : nat -> Z.

Lemma holes_by_cells s :
  holesBefore opts s (gridSize opts)
  = length (filter (fun ij : nat * nat => emptyAt s ij.1 ij.2 = true) (cells opts)).
Proof.
  symmetry. apply (count_by_columns (fun i j => emptyAt s i j)).
Qed.

(** The grid as the loops need it: square, every cell a tile object of the
    store, no object in two cells. *)
Definition sound (s : Scene) : Prop :=
  square (gridSize opts) (tileArray s)
  /\ refsOk (gridSize opts) s /\ refsDistinct (gridSize opts) s.

Lemma fallTile_frame j s i :
  let s' := fallTile opts j s i in
  poolArray s' = poolArray s /\ console s' = console s /\ canPick s' = canPick s
  /\ counters s' = counters s /\ drawn s' = drawn s
  /\ selectedTile s' = selectedTile s /\ now s' = now s.
Proof.
  unfold fallTile. destruct (negb _); [|done]. by destruct (0 <? _)%nat.
Qed.

Lemma fallTile_sound j s i :
  (j < gridSize opts)%nat -> (i < gridSize opts)%nat ->
  sound s -> sound (fallTile opts j s i).
Proof.
  intros Hj Hi (Hsq & Hrefs & Hdist).
  destruct (emptyAt s i j) eqn:He; [by rewrite fallTile_same by (by left)|].
  destruct (decide (holesBelow opts s i j = 0%nat)) as [Hz|Hz];
    [by rewrite fallTile_same by (by right)|].
  assert (Hb : (i + holesBelow opts s i j < gridSize opts)%nat).
  { rewrite holesBelow_emptiesIn.
    assert (L := emptiesIn_le s j (i + 1) (gridSize opts - (i + 1))). lia. }
  destruct (fallTile_moved opts j s i Hsq Hb Hj He) as (Hcell & Htiles & Hsq');
    [lia|].
  set (u := fallTile opts j s i) in *. set (f := holesBelow opts s i j) in *.
  assert (Hlen : length (tiles u) = S (length (tiles s))).
  { rewrite Htiles, length_app. simpl. lia. }
  split; [done|]. split.
  - intros r c Hr Hc. rewrite Hcell, Hlen. repeat case_decide; try lia.
    + specialize (Hrefs i j Hi Hj). lia.
    + specialize (Hrefs r c Hr Hc). lia.
  - intros r c r' c' Hr Hc Hr' Hc'. rewrite !Hcell.
    assert (Hfresh : forall a b, (a < gridSize opts)%nat -> (b < gridSize opts)%nat ->
              cell s a b <> length (tiles s)).
    { intros a b Ha Hb'. specialize (Hrefs a b Ha Hb'). lia. }
    assert (Hmoved : forall a b, (a < gridSize opts)%nat -> (b < gridSize opts)%nat ->
              (a, b) <> (i, j) -> cell s a b <> cell s i j).
    { intros a b Ha Hb' Hne E. destruct (Hdist a b i j Ha Hb' Hi Hj E). congruence. }
    repeat case_decide; simplify_eq; intros E; try done.
    + by destruct (Hfresh i j).
    + by destruct (Hfresh r' c').
    + symmetry in E. by destruct (Hfresh i j).
    + symmetry in E. by destruct (Hmoved r' c').
    + symmetry in E. by destruct (Hfresh r c).
    + by destruct (Hmoved r c).
    + by apply Hdist.
Qed.

Lemma onAfterTilesDestroyed_sound s :
  sound s -> sound (onAfterTilesDestroyed opts s).
Proof.
  intros Hs. unfold onAfterTilesDestroyed.
  apply foldl_keeps_in; [|done]. intros t j Hj%elem_of_seq Ht.
  apply foldl_keeps_in; [|done]. intros u i Hi Hu.
  apply list_elem_of_In, in_rev, in_seq in Hi.
  apply fallTile_sound; [lia|lia|done].
Qed.

Lemma onAfterTilesDestroyed_frame s :
  let s' := onAfterTilesDestroyed opts s in
  poolArray s' = poolArray s /\ console s' = console s /\ canPick s' = canPick s
  /\ counters s' = counters s /\ drawn s' = drawn s
  /\ selectedTile s' = selectedTile s /\ now s' = now s.
Proof.
  unfold onAfterTilesDestroyed.
  apply (foldl_keeps (fun t => poolArray t = poolArray s /\ console t = console s
           /\ canPick t = canPick s /\ counters t = counters s /\ drawn t = drawn s
           /\ selectedTile t = selectedTile s /\ now t = now s)); [|done].
  intros t j Ht.
  apply (foldl_keeps (fun t => poolArray t = poolArray s /\ console t = console s
           /\ canPick t = canPick s /\ counters t = counters s /\ drawn t = drawn s
           /\ selectedTile t = selectedTile s /\ now t = now s)); [|done].
  intros u i (H1 & H2 & H3 & H4 & H5 & H6 & H7).
  destruct (fallTile_frame j u i) as (G1 & G2 & G3 & G4 & G5 & G6 & G7).
  split_and!; congruence.
Qed.

(** *** The completions of the destroy tweens *)

Lemma run_cons s e es s1 :
  step opts rnd s e = Some s1 ->
  run opts rnd s (e :: es) = run opts rnd s1 es.
Proof. intros E. unfold run. simpl. by rewrite E. Qed.

Lemma filter_ext_elem {A} (P Q : A -> Prop) `{!forall x, Decision (P x)}
    `{!forall x, Decision (Q x)} (l : list A) :
  (forall x, x ∈ l -> P x <-> Q x) -> filter P l = filter Q l.
Proof.
  induction l as [|x l IH]; intros Hext; [done|].
  rewrite !filter_cons, IH by (intros y Hy; apply Hext; by right).
  assert (Hx := Hext x ltac:(left)).
  destruct (decide (P x)), (decide (Q x)); tauto.
Qed.

(** The marked cells, in the order of the loops. *)
Definition markedCells (s : Scene) : list (nat * nat) :=
  filter (fun ij => 0 < entry (removeMap s) ij) (cells opts).

Definition spriteOf (s : Scene) (ij : nat * nat) : nat :=
  tileSprite (tile s (cell s ij.1 ij.2)).

(** The scene after [m] of the destroy tweens of a pass have completed. *)
Definition burning (s : Scene) (m : nat) (t : Scene) : Prop :=
  tileArray t = tileArray s
  /\ tiles t = tiles (destroyMarkedTiles opts rnd s)
  /\ tweens t = map (destroyTween opts s (length (counters s))) (drop m (markedCells s))
  /\ counters t = counters s ++ [Z.of_nat (length (markedCells s) - m)]
  /\ poolArray t = poolArray s ++ map (spriteOf s) (take m (markedCells s))
  /\ console t = console s /\ canPick t = canPick s /\ drawn t = drawn s
  /\ selectedTile t = selectedTile s.

Section Burn.

Variable s : Scene.
Hypothesis Hsound : sound s.
Hypothesis Htw : tweens s = [].
Hypothesis Hmarked : markedCells s <> [].

Lemma burning_start : burning s 0 (destroyMarkedTiles opts rnd s).
Proof.
  destruct Hsound as (Hsq & Hrefs & Hdist).
  assert (Hne : totalToDestroy opts s <> 0%nat).
  { unfold totalToDestroy. fold (markedCells s). by destruct (markedCells s). }
  destruct (destroy_marks_spec opts rnd s Hrefs Hdist Hne)
    as (Harr & Hlen & Hcells & Htweens & Hcounters & Hcon & Hpick & Hsel & Hspr & Hpool
        & Hdrawn).
  unfold burning. rewrite drop_0, take_0, Nat.sub_0_r. simpl. rewrite app_nil_r.
  split_and!; try done. by rewrite Htweens, Htw.
Qed.

Lemma burnt_sprite ij :
  ij ∈ markedCells s ->
  tileSprite (tiles (destroyMarkedTiles opts rnd s) !!! cell s ij.1 ij.2) = spriteOf s ij.
Proof.
  intros Hin. destruct Hsound as (Hsq & Hrefs & Hdist).
  assert (Hne : totalToDestroy opts s <> 0%nat).
  { unfold totalToDestroy. fold (markedCells s). by destruct (markedCells s). }
  destruct (destroy_marks_spec opts rnd s Hrefs Hdist Hne) as (_ & _ & Hcells & _).
  apply list_elem_of_filter in Hin as [Hm Hin]. destruct ij as [i j].
  apply elem_of_cells in Hin as [Hi Hj].
  assert (E := Hcells i j Hi Hj). unfold tile in E. simpl. rewrite E.
  unfold spriteOf. simpl. by destruct (0 <? entry (removeMap s) (i, j)).
Qed.

(** The scene in which the last destroy tween completes, before its
    callback runs. *)
Definition lastBurn (t : Scene) (i j : nat) : Scene :=
  let d := length (counters s) in
  let t := set_counters (<[d := counters t !!! d - 1]> (counters t)) t in
  let sp := tileSprite (tile t (cell t i j)) in
  let t := setSprite sp
    (Sprite.mk (tileSize opts * inject_Z (Z.of_nat j) + tileSize opts / 2)%Q
               (tileSize opts * inject_Z (Z.of_nat i) + tileSize opts / 2)%Q) t in
  set_poolArray (poolArray t ++ [sp]) t.

Lemma destroyComplete_lastBurn t i j :
  destroyComplete opts rnd t i j (length (counters s))
  = if counters (lastBurn t i j) !!! length (counters s) =? 0
    then replenishField opts rnd (onAfterTilesDestroyed opts (lastBurn t i j))
    else lastBurn t i j.
Proof. done. Qed.

Lemma burning_step m t :
  (m < length (markedCells s))%nat -> burning s m t ->
  exists i j t0,
    markedCells s !! m = Some (i, j)
    /\ step opts rnd t complete
       = Some (destroyComplete opts rnd t0 i j (length (counters s)))
    /\ burning s (S m) (lastBurn t0 i j)
    /\ counters (lastBurn t0 i j) !!! length (counters s)
       = Z.of_nat (length (markedCells s) - S m).
Proof.
  intros Hm (H1 & H2 & H3 & H4 & H5 & H6 & H7 & H8 & H9).
  destruct (lookup_lt_is_Some_2 _ _ Hm) as [[i j] Hij].
  assert (Hin : (i, j) ∈ markedCells s) by (by eapply list_elem_of_lookup_2).
  rewrite (drop_S _ _ _ Hij) in H3. simpl in H3.
  set (tw := destroyTween opts s (length (counters s)) (i, j)) in *.
  set (rest := map _ (drop (S m) _)) in *.
  assert (Hall : Forall (fun tw' => due tw <= due tw') rest).
  { apply Forall_forall. intros tw' Hin'. unfold rest in Hin'.
    apply list_elem_of_fmap in Hin' as (ij' & -> & _). simpl. lia. }
  set (t0 := finishTween tw (set_tweens rest (set_now (Z.max (now t) (due tw)) t))).
  exists i, j, t0. split; [done|]. split.
  { by rewrite (step_complete_head opts rnd t tw rest H3 Hall). }
  assert (T1 : tileArray t0 = tileArray s) by done.
  assert (T2 : tiles t0 = tiles (destroyMarkedTiles opts rnd s)) by done.
  assert (T4 : counters t0 = counters s ++ [Z.of_nat (length (markedCells s) - m)]) by done.
  assert (T5 : poolArray t0 = poolArray s ++ map (spriteOf s) (take m (markedCells s)))
    by done.
  assert (T3 : tweens t0 = rest) by done.
  assert (T6 : console t0 = console t /\ canPick t0 = canPick t /\ drawn t0 = drawn t
               /\ selectedTile t0 = selectedTile t) by done.
  destruct T6 as (T6 & T7 & T8 & T9).
  clearbody t0.
  assert (Hc : counters (lastBurn t0 i j)
               = counters s ++ [Z.of_nat (length (markedCells s) - S m)]).
  { unfold lastBurn. simpl. rewrite T4.
    rewrite lookup_total_app_r by lia. rewrite Nat.sub_diag. simpl.
    rewrite insert_app_r_alt by lia. rewrite Nat.sub_diag. simpl.
    do 2 f_equal. lia. }
  split.
  - unfold burning. split_and!; try done; try (simpl; congruence).
    unfold lastBurn. simpl. rewrite T5, <- app_assoc. f_equal.
    rewrite (take_S_r _ _ _ Hij), map_app. simpl. do 2 f_equal.
    unfold tile, cell. simpl. rewrite T1, T2.
    by apply (burnt_sprite (i, j)).
  - rewrite Hc. rewrite lookup_total_app_r by lia. by rewrite Nat.sub_diag.
Qed.

Lemma burning_run n m t :
  (m + n < length (markedCells s))%nat -> burning s m t ->
  exists t', run opts rnd t (replicate n complete) = Some t' /\ burning s (m + n) t'.
Proof.
  revert m t. induction n as [|n IH]; intros m t Hm Hb.
  - exists t. by rewrite Nat.add_0_r.
  - destruct (burning_step m t) as (i & j & t0 & Hij & Hstep & Hb' & Hc); [lia|done|].
    rewrite destroyComplete_lastBurn, Hc in Hstep.
    rewrite (proj2 (Z.eqb_neq _ _)) in Hstep by lia.
    simpl. rewrite (run_cons _ _ _ _ Hstep).
    replace (m + S n)%nat with (S m + n)%nat by lia.
    apply IH; [lia|done].
Qed.

Hypothesis Hfull : noHoles opts s = true.

Lemma full_occupied i j :
  (i < gridSize opts)%nat -> (j < gridSize opts)%nat -> emptyAt s i j = false.
Proof.
  intros Hi Hj. unfold noHoles in Hfull. rewrite forallb_forall in Hfull.
  specialize (Hfull (i, j)). simpl in Hfull.
  apply negb_true_iff, Hfull, list_elem_of_In, elem_of_cells. done.
Qed.

Lemma burnt_sound t m : burning s m t -> sound t.
Proof.
  intros (H1 & H2 & _). destruct Hsound as (Hsq & Hrefs & Hdist).
  assert (Hne : totalToDestroy opts s <> 0%nat).
  { unfold totalToDestroy. fold (markedCells s). by destruct (markedCells s). }
  destruct (destroy_marks_spec opts rnd s Hrefs Hdist Hne) as (_ & Hlen & _).
  unfold sound, refsOk, refsDistinct, cell. rewrite H1, H2, Hlen. done.
Qed.

Lemma burnt_holes t m i j :
  burning s m t -> (i < gridSize opts)%nat -> (j < gridSize opts)%nat ->
  emptyAt t i j = (0 <? entry (removeMap s) (i, j)).
Proof.
  intros (H1 & H2 & _) Hi Hj. destruct Hsound as (Hsq & Hrefs & Hdist).
  assert (Hne : totalToDestroy opts s <> 0%nat).
  { unfold totalToDestroy. fold (markedCells s). by destruct (markedCells s). }
  destruct (destroy_marks_spec opts rnd s Hrefs Hdist Hne) as (_ & _ & Hcells & _).
  assert (E := Hcells i j Hi Hj). unfold tile in E.
  unfold emptyAt, tile, cell. rewrite H1, H2. fold (cell s i j). rewrite E.
  destruct (0 <? entry (removeMap s) (i, j)); [done|].
  by apply full_occupied.
Qed.

Lemma burnt_count t m :
  burning s m t -> holesBefore opts t (gridSize opts) = length (markedCells s).
Proof.
  intros Hb. rewrite holes_by_cells. unfold markedCells. f_equal.
  apply filter_ext_elem. intros [i j] Hin. apply elem_of_cells in Hin as [Hi Hj].
  simpl. rewrite (burnt_holes t m i j Hb Hi Hj). apply Z.ltb_lt.
Qed.

End Burn.

(** *** The refill after the compaction *)

Lemma holesBefore_cols s t c :
  (forall j, (j < c)%nat -> holesInCol opts t j = holesInCol opts s j) ->
  holesBefore opts t c = holesBefore opts s c.
Proof.
  induction c as [|c IH]; intros H; [done|].
  rewrite !holesBefore_S, IH, H by (intros; try apply H; lia). done.
Qed.

(** What the refill loops do to the draws, the pool and the console: each
    turn draws a colour and either pops a sprite or writes a line. *)
Definition balanced (s t : Scene) : Prop :=
  exists w, console t = console s ++ w
    /\ (drawn t + length (poolArray t)
        = drawn s + length (poolArray s) + length w)%nat.

Lemma replenishTile_balanced replenished j emptySpots s t i :
  balanced s t -> balanced s (replenishTile opts rnd replenished j emptySpots t i).
Proof.
  intros (w & Hw & Hd). unfold replenishTile. simpl.
  destruct (reverse (poolArray t)) as [|p rest] eqn:E.
  - exists (w ++ [poolWarning]). simpl.
    change (warn logger _ (console t)) with (console t ++ [poolWarning]).
    rewrite Hw, <- app_assoc. split; [done|]. rewrite length_app. simpl. lia.
  - exists w. simpl. split; [done|]. rewrite length_reverse.
    apply (f_equal length) in E. rewrite length_reverse in E. simpl in E. lia.
Qed.

Lemma refill_balanced replenished s l :
  balanced s
    (foldl (fun s j =>
              let emptySpots := holesInCol opts s j in
              if (0 <? emptySpots)%nat
              then foldl (replenishTile opts rnd replenished j emptySpots) s (seq 0 emptySpots)
              else s)
           s l).
Proof.
  apply (foldl_keeps (balanced s)).
  - intros t j Ht. simpl. destruct (0 <? _)%nat; [|done].
    apply (foldl_keeps (balanced s)); [|done].
    intros u i Hu. by apply replenishTile_balanced.
  - exists []. rewrite app_nil_r. split; [done|]. simpl. lia.
Qed.

(** Compaction and refill of a board whose holes the pool can fill. *)
Lemma compact_refill b :
  sound b ->
  holesBefore opts b (gridSize opts) <> 0%nat ->
  (holesBefore opts b (gridSize opts) <= length (poolArray b))%nat ->
  let v := replenishField opts rnd (onAfterTilesDestroyed opts b) in
  noHoles opts v = true /\ sound v
  /\ length (poolArray v)
     = (length (poolArray b) - holesBefore opts b (gridSize opts))%nat
  /\ console v = console b /\ canPick v = canPick b
  /\ drawn v = (drawn b + holesBefore opts b (gridSize opts))%nat.
Proof.
  intros Hb Hne Hpool v.
  assert (Hu := onAfterTilesDestroyed_sound b Hb).
  destruct (onAfterTilesDestroyed_frame b) as (F1 & F2 & F3 & F4 & F5 & F6 & F7).
  destruct Hb as (Hsq & Hrefs & Hdist).
  destruct (passInv_run opts b Hsq Hrefs (gridSize opts) (le_n _))
    as (_ & _ & _ & _ & _ & _ & Hemp).
  fold (onAfterTilesDestroyed opts b) in Hemp.
  set (u := onAfterTilesDestroyed opts b) in *.
  assert (Hcol : forall j, (j < gridSize opts)%nat ->
            holesInCol opts u j = holesInCol opts b j).
  { intros j Hj. rewrite (holesInCol_emptiesIn opts u).
    apply emptiesIn_top.
    - rewrite holesInCol_emptiesIn. apply emptiesIn_le.
    - intros r Hr. apply Hemp; [done|lia]. }
  assert (Htot : holesBefore opts u (gridSize opts) = holesBefore opts b (gridSize opts))
    by (by apply holesBefore_cols).
  destruct Hu as (Hsqu & Hrefsu & Hdistu).
  subst v. unfold replenishField.
  set (s0 := set_counters (counters u ++ [0]) u).
  change (foldl (fun total j => (total + holesInCol opts s0 j)%nat) 0%nat
            (seq 0 (gridSize opts)))
    with (holesBefore opts u (gridSize opts)).
  rewrite Htot, (proj2 (Nat.eqb_neq _ _) Hne).
  assert (Hpool0 : (holesBefore opts s0 (gridSize opts) <= length (poolArray s0))%nat).
  { change (holesBefore opts u (gridSize opts) <= length (poolArray u))%nat.
    rewrite Htot, F1. done. }
  destruct (refillInv_run opts rnd (length (counters u)) s0 (gridSize opts)
              Hrefsu Hdistu (le_n _) Hpool0)
    as (R1 & R2 & R3 & R4 & R5 & R6 & R7 & R8).
  destruct (refill_balanced (length (counters u)) s0 (seq 0 (gridSize opts)))
    as (w & Hw & Hbal).
  set (v := foldl _ s0 (seq 0 (gridSize opts))) in *.
  change (holesBefore opts s0) with (holesBefore opts u) in *.
  change (holesInCol opts s0) with (holesInCol opts u) in *.
  change (cell s0) with (cell u) in *. change (tiles s0) with (tiles u) in *.
  change (poolArray s0) with (poolArray u) in *.
  change (drawn s0) with (drawn u) in *. change (console s0) with (console u) in *.
  change (canPick s0) with (canPick u) in *.
  change (tileArray s0) with (tileArray u) in *.
  rewrite Htot in *.
  assert (Hcellv : forall i j, cell v i j = cell u i j) by (intros; unfold cell; by rewrite R1).
  split_and!.
  - unfold noHoles. apply forallb_forall. intros [i j] Hin.
    apply list_elem_of_In, elem_of_cells in Hin as [Hi Hj]. simpl.
    apply negb_true_iff. unfold emptyAt, tile. rewrite Hcellv.
    destruct (decide (i < holesInCol opts u j)%nat) as [Hlt|Hge].
    + by destruct (R5 i j Hj Hlt) as [_ ?].
    + rewrite (R6 i j Hi Hj) by (right; lia).
      destruct (isEmpty (tiles u !!! cell u i j)) eqn:E; [|done].
      exfalso. apply Hge. rewrite Hcol by done. by apply (Hemp i j Hj Hi).
  - unfold sound, refsOk, refsDistinct. setoid_rewrite Hcellv. rewrite R1, R2. done.
  - rewrite R4, F1. done.
  - rewrite Hw, F2. assert (w = []) as ->; [|by rewrite app_nil_r].
    apply nil_length_inv. rewrite F1, F5 in *. lia.
  - by rewrite R7.
  - rewrite R3, F5. done.
Qed.

(** A pass of the cascade, from [destroyMarkedTiles] to the refill. On a
    board without holes whose cells hold distinct tile objects, with no
    tween pending and [k >= 1] cells marked: the [k] destroy tweens complete
    one after the other; the last completion compacts the columns and
    refills the board. Then every cell is occupied again, the pool is as
    long as before the pass (each destroyed tile gave its sprite, each new
    tile took one), [k] colours were drawn, no warning was written and
    picking is left as it was. *)
Theorem cascade_pass_refills (s : Scene) :
  sound s -> noHoles opts s = true -> tweens s = [] ->
  totalToDestroy opts s <> 0%nat ->
  let k := totalToDestroy opts s in
  exists s',
    run opts rnd (destroyMarkedTiles opts rnd s) (replicate k complete) = Some s'
    /\ noHoles opts s' = true /\ sound s'
    /\ length (poolArray s') = length (poolArray s)
    /\ drawn s' = (drawn s + k)%nat
    /\ console s' = console s /\ canPick s' = canPick s.
Proof.
  intros Hsound Hfull Htw Hne k.
  assert (Hmarked : markedCells s <> []).
  { unfold totalToDestroy in Hne. fold (markedCells s) in Hne.
    by destruct (markedCells s). }
  assert (Hk : k = length (markedCells s)) by done.
  destruct (burning_run s Hsound Hmarked (k - 1) 0 (destroyMarkedTiles opts rnd s))
    as (t & Hrun & Hb); [lia|by apply burning_start|].
  destruct (burning_step s Hsound Hmarked (k - 1) t) as (i & j & t0 & Hij & Hstep & Hb' & Hc);
    [lia|done|].
  rewrite destroyComplete_lastBurn, Hc in Hstep.
  replace (length (markedCells s) - S (k - 1))%nat with 0%nat in Hstep by lia.
  simpl in Hstep.
  set (b := lastBurn s t0 i j) in *.
  replace (S (k - 1)) with k in Hb' by lia.
  assert (Hholes := burnt_count s Hsound Hmarked Hfull b k Hb').
  assert (Hbs := burnt_sound s Hsound Hmarked b k Hb').
  destruct Hb' as (H1 & H2 & H3 & H4 & H5 & H6 & H7 & H8 & H9).
  assert (Hlenpool : length (poolArray b) = (length (poolArray s) + k)%nat).
  { rewrite H5, length_app, length_map, length_take. lia. }
  destruct (compact_refill b Hbs) as (V1 & V2 & V3 & V4 & V5 & V6); [lia|lia|].
  eexists. split.
  - replace k with (k - 1 + 1)%nat at 1 by lia.
    rewrite replicate_add. unfold run in *. rewrite foldl_app, Hrun. simpl.
    by rewrite Hstep.
  - split_and!; try done; try congruence; lia.
Qed.

End Pass.

Lemma matchMasked_sound : sound gameOptions matchMasked.
Proof.
  split; [|split].
  - apply squareb_sound. vm_compute. reflexivity.
  - apply refsOkb_sound. vm_compute. reflexivity.
  - apply refsDistinctb_sound. vm_compute. reflexivity.
Qed.

Lemma cascade_pass_refills_witness :
  let s := matchMasked in
  let k := totalToDestroy gameOptions s in
  exists s',
    run gameOptions cycle (destroyMarkedTiles gameOptions cycle s) (replicate k complete)
    = Some s'
    /\ noHoles gameOptions s' = true /\ sound gameOptions s'
    /\ length (poolArray s') = length (poolArray s)
    /\ drawn s' = (drawn s + k)%nat
    /\ console s' = console s /\ canPick s' = canPick s.
Proof.
  apply (cascade_pass_refills gameOptions cycle matchMasked).
  - apply matchMasked_sound.
  - vm_compute. reflexivity.
  - reflexivity.
  - apply Nat.eqb_neq. vm_compute. reflexivity.
Defined.

(** ** A swap that makes a match *)

Section SwapMatch.

Variable opts : GameOptions.
Variable rnd : nat -> Z.

(** The cells on a run, in the order of the loops. *)
Definition runCells (s : Scene) : list (nat * nat) :=
  filter (fun ij : nat * nat =>
            onHorizontalRun opts s ij.1 ij.2 || onVerticalRun opts s ij.1 ij.2 = true)
         (cells opts).

Lemma handleMatches_spec (s : Scene) :
  gridOk opts s -> refsOk (gridSize opts) s -> refsDistinct (gridSize opts) s ->
  matchInBoard opts s = true ->
  exists s',
    handleMatches opts rnd s = Done s'
    /\ tileArray s' = tileArray s /\ length (tiles s') = length (tiles s)
    /\ (forall i j, (i < gridSize opts)%nat -> (j < gridSize opts)%nat ->
          tile s' (cell s i j)
          = if onHorizontalRun opts s i j || onVerticalRun opts s i j
            then emptied (tile s (cell s i j)) else tile s (cell s i j))
    /\ runCells s <> []
    /\ tweens s' = tweens s
                   ++ map (destroyTween opts s (length (counters s))) (runCells s)
    /\ counters s' = counters s ++ [Z.of_nat (length (runCells s))]
    /\ console s' = console s /\ canPick s' = canPick s
    /\ selectedTile s' = selectedTile s
    /\ sprites s' = sprites s /\ poolArray s' = poolArray s /\ drawn s' = drawn s.
Proof.
  intros Hok Hrefs Hdist Hm.
  destruct (scanBoard_spec opts s Hok) as (m & Hscan & _ & He).
  unfold scanBoard in Hscan. unfold handleMatches.
  destruct (markMatches opts HORIZONTAL _) as [s1|] eqn:E1; [|done].
  simpl in Hscan.
  destruct (markMatches opts VERTICAL s1) as [s2|] eqn:E2; [|done].
  simpl in Hscan. injection Hscan as Hscan.
  apply markMatches_frame in E1 as [m1 ->], E2 as [m2 ->].
  simpl in Hscan. subst m2.
  set (s2 := set_removeMap m _).
  destruct Hok as [Hsq Hcol].
  assert (Hmarked : filter (fun ij => 0 < entry (removeMap s2) ij) (cells opts)
                    = runCells s).
  { apply filter_ext_elem. intros [i j] Hin. apply elem_of_cells in Hin as [Hi Hj].
    simpl. rewrite (He i j Hi Hj).
    destruct (onHorizontalRun opts s i j), (onVerticalRun opts s i j); simpl;
      split; try done; lia. }
  assert (Hne : totalToDestroy opts s2 <> 0%nat).
  { apply totalToDestroy_pos. simpl.
    apply (matchInBoard_runs opts s Hsq) in Hm as (r & c & Hr & Hc & Hrun).
    exists r, c. split; [done|]. split; [done|]. rewrite He by done.
    destruct (onHorizontalRun opts s r c), (onVerticalRun opts s r c); simpl in *;
      done || lia. }
  destruct (destroy_marks_spec opts rnd s2 Hrefs Hdist Hne)
    as (Harr & Hlen & Hcells & Htweens & Hcounters & Hcon & Hpick & Hsel & Hspr & Hpool
        & Hdrawn).
  eexists. split; [done|]. simpl.
  unfold totalToDestroy in Hne, Hcounters. rewrite Hmarked in *.
  split_and!; try done.
  - intros i j Hi Hj. assert (E := Hcells i j Hi Hj).
    change (cell s2 i j) with (cell s i j) in E. change (tile s2) with (tile s) in E.
    change (removeMap s2) with m in E. rewrite E, (He i j Hi Hj).
    by destruct (onHorizontalRun opts s i j), (onVerticalRun opts s i j).
  - by destruct (runCells s).
Qed.

(** What the match tests and the run predicates read. *)
Lemma board_same (s t : Scene) :
  tileArray t = tileArray s -> tiles t = tiles s ->
  matchInBoard opts t = matchInBoard opts s
  /\ (forall i j, onHorizontalRun opts t i j = onHorizontalRun opts s i j)
  /\ (forall i j, onVerticalRun opts t i j = onVerticalRun opts s i j)
  /\ (forall i j, colorAt t i j = colorAt s i j)
  /\ (forall i j, emptyAt t i j = emptyAt s i j)
  /\ (forall i j, cell t i j = cell s i j).
Proof.
  intros H1 H2.
  unfold matchInBoard, onHorizontalRun, onVerticalRun, isMatch, isHorizontalMatch,
    isVerticalMatch, sameColors, tileAt, colorAt, emptyAt, tile, cell.
  by rewrite H1, H2.
Qed.

(** A swap that makes a match is kept and starts the destroy pass. On a
    board at rest (colours non-negative), the swap of two neighbouring cells
    after which the board has a match: when the two tweens have completed,
    the colours are the swapped ones, the holes are the cells on a run of the
    swapped board, one destroy tween per such cell is pending, picking is off,
    and the sprite of every tile sits in the cell of the tile (the two
    sprites have changed place). *)
Theorem matching_swap_starts_pass (s : Scene) (r1 c1 r2 c2 : nat) :
  (0 < tileSize opts)%Q ->
  resting opts s = true -> gridOk opts s ->
  (r1 < gridSize opts)%nat -> (c1 < gridSize opts)%nat ->
  (r2 < gridSize opts)%nat -> (c2 < gridSize opts)%nat ->
  areNext opts s (cell s r1 c1) (cell s r2 c2) = true ->
  let tile1 := cell s r1 c1 in
  let tile2 := cell s r2 c2 in
  let s1 := sceneOf (swapTiles opts s tile1 tile2 true) in
  matchInBoard opts s1 = true ->
  exists s3,
    run opts rnd s1 [complete; complete] = Some s3
    /\ (forall i j, (i < gridSize opts)%nat -> (j < gridSize opts)%nat ->
          cell s3 i j = cell s i j
          /\ colorAt s3 i j = colorAt s1 i j
          /\ (emptyAt s3 i j = true <->
              emptyAt s i j = true \/ onRowRun opts s1 i j \/ onColumnRun opts s1 i j)
          /\ getTileRow opts s3 (cell s3 i j) = Z.of_nat i
          /\ getTileCol opts s3 (cell s3 i j) = Z.of_nat j)
    /\ colorAt s1 r1 c1 = colorAt s r2 c2
    /\ colorAt s1 r2 c2 = colorAt s r1 c1
    /\ (forall i j, (i < gridSize opts)%nat -> (j < gridSize opts)%nat ->
          (i, j) <> (r1, c1) -> (i, j) <> (r2, c2) -> colorAt s1 i j = colorAt s i j)
    /\ runCells s1 <> []
    /\ map onComplete (tweens s3)
       = map (fun ij : nat * nat => onDestroyComplete ij.1 ij.2 (length (counters s)))
             (runCells s1)
    /\ canPick s3 = false.
Proof.
  intros Hts Hrest [_ Hcol] Hr1 Hc1 Hr2 Hc2 Hnext tile1 tile2 s1 Hmatch.
  destruct (resting_sound opts s Hrest) as (Hsq & Hrefs & Hdist & Hpos & Htw).
  destruct (Hpos r1 c1 Hr1 Hc1) as (HR1 & HC1 & HS1).
  destruct (Hpos r2 c2 Hr2 Hc2) as (HR2 & HC2 & HS2).
  fold tile1 in HR1, HC1, HS1. fold tile2 in HR2, HC2, HS2.
  assert (Hcells : (r1, c1) <> (r2, c2)).
  { intros [= <- <-]. unfold areNext in Hnext. fold tile1 in Hnext.
    rewrite !Z.sub_diag in Hnext. done. }
  assert (Hne : tile1 <> tile2).
  { intros Heq. apply Hdist in Heq; [|done..]. destruct Heq. congruence. }
  assert (Hv1 : (tile1 < length (tiles s))%nat) by by apply Hrefs.
  assert (Hv2 : (tile2 < length (tiles s))%nat) by by apply Hrefs.
  set (pA := tileSprite (tile s tile1)) in *.
  set (pB := tileSprite (tile s tile2)) in *.
  (* distinct cells have distinct sprites: their positions differ *)
  assert (Hsprites : forall i j i' j', (i < gridSize opts)%nat -> (j < gridSize opts)%nat ->
            (i' < gridSize opts)%nat -> (j' < gridSize opts)%nat ->
            tileSprite (tile s (cell s i j)) = tileSprite (tile s (cell s i' j')) ->
            (i, j) = (i', j')).
  { intros i j i' j' Hi Hj Hi' Hj' Heq.
    destruct (Hpos i j Hi Hj) as (R & C & _). destruct (Hpos i' j' Hi' Hj') as (R' & C' & _).
    unfold getTileRow, getTileCol in R, C, R', C'. rewrite Heq in R, C.
    f_equal; lia. }
  assert (Hs1 : s1 = swapped opts s tile1 tile2 r1 c1 r2 c2 true).
  { unfold s1. by rewrite (swapTiles_spec opts s tile1 tile2 r1 c1 r2 c2). }
  clearbody s1. subst s1.
  set (s1 := swapped opts s tile1 tile2 r1 c1 r2 c2 true) in *.
  set (twA := {| due := now s + swapSpeed opts; targets := Some pA;
                 toX := Some (center opts (Z.of_nat c2));
                 toY := Some (center opts (Z.of_nat r2));
                 onComplete := onSwapComplete tile1 tile2 true |}).
  set (twB := {| due := now s + swapSpeed opts; targets := Some pB;
                 toX := Some (center opts (Z.of_nat c1));
                 toY := Some (center opts (Z.of_nat r1));
                 onComplete := onSwapComplete tile2 tile1 true |}).
  assert (Htw1 : tweens s1 = [twA; twB]).
  { unfold s1, swapped. cbn [tweens]. by rewrite Htw. }
  (* the tile objects after the swap *)
  assert (Hti1 : tiles s1 !!! tile1
    = {| color := color (tile s tile2); tileSprite := pB;
         isEmpty := isEmpty (tile s tile1) |}).
  { unfold s1, swapped. cbn [tiles].
    rewrite list_lookup_total_insert_ne by congruence.
    by rewrite list_lookup_total_insert_eq. }
  assert (Hti2 : tiles s1 !!! tile2
    = {| color := color (tile s tile1); tileSprite := pA;
         isEmpty := isEmpty (tile s tile2) |}).
  { unfold s1, swapped. cbn [tiles].
    by rewrite list_lookup_total_insert_eq by (rewrite length_insert; lia). }
  assert (Hti : forall t, t <> tile1 -> t <> tile2 -> tiles s1 !!! t = tiles s !!! t).
  { intros t H1 H2. unfold s1, swapped. cbn [tiles].
    by rewrite !list_lookup_total_insert_ne by congruence. }
  assert (Hother : forall i j, (i < gridSize opts)%nat -> (j < gridSize opts)%nat ->
            (i, j) <> (r1, c1) -> (i, j) <> (r2, c2) ->
            cell s i j <> tile1 /\ cell s i j <> tile2).
  { intros i j Hi Hj N1 N2. split; intros E.
    - apply N1. by destruct (Hdist i j r1 c1 Hi Hj Hr1 Hc1 E) as [-> ->].
    - apply N2. by destruct (Hdist i j r2 c2 Hi Hj Hr2 Hc2 E) as [-> ->]. }
  (* first completion *)
  set (a := set_swappingTiles 1
              (finishTween twA (set_tweens [twB]
                 (set_now (Z.max (now s1) (due twA)) s1)))).
  assert (Hstep1 : step opts rnd s1 complete = Some a).
  { rewrite (step_complete_head opts rnd s1 twA [twB] Htw1)
      by (apply Forall_singleton; simpl; lia).
    done. }
  (* second completion *)
  set (b := set_swappingTiles 0
              (finishTween twB (set_tweens []
                 (set_now (Z.max (now a) (due twB)) a)))).
  assert (Hb1 : tileArray b = tileArray s1) by done.
  assert (Hb2 : tiles b = tiles s1) by done.
  destruct (board_same s1 b Hb1 Hb2) as (Bm & Bh & Bv & Bc & Be & Bcell).
  assert (Hstep2 : step opts rnd a complete = Some (sceneOf (handleMatches opts rnd b))).
  { rewrite (step_complete_head opts rnd a twB []) by done.
    cbn [onComplete twB runCallback]. unfold swapComplete.
    change (swappingTiles (finishTween twB _)) with 1.
    change (1 - 1) with 0. fold b.
    change (swappingTiles b =? 0) with true. cbv iota.
    by rewrite Bm, Hmatch. }
  (* the board on which handleMatches runs *)
  assert (Hcol1 : forall i j, (i < gridSize opts)%nat -> (j < gridSize opts)%nat ->
            colorAt s1 i j
            = if decide ((i, j) = (r1, c1)) then colorAt s r2 c2
              else if decide ((i, j) = (r2, c2)) then colorAt s r1 c1
              else colorAt s i j).
  { intros i j Hi Hj. unfold colorAt, tile.
    change (cell s1 i j) with (cell s i j).
    destruct (decide ((i, j) = (r1, c1))) as [[= -> ->]|N1].
    - fold tile1. by rewrite Hti1.
    - destruct (decide ((i, j) = (r2, c2))) as [[= -> ->]|N2].
      + fold tile2. by rewrite Hti2.
      + destruct (Hother i j Hi Hj N1 N2). by rewrite Hti. }
  assert (Hokb : gridOk opts b).
  { split; [done|]. intros i j Hi Hj. rewrite Bc, (Hcol1 i j Hi Hj).
    repeat case_decide; by apply Hcol. }
  assert (Hrefsb : refsOk (gridSize opts) b).
  { intros i j Hi Hj. rewrite Bcell, Hb2. unfold s1, swapped. cbn [tiles].
    rewrite !length_insert. by apply Hrefs. }
  assert (Hdistb : refsDistinct (gridSize opts) b).
  { intros i j i' j' Hi Hj Hi' Hj'. rewrite !Bcell. by apply Hdist. }
  destruct (handleMatches_spec b Hokb Hrefsb Hdistb) as
    (s3 & H3 & Harr3 & Hlen3 & Ht3 & Hrun3 & Htw3 & Hc3 & Hcon3 & Hpick3 & Hsel3
     & Hspr3 & Hpool3 & Hdrawn3); [by rewrite Bm|].
  rewrite H3 in Hstep2. simpl in Hstep2.
  assert (Hrc : runCells b = runCells s1).
  { unfold runCells. apply filter_ext_elem. intros [i j] _. simpl. by rewrite Bh, Bv. }
  rewrite Hrc in *.
  assert (Hcell3 : forall i j, cell s3 i j = cell s i j).
  { intros i j. unfold cell. by rewrite Harr3. }
  (* the sprites after the two tweens *)
  assert (Hsp : pA <> pB).
  { intros Heq. apply Hcells. by apply Hsprites. }
  assert (HspA : sprites s3 !!! pA
    = Sprite.mk (center opts (Z.of_nat c2)) (center opts (Z.of_nat r2))).
  { rewrite Hspr3. unfold b, a, finishTween. cbn [targets twA twB sprites setSprite set_sprites
      set_swappingTiles set_tweens set_now toX toY default].
    change (sprites s1) with (sprites s).
    rewrite list_lookup_total_insert_ne by congruence.
    by rewrite list_lookup_total_insert_eq. }
  assert (HspB : sprites s3 !!! pB
    = Sprite.mk (center opts (Z.of_nat c1)) (center opts (Z.of_nat r1))).
  { rewrite Hspr3. unfold b, a, finishTween. cbn [targets twA twB sprites setSprite set_sprites
      set_swappingTiles set_tweens set_now toX toY default].
    change (sprites s1) with (sprites s).
    by rewrite list_lookup_total_insert_eq by (rewrite length_insert; lia). }
  assert (HspO : forall p, p <> pA -> p <> pB -> sprites s3 !!! p = sprites s !!! p).
  { intros p N1 N2. rewrite Hspr3. unfold b, a, finishTween.
    cbn [targets twA twB sprites setSprite set_sprites
      set_swappingTiles set_tweens set_now toX toY default].
    by rewrite !list_lookup_total_insert_ne by congruence. }
  exists s3. split.
  { change (run opts rnd s1 [complete; complete])
      with (step opts rnd s1 complete ≫= (fun s' => step opts rnd s' complete)).
    rewrite Hstep1. exact Hstep2. }
  split_and!.
  - intros i j Hi Hj. rewrite Hcell3.
    assert (E := Ht3 i j Hi Hj). rewrite Bcell in E. change (cell s1 i j) with (cell s i j) in E.
    assert (Eb : tile b (cell s i j) = tiles s1 !!! cell s i j) by (unfold tile; by rewrite Hb2).
    rewrite Eb, Bh, Bv in E.
    assert (Hsq1 : square (gridSize opts) (tileArray s1)) by done.
    unfold colorAt, emptyAt. rewrite ?Hcell3.
    change (cell s1 i j) with (cell s i j).
    rewrite <- (onHorizontalRun_iff opts s1 i j Hsq1 Hi).
    rewrite <- (onVerticalRun_iff opts s1 i j Hsq1 Hj).
    assert (Hem : isEmpty (tiles s1 !!! cell s i j) = isEmpty (tile s (cell s i j))).
    { destruct (decide ((i, j) = (r1, c1))) as [[= -> ->]|N1];
        [fold tile1; by rewrite Hti1|].
      destruct (decide ((i, j) = (r2, c2))) as [[= -> ->]|N2];
        [fold tile2; by rewrite Hti2|].
      destruct (Hother i j Hi Hj N1 N2). by rewrite Hti. }
    assert (Hpos3 : getTileRow opts s3 (cell s i j) = Z.of_nat i
                    /\ getTileCol opts s3 (cell s i j) = Z.of_nat j).
    { unfold getTileRow, getTileCol, sprite. rewrite E.
      replace (tileSprite (if onHorizontalRun opts s1 i j || onVerticalRun opts s1 i j
                 then emptied (tiles s1 !!! cell s i j) else tiles s1 !!! cell s i j))
        with (tileSprite (tiles s1 !!! cell s i j)) by (by destruct (_ || _)).
      destruct (decide ((i, j) = (r1, c1))) as [[= -> ->]|N1].
      { fold tile1. rewrite Hti1. cbn [tileSprite]. rewrite HspB. cbn [Sprite.x Sprite.y].
        by rewrite !floor_center. }
      destruct (decide ((i, j) = (r2, c2))) as [[= -> ->]|N2].
      { fold tile2. rewrite Hti2. cbn [tileSprite]. rewrite HspA. cbn [Sprite.x Sprite.y].
        by rewrite !floor_center. }
      destruct (Hother i j Hi Hj N1 N2) as [O1 O2]. rewrite (Hti _ O1 O2).
      destruct (Hpos i j Hi Hj) as (R & C & _).
      rewrite HspO; [done| |].
      - intros Eq. apply N1. by apply Hsprites.
      - intros Eq. apply N2. by apply Hsprites. }
    split_and!; [done| |  |apply Hpos3|apply Hpos3].
    + rewrite E. unfold tile. by destruct (_ || _).
    + rewrite E.
      destruct (onHorizontalRun opts s1 i j), (onVerticalRun opts s1 i j);
        cbn [orb emptied isEmpty]; rewrite ?Hem; intuition congruence.
  - rewrite (Hcol1 r1 c1 Hr1 Hc1). by rewrite decide_True.
  - rewrite (Hcol1 r2 c2 Hr2 Hc2). rewrite decide_False by congruence.
    by rewrite decide_True.
  - intros i j Hi Hj N1 N2. rewrite (Hcol1 i j Hi Hj).
    by rewrite !decide_False.
  - done.
  - rewrite Htw3, map_app, map_map. done.
  - by rewrite Hpick3.
Qed.

End SwapMatch.

Lemma matching_swap_starts_pass_witness :
  let s := calmBoard in
  let s1 := sceneOf (swapTiles gameOptions s (cell s 1 2) (cell s 0 2) true) in
  exists s3,
    run gameOptions cycle s1 [complete; complete] = Some s3
    /\ (forall i j, (i < 7)%nat -> (j < 7)%nat ->
          cell s3 i j = cell s i j
          /\ colorAt s3 i j = colorAt s1 i j
          /\ (emptyAt s3 i j = true <->
              emptyAt s i j = true \/ onRowRun gameOptions s1 i j
              \/ onColumnRun gameOptions s1 i j)
          /\ getTileRow gameOptions s3 (cell s3 i j) = Z.of_nat i
          /\ getTileCol gameOptions s3 (cell s3 i j) = Z.of_nat j)
    /\ colorAt s1 1 2 = colorAt s 0 2
    /\ colorAt s1 0 2 = colorAt s 1 2
    /\ (forall i j, (i < 7)%nat -> (j < 7)%nat ->
          (i, j) <> (1%nat, 2%nat) -> (i, j) <> (0%nat, 2%nat) ->
          colorAt s1 i j = colorAt s i j)
    /\ runCells gameOptions s1 <> []
    /\ map onComplete (tweens s3)
       = map (fun ij : nat * nat => onDestroyComplete ij.1 ij.2 (length (counters s)))
             (runCells gameOptions s1)
    /\ canPick s3 = false.
Proof.
  apply (matching_swap_starts_pass gameOptions cycle calmBoard 1 2 0 2).
  - reflexivity.
  - vm_compute. reflexivity.
  - apply gridOkb_sound. vm_compute. reflexivity.
  - simpl. lia.
  - simpl. lia.
  - simpl. lia.
  - simpl. lia.
  - vm_compute. reflexivity.
  - vm_compute. reflexivity.
Defined.

(** ** Settling after a pass *)





Section Settle.

Variable opts : GameOptions.
Variable rnd : nat -> Z.








(** *** The tweens of the compaction *)







(** *** The tweens of the refill *)











End Settle.

